(** * Ray tracing through a stack of interfaces (arim.im.fermat_solver)

   A shallow embedding of [src/arim/im/fermat_solver.py]: the classes
   [FermatPath], [Rays] and [FermatSolver], followed by the properties
   established about them.

   Conventions of the embedding
   - Python exceptions are values of [exn]; a fallible pure computation
     returns a [result].
   - A numpy array is a shape and its row-major data; an array of indices
     carries its integer dtype, whose wrap-around is written out in
     [astype].
   - Floating-point numbers are an abstract carrier [F] with the operations
     the module uses; nothing is assumed of them.
   - The geometry module, [find_minimum_times], [distance_pairwise] and the
     compiled [_expand_rays] are collaborators of the module: the class
     [Collaborators] gathers them, and the properties hold of every
     instance.

   The file has the embedding first, then an instance of the collaborators
   on integers, then the properties, and last the properties at work on
   that instance. *)

From Stdlib Require Import ZArith Lia ZifyBool.
From stdpp Require Import base numbers list option countable gmap.

(** ** Exceptions *)

Inductive exn : Set :=
| AssertionError
| TypeError
| ValueError
| IndexError.

Inductive result (A : Type) : Type :=
| Ok (a : A)
| Raise (e : exn).
Arguments Ok {A} a.
Arguments Raise {A} e.

#[global] Instance result_ret : MRet result := λ A, Ok.
#[global] Instance result_bind : MBind result :=
  λ A B f m, match m with Ok a => f a | Raise e => Raise e end.
#[global] Instance result_fmap : FMap result :=
  λ A B f m, match m with Ok a => Ok (f a) | Raise e => Raise e end.

(** [assert c] *)
Definition py_assert (c : bool) : result unit :=
  if c then Ok () else Raise AssertionError.

(** [raise e] unless [c]. *)
Definition raise_if (c : bool) (e : exn) : result unit :=
  if c then Raise e else Ok ().

(** [seq[i]] for a Python sequence and a possibly negative integer. *)
Definition py_index {A} (l : list A) (i : Z) : result A :=
  let len := Z.of_nat (length l) in
  let pos := if (i <? 0)%Z then (len + i)%Z else i in
  if ((0 <=? pos) && (pos <? len))%Z
  then match l !! Z.to_nat pos with
       | Some x => Ok x
       | None => Raise IndexError
       end
  else Raise IndexError.

(** Monadic map over a list, left to right, stopping at the first
    exception. *)
Fixpoint mapM_result {A B} (f : A → result B) (l : list A) : result (list B) :=
  match l with
  | [] => Ok []
  | x :: l' => y ← f x; ys ← mapM_result f l'; Ok (y :: ys)
  end.

(** ** numpy arrays *)

Record ndarray (A : Type) : Type := NDArray {
  shape : list nat;
  data : list A
}.
Arguments NDArray {A} shape data.
Arguments shape {A} _.
Arguments data {A} _.

Definition ndim {A} (a : ndarray A) : nat := length (shape a).

(** Number of elements of an array of a given shape. *)
Definition size_of_shape (sh : list nat) : nat := foldr Nat.mul 1 sh.

(** The representation invariant of an array: as many elements as its
    shape says. *)
Definition wf_array {A} (a : ndarray A) : Prop :=
  length (data a) = size_of_shape (shape a).

(** Row-major position of a multi-index. *)
Definition ravel (sh idx : list nat) : nat :=
  fold_left (λ acc si, acc * si.1 + si.2) (zip sh idx) 0.

Definition in_bounds (sh idx : list nat) : bool :=
  bool_decide (length idx = length sh) &&
  forallb (λ si, si.2 <? si.1) (zip sh idx).

(** [a[i, j, ...]] with non-negative indices; [None] when out of bounds. *)
Definition getitem {A} (a : ndarray A) (idx : list nat) : option A :=
  if in_bounds (shape a) idx then data a !! ravel (shape a) idx else None.

(** All the multi-indices of a shape, in row-major order. *)
Fixpoint multi_indices (sh : list nat) : list (list nat) :=
  match sh with
  | [] => [[]]
  | n :: sh' => i ← seq 0 n; (λ rest, i :: rest) <$> multi_indices sh'
  end.

(** [a.T]: the axes reversed. *)
Definition transpose {A} (a : ndarray A) : ndarray A :=
  NDArray (rev (shape a))
          (omap (λ mi, data a !! ravel (shape a) (rev mi))
                (multi_indices (rev (shape a)))).

(** [a.reshape(new_shape)] *)
Definition reshape {A} (a : ndarray A) (new_shape : list nat) : result (ndarray A) :=
  if bool_decide (size_of_shape new_shape = size_of_shape (shape a))
  then Ok (NDArray new_shape (data a))
  else Raise ValueError.

(** Element-wise application of a function. *)
Definition amap {A B} (f : A → B) (a : ndarray A) : ndarray B :=
  NDArray (shape a) (f <$> data a).

(** *** Integer dtypes *)

Inductive dtype_kind : Set := KindU | KindI.

Record int_dtype : Set := IntDtype {
  kind : dtype_kind;
  bits : nat
}.

#[global] Instance dtype_kind_eq_dec : EqDecision dtype_kind.
Proof. solve_decision. Defined.
#[global] Instance int_dtype_eq_dec : EqDecision int_dtype.
Proof. solve_decision. Defined.

(** Conversion of an integer to a dtype, as an assignment into an array of
    that dtype does it: modulo [2^bits], into the unsigned or the signed
    range. *)
Definition astype (dt : int_dtype) (v : Z) : Z :=
  let modulus := (2 ^ Z.of_nat (bits dt))%Z in
  match kind dt with
  | KindU => (v mod modulus)%Z
  | KindI => ((v + modulus / 2) mod modulus - modulus / 2)%Z
  end.

(** An array of integers together with its dtype. *)
Record iarray : Type := IArray {
  idtype : int_dtype;
  iarr : ndarray Z
}.

(** [np.zeros(sh, dtype=dt)] *)
Definition np_zeros (sh : list nat) (dt : int_dtype) : iarray :=
  IArray dt (NDArray sh (replicate (size_of_shape sh) 0%Z)).

(** [np.repeat(np.arange(n), m)] *)
Definition repeat_arange (n m : nat) : list Z :=
  i ← seq 0 n; replicate m (Z.of_nat i).

(** [np.tile(np.arange(m), n)] *)
Definition tile_arange (m n : nat) : list Z :=
  _ ← seq 0 n; Z.of_nat <$> seq 0 m.

(** Overwrite the elements of [l] from position [pos] on by [vals]. *)
Definition splice {A} (l : list A) (pos : nat) (vals : list A) : list A :=
  take pos l ++ vals ++ drop (pos + length vals) l.

(** [a[lo:hi, ...] = vals] for an array [a] of at least one axis, where
    [vals] holds the [hi - lo] layers to store; the values are converted
    to the dtype of [a] when [convert] is set (the source array has another
    dtype). *)
Definition set_layers (a : iarray) (lo : nat) (vals : list Z) (convert : bool) : iarray :=
  let layer := size_of_shape (tail (shape (iarr a))) in
  let vals' := if convert then astype (idtype a) <$> vals else vals in
  IArray (idtype a)
         (NDArray (shape (iarr a)) (splice (data (iarr a)) (lo * layer) vals')).

(** [a[lo:hi, ...]] for an array of at least one axis. *)
Definition get_layers {A} (a : ndarray A) (lo hi : nat) : ndarray A :=
  let layer := size_of_shape (tail (shape a)) in
  match shape a with
  | [] => a
  | d :: rest =>
      let hi' := hi `min` d in
      let lo' := lo `min` hi' in
      NDArray ((hi' - lo') :: rest)
              (take ((hi' - lo') * layer) (drop (lo' * layer) (data a)))
  end.

(** [a[k]] (or [a[k, ...]]) for an array of at least one axis and a
    non-negative [k]. *)
Definition get_layer {A} (a : ndarray A) (k : nat) : result (ndarray A) :=
  match shape a with
  | [] => Raise IndexError
  | d :: rest =>
      if k <? d
      then Ok (NDArray rest (take (size_of_shape rest)
                                  (drop (k * size_of_shape rest) (data a))))
      else Raise IndexError
  end.

(** *** Python sequences, loops and attribute lookups *)

(** [seq[1:-1]] *)
Definition py_interior {A} (l : list A) : list A :=
  drop 1 (take (length l - 1) l).

(** [np.full(shape, v)] *)
Definition np_full {A} (sh : list nat) (v : A) : ndarray A :=
  NDArray sh (replicate (size_of_shape sh) v).

(** A [for] loop that updates a variable, stopping at the first
    exception. *)
Fixpoint for_result {I S} (body : S → I → result S) (l : list I) (s : S) : result S :=
  match l with
  | [] => Ok s
  | i :: l' => s' ← body s i; for_result body l' s'
  end.

(** The methods that read the coordinates of a point-set raise, besides
    the exceptions above, [AttributeError]: a speed has no coordinates. *)
Inductive exn_attr : Set :=
| AttributeError
| Builtin (e : exn).

Inductive outcome (A : Type) : Type :=
| Returns (a : A)
| Raises (e : exn_attr).
Arguments Returns {A} a.
Arguments Raises {A} e.

#[global] Instance outcome_ret : MRet outcome := λ A, Returns.
#[global] Instance outcome_bind : MBind outcome :=
  λ A B f m, match m with Returns a => f a | Raises e => Raises e end.

Definition of_result {A} (x : result A) : outcome A :=
  match x with Ok a => Returns a | Raise e => Raises (Builtin e) end.

(** The rank an index, possibly negative, stands for along an axis of
    length [len]. *)
Definition normalize_index (len : nat) (i : Z) : result nat :=
  let pos := if (i <? 0)%Z then (Z.of_nat len + i)%Z else i in
  if ((0 <=? pos) && (pos <? Z.of_nat len))%Z
  then Ok (Z.to_nat pos)
  else Raise IndexError.

(** [a[k, ...]] for a possibly negative [k]. *)
Definition get_layer_py {A} (a : ndarray A) (k : Z) : result (ndarray A) :=
  match shape a with
  | [] => Raise IndexError
  | d :: _ => pos ← normalize_index d k; get_layer a pos
  end.

(** [a[:, i, j]] for an array of three axes, as [Rays.indices] is. *)
Definition get_column {A} (a : ndarray A) (i j : Z) : result (list A) :=
  match shape a with
  | [d; n; m] =>
      i' ← normalize_index n i;
      j' ← normalize_index m j;
      Ok (omap (λ k, getitem a [k; i'; j']) (seq 0 d))
  | _ => Raise IndexError
  end.

(** [l[i] = v] for a non-negative [i]. *)
Definition setitem {A} (l : list A) (i : nat) (v : A) : result (list A) :=
  if i <? length l then Ok (<[i := v]> l) else Raise IndexError.

(** The same loop for the methods that also look up attributes. *)
Fixpoint for_outcome {I S} (body : S → I → outcome S) (l : list I) (s : S) : outcome S :=
  match l with
  | [] => Returns s
  | i :: l' => s' ← body s i; for_outcome body l' s'
  end.

(** ** The module, over its collaborators *)

(** Spherical coordinates, as [geometry.spherical_coordinates] returns
    them. *)
Record SphericalCoordinates (F : Type) : Type := MkSpherical {
  r : F;
  theta : F;
  phi : F
}.
Arguments MkSpherical {F} r theta phi.
Arguments r {F} _.
Arguments theta {F} _.
Arguments phi {F} _.

(** What the module takes from elsewhere, over the point-sets [Points]
    and the floating-point numbers [F]:
    - the operations on floating-point numbers it applies, and their order;
    - the coordinates of the points of a point-set ([geometry.Points]);
    - orientation matrices, the change of basis [geometry.to_gcs] and
      [geometry.spherical_coordinates];
    - the compiled loop [_fermat_solver._expand_rays], as the values it
      writes, in row-major order, into the buffer [expanded_indices];
    - [geometry.distance_pairwise] and [im.base.find_minimum_times]; the
      floating-point dtype they are given is that of [F]. *)
Class Collaborators (Points F : Type) : Type := {
  fadd : F → F → F;
  fsub : F → F → F;
  fdiv : F → F → F;
  fzero : F;
  fpi : F;
  fle : F → F → Prop;
  coords : Points → list (F * F * F);
  M3 : Type;
  to_gcs : F * F * F → M3 → F * F * F → F * F * F;
  spherical_coordinates : F → F → F → SphericalCoordinates F;
  _expand_rays : ndarray Z → ndarray Z → nat → nat → nat → nat → list Z;
  distance_pairwise : Points → Points → ndarray F;
  find_minimum_times : ndarray F → ndarray F → int_dtype → result (ndarray F * iarray)
}.

Section fermat_solver.

(** Point-sets are handles compared by identity; speeds and times are
    floating-point numbers. Both are keys of the caches. *)
Context {Points : Type} `{Countable Points}.
Context {F : Type} `{Countable F}.
Context `{!Collaborators Points F}.

(** *** class FermatPath(tuple) *)

(** An element of the tuple: a point-set or a speed. *)
Inductive elem : Type :=
| Pts (p : Points)
| Speed (v : F).

#[global] Instance elem_eq_dec : EqDecision elem.
Proof. solve_decision. Defined.

#[global] Instance elem_countable : Countable elem.
Proof.
  refine (inj_countable'
            (λ e, match e with Pts p => inl p | Speed v => inr v end)
            (λ s, match s with inl p => Pts p | inr v => Speed v end) _).
  by intros [].
Defined.

Abbreviation FermatPath := (list elem).

(** [len(x)] for an element of a path: a speed has no length. *)
Definition py_len (e : elem) : result nat :=
  match e with
  | Pts p => Ok (length (coords p))
  | Speed _ => Raise TypeError
  end.

(** [FermatPath.__new__] *)
Definition FermatPath_new (sequence : list elem) : result FermatPath :=
  if (length sequence mod 2 =? 0) || (length sequence <? 3)
  then Raise ValueError
  else Ok sequence.

(** [FermatPath.__add__] *)
Definition FermatPath_add (self tail : FermatPath) : result FermatPath :=
  a ← py_index self (-1);
  b ← py_index tail 0;
  if bool_decide (a ≠ b)
  then Raise ValueError
  else FermatPath_new (self ++ drop 1 tail).

(** [FermatPath.reverse] *)
Definition reverse (self : FermatPath) : result FermatPath :=
  FermatPath_new (rev self).

(** [FermatPath.split_head] *)
Definition split_head (self : FermatPath) : result (FermatPath * FermatPath) :=
  if length self <? 5
  then Raise ValueError
  else head ← FermatPath_new (take 3 self);
       tail ← FermatPath_new (drop 2 self);
       Ok (head, tail).

(** [FermatPath.split_queue] *)
Definition split_queue (self : FermatPath) : result (FermatPath * FermatPath) :=
  if length self <? 5
  then Raise ValueError
  else head ← FermatPath_new (take (length self - 2) self);
       tail ← FermatPath_new (drop (length self - 3) self);
       Ok (head, tail).

(** [FermatPath.points]: the elements of even rank. *)
Definition points (self : FermatPath) : list elem :=
  (filter (λ io, io.1 mod 2 = 0) (imap pair self)).*2.

(** [FermatPath.num_points_sets] *)
Definition num_points_sets (self : FermatPath) : nat :=
  length self / 2 + 1.

(** *** class Rays *)

(** [rays_id] is the identity of the object. *)
Record Rays : Type := MkRays {
  rays_id : nat;
  _times : ndarray F;
  _indices : iarray;
  _fermat_path : FermatPath
}.

(** [Rays.make_indices]. The right-hand sides [np.repeat(...)] and
    [np.tile(...)] are arrays of platform integers, converted on
    assignment; [interior_indices] already has the dtype of [indices]. *)
Definition make_indices (interior_indices : iarray) : result iarray :=
  match shape (iarr interior_indices) with
  | [dm2; n; m] =>
      let indices := np_zeros [dm2 + 2; n; m] (idtype interior_indices) in
      let indices := set_layers indices 0 (repeat_arange n m) true in
      let indices := set_layers indices (dm2 + 1) (tile_arange m n) true in
      let indices := set_layers indices 1 (data (iarr interior_indices)) false in
      Ok indices
  | _ => Raise ValueError
  end.

(** [Rays.__init__(self, times, interior_indices, fermat_path)]. The
    assertion [times.dtype.kind == 'f'] holds of every [ndarray F]. *)
Definition Rays_init (self : nat) (times : ndarray F)
    (interior_indices : iarray) (fermat_path : FermatPath) : result Rays :=
  _ ← py_assert (ndim times =? 2);
  _ ← py_assert (ndim (iarr interior_indices) =? 3);
  _ ← (if bool_decide (shape times = drop 1 (shape (iarr interior_indices)))
       then first ← py_index (points fermat_path) 0;
            n ← py_len first;
            last ← py_index (points fermat_path) (-1);
            m ← py_len last;
            py_assert (bool_decide (drop 1 (shape (iarr interior_indices)) = [n; m]))
       else Raise AssertionError);
  d ← py_index (shape (iarr interior_indices)) 0;
  _ ← py_assert (num_points_sets fermat_path =? d + 2);
  _ ← raise_if (bool_decide (kind (idtype interior_indices) ≠ KindU)) TypeError;
  indices ← make_indices interior_indices;
  Ok (MkRays self times indices fermat_path).

(** [Rays.times], [Rays.indices], [Rays.fermat_path] *)
Definition times (self : Rays) : ndarray F := _times self.
Definition indices (self : Rays) : iarray := _indices self.
Definition fermat_path (self : Rays) : FermatPath := _fermat_path self.

(** [Rays.interior_indices]: [self.indices[1:-1, ...]] *)
Definition interior_indices (self : Rays) : iarray :=
  let a := iarr (indices self) in
  IArray (idtype (indices self)) (get_layers a 1 (default 0 (head (shape a)) - 1)).

(** [Rays.expand_rays] *)
Definition expand_rays (interior_indices indices_new_interface : iarray) : result iarray :=
  match shape (iarr interior_indices), shape (iarr indices_new_interface) with
  | [d; n; m], [n_; p] =>
      _ ← raise_if (bool_decide (n ≠ n_)) ValueError;
      if d =? 0
      then let new_shape := 1 :: shape (iarr indices_new_interface) in
           IArray (idtype indices_new_interface)
             <$> reshape (iarr indices_new_interface) new_shape
      else Ok (IArray (idtype interior_indices)
                 (NDArray [d + 1; n; p]
                    (_expand_rays (iarr interior_indices)
                       (iarr indices_new_interface) n m p d)))
  | _, _ => Raise ValueError
  end.

(** *** Angles and lengths of the legs *)

(** What the methods read of an [Interface]. *)
Record Interface : Type := MkInterface {
  interface_points : Points;
  orientations : list M3;
  are_normals_on_inc_rays_side : option bool;
  are_normals_on_out_rays_side : option bool
}.

(** [seq[idx]] for an array of integers [idx]: the array, of the shape of
    [idx], of the elements of [seq] at these ranks. *)
Definition np_take {A} (l : list A) (idx : ndarray Z) : result (ndarray A) :=
  NDArray (shape idx) <$> mapM_result (py_index l) (data idx).

(** Element-wise application of a binary function. *)
Definition azip {A B C} (f : A → B → C) (a : ndarray A) (b : ndarray B) : ndarray C :=
  NDArray (shape a) (zip_with f (data a) (data b)).

(** Difference of two points. *)
Definition vsub (u v : F * F * F) : F * F * F :=
  (fsub u.1.1 v.1.1, fsub u.1.2 v.1.2, fsub u.2 v.2).

(** A generator that was run to its end: what it yielded and the exception
    that ended it, if any. *)
Definition generator (A : Type) : Type := list A * option exn.

(** A [for] loop whose body yields once per iteration. *)
Fixpoint gen_for {I A} (body : I → result A) (l : list I) : generator A :=
  match l with
  | [] => ([], None)
  | i :: l' =>
      match body i with
      | Ok a => let g := gen_for body l' in (a :: g.1, g.2)
      | Raise e => ([], Some e)
      end
  end.

(** One generator body after another. *)
Definition gen_then {A} (g1 g2 : generator A) : generator A :=
  match g1.2 with
  | None => (g1.1 ++ g2.1, g2.2)
  | Some e => g1
  end.

(** What one [yield] of the two methods gives: [yield x] or
    [yield x, y]. *)
Inductive angles_item : Type :=
| Item (x : option (ndarray F))
| ItemPair (x y : option (ndarray F)).

(** [yield None, None] or [yield None] *)
Definition yield_none (return_distances : bool) : angles_item :=
  if return_distances then ItemPair None None else Item None.

(** The body of both loops from [points = interface.points] on: [other]
    is the next (outgoing) or the previous (incoming) interface, at rank
    [other_idx], and [flag] the side of the normals of [interface]. *)
Definition leg_angles (self : Rays) (interface other : Interface)
    (interface_idx other_idx : nat) (flag return_distances : bool) : result angles_item :=
  let points := coords (interface_points interface) in
  let other_points := coords (interface_points other) in
  let orientations_all_points := orientations interface in
  here ← get_layer (iarr (indices self)) interface_idx;
  leg_origins ← np_take points here;
  there ← get_layer (iarr (indices self)) other_idx;
  leg_ends ← np_take other_points there;
  let leg_directions := azip vsub leg_ends leg_origins in
  here' ← get_layer (iarr (indices self)) interface_idx;
  orientations ← np_take orientations_all_points here';
  let leg_directions_local :=
    azip (λ v o, to_gcs v o (fzero, fzero, fzero)) leg_directions orientations in
  let leg_directions_spher :=
    amap (λ v : F * F * F, spherical_coordinates v.1.1 v.1.2 v.2) leg_directions_local in
  let theta := amap theta leg_directions_spher in
  let distances := amap r leg_directions_spher in
  let alpha := if flag then theta else amap (fsub fpi) theta in
  Ok (if return_distances then ItemPair (Some alpha) (Some distances)
      else Item (Some distances)).

(** The body of the loop of [Rays.get_outgoing_angles]. *)
Definition outgoing_body (self : Rays) (interfaces : list Interface)
    (return_distances : bool) (interface_idx : nat) : result angles_item :=
  interface ← py_index interfaces (Z.of_nat interface_idx);
  next_interface ← py_index interfaces (Z.of_nat interface_idx + 1);
  match are_normals_on_out_rays_side interface with
  | None => Ok (yield_none return_distances)
  | Some flag =>
      leg_angles self interface next_interface interface_idx (interface_idx + 1)
        flag return_distances
  end.

(** [Rays.get_outgoing_angles] *)
Definition get_outgoing_angles (self : Rays) (interfaces : list Interface)
    (return_distances : bool) : generator angles_item :=
  gen_then
    (gen_for (outgoing_body self interfaces return_distances)
       (seq 0 (length interfaces - 1)))
    ([yield_none return_distances], None).

(** The body of the loop of [Rays.get_incoming_angles]. *)
Definition incoming_body (self : Rays) (interfaces : list Interface)
    (return_distances : bool) (interface_idx : nat) : result angles_item :=
  interface ← py_index interfaces (Z.of_nat interface_idx);
  previous_interface ← py_index interfaces (Z.of_nat interface_idx - 1);
  match are_normals_on_inc_rays_side interface with
  | None => Ok (yield_none return_distances)
  | Some flag =>
      leg_angles self interface previous_interface interface_idx (interface_idx - 1)
        flag return_distances
  end.

(** [Rays.get_incoming_angles] *)
Definition get_incoming_angles (self : Rays) (interfaces : list Interface)
    (return_distances : bool) : generator angles_item :=
  gen_then
    ([yield_none return_distances], None)
    (gen_for (incoming_body self interfaces return_distances)
       (seq 1 (length interfaces - 1))).

(** *** class FermatSolver *)

(** The attributes of a solver, and [next_id], the identity the next
    created object receives. *)
Record FermatSolver : Type := MkSolver {
  dtype_indices : int_dtype;
  cached_distance : gmap (Points * Points) (ndarray F);
  cached_result : gmap FermatPath Rays;
  num_minimization : nat;
  num_euc_distance : nat;
  next_id : nat
}.

Definition set_cached_distance (f : gmap (Points * Points) (ndarray F) →
    gmap (Points * Points) (ndarray F)) (st : FermatSolver) : FermatSolver :=
  MkSolver (dtype_indices st) (f (cached_distance st)) (cached_result st)
           (num_minimization st) (num_euc_distance st) (next_id st).

Definition set_cached_result (f : gmap FermatPath Rays → gmap FermatPath Rays)
    (st : FermatSolver) : FermatSolver :=
  MkSolver (dtype_indices st) (cached_distance st) (f (cached_result st))
           (num_minimization st) (num_euc_distance st) (next_id st).

Definition set_num_minimization (f : nat → nat) (st : FermatSolver) : FermatSolver :=
  MkSolver (dtype_indices st) (cached_distance st) (cached_result st)
           (f (num_minimization st)) (num_euc_distance st) (next_id st).

Definition set_num_euc_distance (f : nat → nat) (st : FermatSolver) : FermatSolver :=
  MkSolver (dtype_indices st) (cached_distance st) (cached_result st)
           (num_minimization st) (f (num_euc_distance st)) (next_id st).

Definition set_next_id (f : nat → nat) (st : FermatSolver) : FermatSolver :=
  MkSolver (dtype_indices st) (cached_distance st) (cached_result st)
           (num_minimization st) (num_euc_distance st) (f (next_id st)).

(** Computations on a solver: they may raise, change the solver, or, for
    the recursive one, run out of fuel ([None]). *)
Definition M (A : Type) : Type := FermatSolver → option (result A * FermatSolver).

#[global] Instance M_ret : MRet M := λ A a st, Some (Ok a, st).
#[global] Instance M_bind : MBind M :=
  λ A B f m st,
    match m st with
    | Some (Ok a, st') => f a st'
    | Some (Raise e, st') => Some (Raise e, st')
    | None => None
    end.

Definition lift {A} (x : result A) : M A := λ st, Some (x, st).
Definition gets {A} (f : FermatSolver → A) : M A := λ st, Some (Ok (f st), st).
Definition modify (f : FermatSolver → FermatSolver) : M unit := λ st, Some (Ok (), f st).

(** [Rays(times, interior_indices, fermat_path)]: a new object, then
    [__init__] on it. *)
Definition Rays_new (times : ndarray F) (interior_indices : iarray)
    (fermat_path : FermatPath) : M Rays :=
  self ← gets next_id;
  _ ← modify (set_next_id S);
  lift (Rays_init self times interior_indices fermat_path).

(** [Rays.make_rays_two_interfaces] *)
Definition make_rays_two_interfaces (times : ndarray F) (path : FermatPath)
    (dtype_indices : int_dtype) : M Rays :=
  _ ← lift (raise_if (bool_decide (num_points_sets path ≠ 2)) ValueError);
  n ← lift (py_index (points path) 0 ≫= py_len);
  m ← lift (py_index (points path) 1 ≫= py_len);
  let interior_indices := np_zeros [0; n; m] dtype_indices in
  Rays_new times interior_indices path.

(** [FermatSolver.clear_cache] *)
Definition clear_cache : M unit :=
  _ ← modify (set_cached_distance (λ _, ∅));
  modify (set_cached_result (λ _, ∅)).

(** The [try] statement of [consecutive_times]. *)
Definition lookup_distance (points1 points2 : Points) : M (ndarray F) :=
  let key := (points1, points2) in
  cache ← gets cached_distance;
  match cache !! key with
  | Some distance => mret distance
  | None =>
      _ ← modify (set_num_euc_distance S);
      let distance := distance_pairwise points1 points2 in
      let rkey := (points1, points2) in
      _ ← modify (set_cached_distance <[key := distance]>);
      _ ← (if bool_decide (key ≠ rkey)
           then modify (set_cached_distance <[rkey := transpose distance]>)
           else mret ());
      mret distance
  end.

(** [FermatSolver.consecutive_times]. The geometry module rejects an
    operand that is not a point-set, and an array is not divided by a
    point-set. *)
Definition consecutive_times (path : FermatPath) : M Rays :=
  match path with
  | [Pts points1; Speed speed; Pts points2] =>
      distance ← lookup_distance points1 points2;
      dt ← gets dtype_indices;
      make_rays_two_interfaces (amap (λ x, fdiv x speed) distance) path dt
  | [_; _; _] => lift (Raise TypeError)
  | _ => lift (Raise ValueError)
  end.

(** [FermatSolver._solve], with a bound on the depth of the recursion.
    The two [isinstance] assertions hold of every [Rays]; [res_tail.path]
    is [res_tail.fermat_path] after a deprecation warning. *)
Fixpoint _solve_fuel (fuel : nat) (path : FermatPath) : M Rays :=
  match fuel with
  | 0 => λ _, None
  | S fuel' =>
      cache ← gets cached_result;
      match cache !! path with
      | Some res => mret res
      | None =>
          if length path =? 3
          then consecutive_times path
          else
            ht ← lift (split_queue path);
            res_head ← _solve_fuel fuel' ht.1;
            res_tail ← _solve_fuel fuel' ht.2;
            _ ← modify (set_num_minimization S);
            dt ← gets dtype_indices;
            ti ← lift (find_minimum_times (times res_head) (times res_tail) dt);
            _ ← lift (py_assert (num_points_sets (fermat_path res_tail) =? 2));
            indices ← lift (expand_rays (interior_indices res_head) ti.2);
            res ← Rays_new ti.1 indices path;
            _ ← modify (set_cached_result <[path := res]>);
            mret res
      end
  end.

(** [FermatSolver._solve]: a path of [k] elements needs no more than [k]
    nested calls. *)
Definition _solve (path : FermatPath) : M Rays :=
  _solve_fuel (S (length path)) path.

(** *** Vocabulary of the properties *)

(** Number of points of a point-set. *)
Definition npoints (p : Points) : nat := length (coords p).

(** A path as [FermatPath.__new__] accepts it. *)
Definition is_FermatPath (path : FermatPath) : Prop :=
  FermatPath_new path = Ok path.

(** [a[i, k] + b[k, j]] *)
Definition sum_at (a b : ndarray F) (i j k : nat) : option F :=
  x ← getitem a [i; k]; y ← getitem b [k; j]; Some (fadd x y).

(** [v] is the minimum of [f 0], ..., [f (p - 1)]: below each of them,
    and one of them when there is one. *)
Definition minimum_over (f : nat → option F) (p : nat) (v : F) : Prop :=
  (∀ k x, k < p → f k = Some x → fle v x) ∧
  (0 < p → ∃ k, k < p ∧ f k = Some v).

(** [k] is the lowest rank at which [f] takes the value [v], a minimum. *)
Definition lowest_argmin (f : nat → option F) (p : nat) (v : F) (k : nat) : Prop :=
  k < p ∧ f k = Some v ∧ ∀ k' x, k' < k → f k' = Some x → ¬ fle x v.

(** The value of a computation that did not raise. *)
Definition value {A} (x : result A) : option A :=
  match x with Ok a => Some a | Raise _ => None end.

(** The leg of the ray [(i, j)] at an interface, towards the interface
    [other], in the local frame of the point the ray crosses and in
    spherical coordinates. [interface_idx] and [other_idx] are the ranks of
    the two interfaces along the path. *)
Definition leg_spherical (self : Rays) (interface other : Interface)
    (interface_idx other_idx i j : nat) : option (SphericalCoordinates F) :=
  a ← getitem (iarr (indices self)) [interface_idx; i; j];
  b ← getitem (iarr (indices self)) [other_idx; i; j];
  leg_origin ← value (py_index (coords (interface_points interface)) a);
  leg_end ← value (py_index (coords (interface_points other)) b);
  orientation ← value (py_index (orientations interface) a);
  let v := to_gcs (vsub leg_end leg_origin) orientation (fzero, fzero, fzero) in
  Some (spherical_coordinates v.1.1 v.1.2 v.2).

(** The indices of the rays are ranks of points of the interfaces: at each
    interface, they are within its point-set and its orientations. *)
Definition indices_within (self : Rays) (interfaces : list Interface) : Prop :=
  ∀ k interface layer,
    interfaces !! k = Some interface →
    get_layer (iarr (indices self)) k = Ok layer →
    Forall (λ z, (0 ≤ z < Z.of_nat (npoints (interface_points interface)))%Z ∧
                 (z < Z.of_nat (length (orientations interface)))%Z)
           (data layer).

(** The angle of a leg with the normal of the interface: the polar angle
    when the normals are on the side of the rays, its supplement
    otherwise. *)
Definition leg_angle (flag : bool) (leg : SphericalCoordinates F) : F :=
  if flag then theta leg else fsub fpi (theta leg).

(** The contract of [find_minimum_times]: on an [n x p] and a [p x m]
    matrix it returns the [n x m] matrix of the minima over the middle
    dimension and, in the requested dtype, the matrix of the lowest ranks
    where they are reached. *)
Definition find_minimum_times_contract : Prop :=
  ∀ (a b : ndarray F) dt n p m,
    wf_array a → wf_array b → shape a = [n; p] → shape b = [p; m] →
    ∃ t idx,
      find_minimum_times a b dt = Ok (t, idx) ∧
      shape t = [n; m] ∧ wf_array t ∧
      idtype idx = dt ∧ shape (iarr idx) = [n; m] ∧ wf_array (iarr idx) ∧
      ∀ i j, i < n → j < m →
        ∃ v, getitem t [i; j] = Some v ∧
             minimum_over (sum_at a b i j) p v ∧
             (0 < p → ∃ k, lowest_argmin (sum_at a b i j) p v k ∧
                           getitem (iarr idx) [i; j] = Some (astype dt (Z.of_nat k))).

(** The contract of [distance_pairwise]: one distance per pair of points. *)
Definition distance_pairwise_contract : Prop :=
  ∀ a b, shape (distance_pairwise a b) = [npoints a; npoints b] ∧
         wf_array (distance_pairwise a b).

(** The times along a path, as the recursion of [_solve] defines them. *)
Inductive solves (dt : int_dtype) : FermatPath → ndarray F → Prop :=
| solves_consecutive points1 speed points2 :
    solves dt [Pts points1; Speed speed; Pts points2]
           (amap (λ x, fdiv x speed) (distance_pairwise points1 points2))
| solves_split path head tail times_head times_tail ti :
    length path ≠ 3 →
    split_queue path = Ok (head, tail) →
    solves dt head times_head →
    solves dt tail times_tail →
    find_minimum_times times_head times_tail dt = Ok ti →
    solves dt path ti.1.

(** The caches of a solver hold what the solver computes: distances as
    [distance_pairwise] gives them, and times as [_solve] defines them. *)
Definition distance_cache_inv (st : FermatSolver) : Prop :=
  ∀ a b d, cached_distance st !! (a, b) = Some d → d = distance_pairwise a b.

Definition result_cache_inv (st : FermatSolver) : Prop :=
  ∀ path res, cached_result st !! path = Some res →
    solves (dtype_indices st) path (times res).

Definition cache_inv (st : FermatSolver) : Prop :=
  distance_cache_inv st ∧ result_cache_inv st.

(** *** Further methods of FermatPath and Rays *)

(** [FermatPath.len_largest_interface] *)
Definition len_largest_interface (self : FermatPath) : result nat :=
  let all_points := points self in
  let interfaces := py_interior all_points in
  match interfaces with
  | [] => Ok 0
  | _ => max_list <$> mapM_result py_len interfaces
  end.

(** The body of the loop of [Rays.gone_through_extreme_points], on the
    pair [(d, points)] of [enumerate(middle_points)]. *)
Definition extreme_body (interior_indices : ndarray Z) (out : ndarray bool)
    (dp : nat * elem) : result (ndarray bool) :=
  layer ← get_layer interior_indices dp.1;
  let out := azip orb out (amap (λ z, (z =? 0)%Z) layer) in
  layer ← get_layer interior_indices dp.1;
  n ← py_len dp.2;
  Ok (azip orb out (amap (λ z, (z =? Z.of_nat n - 1)%Z) layer)).

(** [Rays.gone_through_extreme_points]; the memory order of [out] is not
    part of an array here. *)
Definition gone_through_extreme_points (self : Rays) : result (ndarray bool) :=
  let shape := drop 1 (shape (iarr (indices self))) in
  let out := np_full shape false in
  let interior_indices := interior_indices self in
  let middle_points := py_interior (points (fermat_path self)) in
  for_result (extreme_body (iarr interior_indices)) (imap pair middle_points) out.

(** [points.x], [points.y], [points.z] *)
Definition attr_x (e : elem) : outcome (list F) :=
  match e with
  | Pts p => Returns ((λ c, c.1.1) <$> coords p)
  | Speed _ => Raises AttributeError
  end.

Definition attr_y (e : elem) : outcome (list F) :=
  match e with
  | Pts p => Returns ((λ c, c.1.2) <$> coords p)
  | Speed _ => Raises AttributeError
  end.

Definition attr_z (e : elem) : outcome (list F) :=
  match e with
  | Pts p => Returns ((λ c, c.2) <$> coords p)
  | Speed _ => Raises AttributeError
  end.

(** [Rays.get_coordinates]: a generator of one element. *)
Definition get_coordinates (self : Rays) (n_interface : Z) :
    list (ndarray F * ndarray F * ndarray F) * option exn_attr :=
  let body :=
    points ← of_result (py_index (points (fermat_path self)) n_interface);
    indices ← of_result (get_layer_py (iarr (indices self)) n_interface);
    px ← attr_x points;
    x ← of_result (np_take px indices);
    py ← attr_y points;
    y ← of_result (np_take py indices);
    pz ← attr_z points;
    z ← of_result (np_take pz indices);
    Returns (x, y, z) in
  match body with
  | Returns xyz => ([xyz], None)
  | Raises e => ([], Some e)
  end.

(** The body of the loop of [Rays.get_coordinates_one], on
    [(i, (points, j))]. *)
Definition coordinates_one_body (xyz : list F * list F * list F)
    (ipj : nat * (elem * Z)) : outcome (list F * list F * list F) :=
  let i := ipj.1 in
  let points := ipj.2.1 in
  let j := ipj.2.2 in
  px ← attr_x points;
  vx ← of_result (py_index px j);
  x ← of_result (setitem xyz.1.1 i vx);
  py ← attr_y points;
  vy ← of_result (py_index py j);
  y ← of_result (setitem xyz.1.2 i vy);
  pz ← attr_z points;
  vz ← of_result (py_index pz j);
  z ← of_result (setitem xyz.2 i vz);
  Returns (x, y, z).

(** [Rays.get_coordinates_one]: the three arrays given to
    [geometry.Points.from_xyz], which makes the point-set returned. *)
Definition get_coordinates_one (self : Rays) (start_index end_index : Z) :
    outcome (list F * list F * list F) :=
  indices ← of_result (get_column (iarr (indices self)) start_index end_index);
  let num_points_sets := num_points_sets (fermat_path self) in
  let x := replicate num_points_sets fzero in
  let y := replicate num_points_sets fzero in
  let z := replicate num_points_sets fzero in
  for_outcome coordinates_one_body
    (imap pair (zip (points (fermat_path self)) indices)) (x, y, z).

(** *** The solver and its paths *)

(** A solver with the attributes [paths] and [res], which [_solve] leaves
    alone; [paths] in the order of its iteration. *)
Record SolverObject : Type := MkSolverObject {
  paths : list FermatPath;
  res : gmap FermatPath Rays;
  attributes : FermatSolver
}.

(** [FermatSolver.__init__]: [UINT] is [settings.UINT], and [next] the
    identity the next created object receives. Every path is hashable:
    point-sets and speeds are. *)
Definition FermatSolver_init (UINT : int_dtype) (next : nat)
    (paths : list FermatPath) (dtype_indices : option int_dtype) : result SolverObject :=
  dtype_indices ←
    match dtype_indices with
    | None =>
        lengths ← mapM_result len_largest_interface paths;
        _ ← raise_if (bool_decide (lengths = [])) ValueError;
        Ok UINT
    | Some dt => Ok dt
    end;
  Ok (MkSolverObject paths ∅ (MkSolver dtype_indices ∅ ∅ 0 0 next)).

(** The loop of [solve_no_clean]. *)
Fixpoint solve_paths (todo : list FermatPath) (self : SolverObject) :
    option (result unit * SolverObject) :=
  match todo with
  | [] => Some (Ok (), self)
  | path :: todo' =>
      match _solve path (attributes self) with
      | Some (Ok rays, st) =>
          solve_paths todo' (MkSolverObject (paths self) (<[path := rays]> (res self)) st)
      | Some (Raise e, st) => Some (Raise e, MkSolverObject (paths self) (res self) st)
      | None => None
      end
  end.

(** [FermatSolver.solve_no_clean]; the readings of the clock and the line
    of the log are left out. *)
Definition solve_no_clean (self : SolverObject) :
    option (result (gmap FermatPath Rays) * SolverObject) :=
  match solve_paths (paths self) self with
  | Some (Ok _, self') => Some (Ok (res self'), self')
  | Some (Raise e, self') => Some (Raise e, self')
  | None => None
  end.

(** [FermatSolver.solve] *)
Definition solve (self : SolverObject) :
    option (result (gmap FermatPath Rays) * SolverObject) :=
  match solve_no_clean self with
  | Some (Ok _, self') =>
      match clear_cache (attributes self') with
      | Some (Ok _, st) =>
          let self'' := MkSolverObject (paths self') (res self') st in
          Some (Ok (res self''), self'')
      | Some (Raise e, st) => Some (Raise e, MkSolverObject (paths self') (res self') st)
      | None => None
      end
  | other => other
  end.

(** *** Vocabulary of the further properties *)

(** A result that the constructor made for a path. *)
Definition constructed_for (path : FermatPath) (rays : Rays) : Prop :=
  ∃ self times interior, Rays_init self times interior path = Ok rays.

(** Every cached result was constructed for the path that is its key. *)
Definition result_cache_constructed (st : FermatSolver) : Prop :=
  ∀ path rays, cached_result st !! path = Some rays → constructed_for path rays.

(** The ray [(i, j)] goes through the first or the last point of one of
    the interior point-sets of its path. *)
Definition through_extreme_point (self : Rays) (i j : nat) : Prop :=
  ∃ k q z,
    0 < k ∧ k + 1 < num_points_sets (fermat_path self) ∧
    points (fermat_path self) !! k = Some (Pts q) ∧
    getitem (iarr (indices self)) [k; i; j] = Some z ∧
    (z = 0 ∨ z = Z.of_nat (npoints q) - 1)%Z.

(** What a call leaves of a solver: the dtype of the indices, what the
    caches hold, and counters that are not lower. *)
Definition solver_grows (st st' : FermatSolver) : Prop :=
  dtype_indices st' = dtype_indices st ∧
  cached_distance st ⊆ cached_distance st' ∧
  cached_result st ⊆ cached_result st' ∧
  num_minimization st ≤ num_minimization st' ∧
  num_euc_distance st ≤ num_euc_distance st' ∧
  next_id st ≤ next_id st'.

(** Two point-sets that follow one another along a path. *)
Definition adjacent (path : FermatPath) (a b : Points) : Prop :=
  ∃ k, points path !! k = Some (Pts a) ∧ points path !! S k = Some (Pts b).

(** What a call of [_solve] on a path does to a solver: the solver grows;
    the results added to the cache are those of prefixes of the path of 5
    elements or more; the distances added are those of point-sets that
    follow one another along the path; and results constructed for their
    paths stay so, the one returned included. *)
Definition solve_effects (path : FermatPath) (st : FermatSolver)
    (out : result Rays) (st' : FermatSolver) : Prop :=
  solver_grows st st' ∧
  (∀ q, cached_result st !! q = None → is_Some (cached_result st' !! q) →
        q `prefix_of` path ∧ 5 ≤ length q) ∧
  (∀ a b d, cached_distance st !! (a, b) = None →
            cached_distance st' !! (a, b) = Some d →
            d = distance_pairwise a b ∧ adjacent path a b) ∧
  (result_cache_constructed st →
   result_cache_constructed st' ∧ ∀ rays, out = Ok rays → constructed_for path rays).


End fermat_solver.

Abbreviation FermatPath := (list elem).

(** ** An integer model of the collaborators

    Times and coordinates are integers, a point-set is a number that names
    it, and the collaborators are the simplest functions of the expected
    kind. The module runs on it. *)

(** Division of a time, on integers. *)
Definition int_div (x y : Z) : Z := (x / y)%Z.

(** The city-block distance of two points. *)
Definition int_distance (p q : Z * Z * Z) : Z :=
  (Z.abs (p.1.1 - q.1.1) + Z.abs (p.1.2 - q.1.2) + Z.abs (p.2 - q.2))%Z.

(** The point-sets: three on three parallel lines, then one of 257
    points, one more than 8 bits can number, and a single point. *)
Definition probe : nat := 0.
Definition frontwall : nat := 1.
Definition grid : nat := 2.
Definition wide_points : nat := 3.
Definition single_point : nat := 4.

Definition int_coords (points : nat) : list (Z * Z * Z) :=
  match points with
  | 0 => [(0, 0, 0); (4, 0, 0)]%Z
  | 1 => [(0, 0, 10); (2, 0, 10); (4, 0, 10)]%Z
  | 2 => [(1, 0, 30); (3, 0, 30)]%Z
  | 3 => replicate 257 (0, 0, 0)%Z
  | _ => [(0, 0, 1)%Z]
  end.

(** The distances between the points of two point-sets. *)
Definition int_distance_pairwise (a b : nat) : ndarray Z :=
  NDArray [length (int_coords a); length (int_coords b)]
          (p ← int_coords a; int_distance p <$> int_coords b).

(** [a[i, j]], or 0 outside of the array. *)
Definition entry (a : ndarray Z) (i j : nat) : Z := default 0%Z (getitem a [i; j]).

(** The lowest rank among [0], ..., [start + len - 1] where [f] is the
    smallest, [best] being that rank among those below [start]. *)
Fixpoint scan_min (f : nat → Z) (start len best : nat) : nat :=
  match len with
  | 0 => best
  | S len' => scan_min f (S start) len' (if (f start <? f best)%Z then start else best)
  end.

Definition argmin (f : nat → Z) (p : nat) : nat := scan_min f 1 (p - 1) 0.

(** The ranks [(i, j)] of an [n x m] matrix, row after row. *)
Definition cells (n m : nat) : list (nat * nat) :=
  (λ k, (k / m, k mod m)) <$> seq 0 (n * m).

(** Modelled from the spec: [find_minimum_times], of which the module has
    only the call; an exhaustive scan of the middle dimension that keeps the
    first of equal minima. *)
Definition scan_find_minimum_times (a b : ndarray Z) (dt : int_dtype) :
    result (ndarray Z * iarray) :=
  match shape a, shape b with
  | [n; p], [p'; m] =>
      if bool_decide (p = p')
      then
        let f (ij : nat * nat) (k : nat) := (entry a ij.1 k + entry b k ij.2)%Z in
        Ok (NDArray [n; m] ((λ ij, f ij (argmin (f ij) p)) <$> cells n m),
            IArray dt (NDArray [n; m]
              ((λ ij, astype dt (Z.of_nat (argmin (f ij) p))) <$> cells n m)))
      else Raise ValueError
  | _, _ => Raise ValueError
  end.

(** Modelled from the spec: the loop [_expand_rays], of which the module
    has only the call; for each pair [(i, k)], with
    [j = indices_new_interface[i, k]], the column [interior_indices[:, i, j]]
    followed by [j]. *)
Definition gather_expand_rays (interior_indices indices_new_interface : ndarray Z)
    (n m p d : nat) : list Z :=
  l ← seq 0 (d + 1);
  (λ ik : nat * nat,
     let j := entry indices_new_interface ik.1 ik.2 in
     if l <? d
     then default 0%Z (getitem interior_indices [l; ik.1; Z.to_nat j])
     else j) <$> cells n p.

(** The local frame is the global one, and of the spherical coordinates
    only the radius (city-block) and a polar angle (the height) matter. *)
Definition int_to_gcs (v : Z * Z * Z) (_ : unit) (_ : Z * Z * Z) : Z * Z * Z := v.

Definition int_spherical_coordinates (x y z : Z) : SphericalCoordinates Z :=
  MkSpherical (Z.abs x + Z.abs y + Z.abs z)%Z z 0%Z.

(** The collaborators on integers; 3 stands for pi. *)
#[global] Instance int_collaborators : Collaborators nat Z := {|
  fadd := Z.add;
  fsub := Z.sub;
  fdiv := int_div;
  fzero := 0%Z;
  fpi := 3%Z;
  fle := Z.le;
  coords := int_coords;
  M3 := unit;
  to_gcs := int_to_gcs;
  spherical_coordinates := int_spherical_coordinates;
  _expand_rays := gather_expand_rays;
  distance_pairwise := int_distance_pairwise;
  find_minimum_times := scan_find_minimum_times
|}.

Abbreviation int_path := (list (@elem nat Z)).
Abbreviation int_rays := (@Rays nat Z).
Abbreviation int_solver := (@FermatSolver nat _ _ Z _ _).

(** Indices on 8 bits, and a solver as [__init__] leaves it. *)
Definition index_dtype : int_dtype := IntDtype KindU 8.

Definition new_solver : int_solver :=
  MkSolver index_dtype ∅ ∅ 0 0 0.

(** Paths along the first three point-sets. *)
Definition path_two : int_path :=
  [Pts probe; Speed 1%Z; Pts frontwall].
Definition path_tail : int_path :=
  [Pts frontwall; Speed 2%Z; Pts grid].
Definition path_three : int_path :=
  [Pts probe; Speed 1%Z; Pts frontwall; Speed 2%Z; Pts grid].

(** The rays along [path_three], as [_solve] returns them on
    [new_solver], and the arrays they are made of. *)
Definition times_three : ndarray Z := NDArray [2; 2] [20; 21; 21; 20]%Z.

Definition interior_three : iarray :=
  IArray index_dtype (NDArray [1; 2; 2] [0; 0; 2; 2]%Z).

Definition rays_three : int_rays :=
  MkRays 2 times_three
    (IArray index_dtype (NDArray [3; 2; 2] [0; 0; 1; 1; 0; 0; 2; 2; 0; 1; 0; 1]%Z))
    path_three.

(** The three interfaces of [path_three]: the first declares no side for
    the incoming rays, all of them declare a side for the outgoing rays. *)
Definition interfaces_three : list (@Interface nat Z _) :=
  [MkInterface probe [(); ()] None (Some true);
   MkInterface frontwall [(); (); ()] (Some true) (Some false);
   MkInterface grid [(); ()] (Some true) (Some true)].

(** The point-set of 257 points facing the single point. *)
Definition path_wide : int_path := [Pts wide_points; Speed 1%Z; Pts single_point].

Definition times_wide : ndarray Z := NDArray [257; 1] (replicate 257 1%Z).

(** The rays along [path_two] and [path_tail], as [_solve] returns them
    on [new_solver]. *)
Definition rays_two : int_rays :=
  MkRays 0 (NDArray [2; 3] [10; 12; 14; 14; 12; 10]%Z)
    (IArray index_dtype (NDArray [2; 2; 3] [0; 0; 0; 1; 1; 1; 0; 1; 2; 0; 1; 2]%Z))
    path_two.

Definition rays_tail : int_rays :=
  MkRays 0 (NDArray [3; 2] [10; 11; 10; 10; 11; 10]%Z)
    (IArray index_dtype (NDArray [2; 3; 2] [0; 0; 1; 1; 2; 2; 0; 1; 0; 1; 0; 1]%Z))
    path_tail.

(** The solver a run leaves behind. *)
Definition solver_after {A} (run : option (result A * int_solver)) : int_solver :=
  match run with
  | Some (_, st) => st
  | None => new_solver
  end.

(** *** Further data of the integer model *)

Abbreviation int_solver_object := (@SolverObject nat _ _ Z _ _).

(** A path from [grid] to the single point. *)
Definition path_exit : int_path :=
  [Pts grid; Speed 3%Z; Pts single_point].

(** The rays along [path_three] once those along [path_two] were made. *)
Definition rays_three_next : int_rays :=
  MkRays 3 (times rays_three) (indices rays_three) path_three.

(** A solver whose indices are signed. *)
Definition signed_dtype : int_dtype := IntDtype KindI 8.

Definition signed_solver : int_solver :=
  MkSolver signed_dtype ∅ ∅ 0 0 0.

(** A solver for [path_three] and [path_two], before any call. *)
Definition solver_object_two_paths : int_solver_object :=
  MkSolverObject [path_three; path_two] ∅ new_solver.

(** What a run of [solve] or [solve_no_clean] returns and leaves. *)
Definition results_after (run : option (result (gmap int_path int_rays) * int_solver_object)) :
    gmap int_path int_rays :=
  match run with
  | Some (Ok results, _) => results
  | _ => ∅
  end.

Definition object_after {A} (run : option (result A * int_solver_object)) :
    int_solver_object :=
  match run with
  | Some (_, self) => self
  | None => solver_object_two_paths
  end.

(** The interfaces of [path_three] when the one in the middle declares no
    side of its normals. *)
Definition interfaces_undeclared : list (@Interface nat Z _) :=
  [MkInterface probe [(); ()] None (Some true);
   MkInterface frontwall [(); (); ()] None None;
   MkInterface grid [(); ()] (Some true) (Some true)].
(** ** Properties *)

Section properties.

Context {Points : Type} `{Countable Points}.
Context {F : Type} `{Countable F}.
Context `{!Collaborators Points F}.

Abbreviation FermatPath := (list (@elem Points F)).
Abbreviation Rays := (@Rays Points F).
Abbreviation FermatSolver := (@FermatSolver Points _ _ F _ _).
Abbreviation M := (@M Points _ _ F _ _).


(** *** Python sequences *)

Lemma py_index_nonneg {A} (l : list A) (i : nat) (x : A) :
  l !! i = Some x → py_index l (Z.of_nat i) = Ok x.
Proof.
  intros Hx. unfold py_index.
  pose proof (lookup_lt_Some _ _ _ Hx) as Hlt.
  assert ((Z.of_nat i <? 0)%Z = false) as -> by lia.
  assert (((0 <=? Z.of_nat i) && (Z.of_nat i <? Z.of_nat (length l)))%Z = true) as ->
    by (apply andb_true_intro; split; lia).
  by rewrite Nat2Z.id, Hx.
Qed.

Lemma py_index_last {A} (l : list A) (x : A) :
  last l = Some x → py_index l (-1) = Ok x.
Proof.
  intros Hx. unfold py_index.
  rewrite last_lookup in Hx.
  pose proof (lookup_lt_Some _ _ _ Hx) as Hlt.
  change ((-1 <? 0)%Z) with true. cbn match.
  assert (((0 <=? Z.of_nat (length l) + -1) &&
           (Z.of_nat (length l) + -1 <? Z.of_nat (length l)))%Z = true) as ->
    by (apply andb_true_intro; split; lia).
  replace (Z.to_nat (Z.of_nat (length l) + -1)) with (pred (length l)) by lia.
  by rewrite Hx.
Qed.

Lemma py_index_Ok {A} (l : list A) (i : Z) (x : A) :
  py_index l i = Ok x →
  ∃ k, l !! k = Some x ∧
       Z.of_nat k = (if (i <? 0)%Z then Z.of_nat (length l) + i else i)%Z.
Proof.
  unfold py_index. intros Hx.
  destruct (_ && _)%Z eqn:Hb; [|done].
  apply andb_prop in Hb as [Hlo Hhi].
  destruct (l !! _) as [y|] eqn:Hy; [|done].
  exists (Z.to_nat (if (i <? 0)%Z then (Z.of_nat (length l) + i)%Z else i)).
  split; [congruence | lia].
Qed.

(** *** FermatPath *)

Lemma FermatPath_new_Ok (sequence path : FermatPath) :
  FermatPath_new sequence = Ok path ↔
  path = sequence ∧ length sequence mod 2 = 1 ∧ 3 ≤ length sequence.
Proof.
  unfold FermatPath_new.
  pose proof (Nat.mod_upper_bound (length sequence) 2).
  split.
  - intros Hx. destruct (_ || _) eqn:E; [done|].
    injection Hx as ->. apply orb_false_elim in E as [E1 E2].
    split; [done|]. split; lia.
  - intros (-> & Hm & Hl).
    assert ((length sequence mod 2 =? 0) || (length sequence <? 3) = false) as ->; [|done].
    apply orb_false_intro; lia.
Qed.

(** C9. For a FermatPath of at least 5 elements, [split_queue] and
    [split_head] each return two sub-paths whose concatenation with [+]
    succeeds and gives back the path. *)
Theorem split_add_roundtrip (path : FermatPath) :
  is_FermatPath path → 5 ≤ length path →
  (∃ head tail, split_queue path = Ok (head, tail) ∧
                FermatPath_add head tail = Ok path) ∧
  (∃ head tail, split_head path = Ok (head, tail) ∧
                FermatPath_add head tail = Ok path).
Proof.
  intros Hpath Hlen.
  apply FermatPath_new_Ok in Hpath as (_ & Hodd & _).
  assert ((length path <? 5) = false) as Hge by lia.
  assert (∀ l : FermatPath, length l mod 2 = 1 → 3 ≤ length l →
            FermatPath_new l = Ok l) as Hnew
    by (intros l ? ?; by apply FermatPath_new_Ok).
  split.
  - exists (take (length path - 2) path), (drop (length path - 3) path).
    assert (length (take (length path - 2) path) = length path - 2) as Hlh
      by (rewrite length_take; lia).
    assert (length (drop (length path - 3) path) = 3) as Hlt
      by (rewrite length_drop; lia).
    assert (length path mod 2 = (length path - 2) mod 2) as Hm.
    { replace (length path) with ((length path - 2) + 1 * 2) at 1 by lia.
      by rewrite Nat.Div0.mod_add. }
    split.
    + unfold split_queue. rewrite Hge.
      rewrite (Hnew (take _ _)) by (rewrite Hlh; lia). simpl.
      by rewrite (Hnew (drop _ _)) by (rewrite Hlt; done || lia).
    + unfold FermatPath_add.
      destruct (lookup_lt_is_Some_2 path (length path - 3)) as [x Hx]; [lia|].
      rewrite (py_index_last _ x).
      2:{ rewrite last_lookup, Hlh, lookup_take_lt by lia.
          replace (pred (length path - 2)) with (length path - 3) by lia. done. }
      rewrite (py_index_nonneg _ 0 x).
      2:{ rewrite lookup_drop. by replace (length path - 3 + 0) with (length path - 3) by lia. }
      simpl. rewrite bool_decide_eq_false_2 by (intros Hne; by apply Hne).
      rewrite drop_drop.
      replace (length path - 3 + 1) with (length path - 2) by lia.
      rewrite take_drop. apply Hnew; lia.
  - exists (take 3 path), (drop 2 path).
    assert (length (take 3 path) = 3) as Hlh by (rewrite length_take; lia).
    assert (length (drop 2 path) = length path - 2) as Hlt
      by (rewrite length_drop; lia).
    assert (length path mod 2 = (length path - 2) mod 2) as Hm.
    { replace (length path) with ((length path - 2) + 1 * 2) at 1 by lia.
      by rewrite Nat.Div0.mod_add. }
    split.
    + unfold split_head. rewrite Hge.
      rewrite (Hnew (take _ _)) by (rewrite Hlh; done || lia). simpl.
      by rewrite (Hnew (drop _ _)) by (rewrite Hlt; lia).
    + unfold FermatPath_add.
      destruct (lookup_lt_is_Some_2 path 2) as [x Hx]; [lia|].
      rewrite (py_index_last _ x).
      2:{ rewrite last_lookup, Hlh. simpl. by rewrite lookup_take_lt by lia. }
      rewrite (py_index_nonneg _ 0 x).
      2:{ by rewrite lookup_drop. }
      simpl. rewrite bool_decide_eq_false_2 by (intros Hne; by apply Hne).
      rewrite drop_drop. simpl. rewrite take_drop. apply Hnew; lia.
Qed.


(** *** Results *)

Lemma bind_Ok {A B} (m : result A) (f : A → result B) (b : B) :
  m ≫= f = Ok b ↔ ∃ a, m = Ok a ∧ f a = Ok b.
Proof.
  destruct m as [a|e]; cbn; split.
  - eauto.
  - by intros (? & [= <-] & ?).
  - done.
  - by intros (? & ? & ?).
Qed.

Lemma fmap_Ok {A B} (m : result A) (f : A → B) (b : B) :
  f <$> m = Ok b ↔ ∃ a, m = Ok a ∧ b = f a.
Proof.
  destruct m as [a|e]; cbn; split.
  - intros [= <-]. eauto.
  - by intros (? & [= <-] & ->).
  - done.
  - by intros (? & ? & ?).
Qed.

Lemma py_assert_Ok (c : bool) (u : unit) : py_assert c = Ok u ↔ c = true.
Proof. destruct c, u; cbn; split; done. Qed.

Lemma raise_if_Ok (c : bool) (e : exn) (u : unit) : raise_if c e = Ok u ↔ c = false.
Proof. destruct c, u; cbn; split; done. Qed.

(** *** Arrays *)

Lemma length_bind_uniform {A} (f : nat → list A) (m : nat) :
  (∀ i, length (f i) = m) → ∀ n s, length (seq s n ≫= f) = n * m.
Proof.
  intros Hf. induction n as [|n IH]; intros s; [done|].
  cbn [seq]. rewrite bind_cons, length_app, Hf, IH. lia.
Qed.

Lemma lookup_bind_uniform {A} (f : nat → list A) (m : nat) :
  (∀ i, length (f i) = m) →
  ∀ n s i j, i < n → j < m → (seq s n ≫= f) !! (i * m + j) = f (s + i) !! j.
Proof.
  intros Hf. induction n as [|n IH]; intros s i j Hi Hj; [lia|].
  cbn [seq]. rewrite bind_cons. destruct i as [|i].
  - rewrite lookup_app_l by (rewrite Hf; lia). by rewrite Nat.add_0_r.
  - rewrite lookup_app_r by (rewrite Hf; lia). rewrite Hf.
    replace (S i * m + j - m) with (i * m + j) by lia.
    rewrite IH by lia. f_equal. f_equal. lia.
Qed.

Lemma length_repeat_arange n m : length (repeat_arange n m) = n * m.
Proof. apply length_bind_uniform. intros i. apply length_replicate. Qed.

Lemma length_tile_arange m n : length (tile_arange m n) = n * m.
Proof.
  apply length_bind_uniform. intros _. by rewrite length_fmap, length_seq.
Qed.

Lemma lookup_repeat_arange n m i j :
  i < n → j < m → repeat_arange n m !! (i * m + j) = Some (Z.of_nat i).
Proof.
  intros Hi Hj. unfold repeat_arange.
  rewrite (lookup_bind_uniform _ m) by (done || intros; apply length_replicate).
  by rewrite lookup_replicate_2.
Qed.

Lemma lookup_tile_arange m n i j :
  i < n → j < m → tile_arange m n !! (i * m + j) = Some (Z.of_nat j).
Proof.
  intros Hi Hj. unfold tile_arange.
  rewrite (lookup_bind_uniform _ m)
    by (done || intros; by rewrite length_fmap, length_seq).
  rewrite list_lookup_fmap, lookup_seq_lt by done. done.
Qed.

Lemma splice_app {A} (a b c v : list A) (pos : nat) :
  length a = pos → length v = length b →
  splice (a ++ b ++ c) pos v = a ++ v ++ c.
Proof.
  intros <- Hv. unfold splice.
  rewrite take_app_length. f_equal. f_equal.
  rewrite <- drop_drop, drop_app_length, Hv. by rewrite drop_app_length.
Qed.

(** An integer of the unsigned range is stored as it is. *)
Lemma astype_unsigned_small dt (k : nat) :
  kind dt = KindU → (Z.of_nat k < 2 ^ Z.of_nat (bits dt))%Z →
  astype dt (Z.of_nat k) = Z.of_nat k.
Proof.
  intros Hk Hlt. unfold astype. rewrite Hk. apply Z.mod_small. lia.
Qed.

(** *** Rays *)

(** The array [make_indices] builds: the ranks of the start points, the
    interior indices, the ranks of the end points. *)
Lemma make_indices_Ok (interior : iarray) dm2 n m :
  shape (iarr interior) = [dm2; n; m] → wf_array (iarr interior) →
  make_indices interior =
    Ok (IArray (idtype interior)
          (NDArray [dm2 + 2; n; m]
             ((astype (idtype interior) <$> repeat_arange n m) ++
              data (iarr interior) ++
              (astype (idtype interior) <$> tile_arange m n)))).
Proof.
  intros Hsh Hwf. unfold make_indices. rewrite Hsh.
  unfold wf_array in Hwf. rewrite Hsh in Hwf.
  unfold set_layers, np_zeros; cbn [idtype iarr shape data tail size_of_shape foldr].
  cbn [size_of_shape foldr] in Hwf.
  do 3 f_equal.
  set (L := n * (m * 1)) in *.
  set (A := astype (idtype interior) <$> repeat_arange n m).
  set (B := astype (idtype interior) <$> tile_arange m n).
  assert (length A = L) as HA
    by (unfold A, L; rewrite length_fmap, length_repeat_arange; lia).
  assert (length B = L) as HB
    by (unfold B, L; rewrite length_fmap, length_tile_arange; lia).
  replace ((dm2 + 2) * L) with (L + (dm2 * L + L)) by lia.
  rewrite !replicate_add.
  pose proof (splice_app [] (replicate L 0%Z)
                (replicate (dm2 * L) 0%Z ++ replicate L 0%Z) A 0 eq_refl) as E.
  cbn [app Nat.mul] in E |- *. rewrite E by (by rewrite length_replicate). clear E.
  pose proof (splice_app (A ++ replicate (dm2 * L) 0%Z) (replicate L 0%Z) [] B
                ((dm2 + 1) * L)) as E.
  rewrite !app_nil_r, <- !(app_assoc A) in E.
  rewrite E by (rewrite ?length_app, ?length_replicate; lia). clear E.
  replace (L + 0) with L by lia.
  rewrite (splice_app A (replicate (dm2 * L) 0%Z) B)
    by (rewrite ?length_replicate; lia).
  done.
Qed.

Lemma Rays_init_Ok self (times_in : ndarray F) (interior : iarray) path res :
  Rays_init self times_in interior path = Ok res →
  ∃ dm2 n m indices_out,
    shape times_in = [n; m] ∧ shape (iarr interior) = [dm2; n; m] ∧
    py_index (points path) 0 ≫= py_len = Ok n ∧
    py_index (points path) (-1) ≫= py_len = Ok m ∧
    num_points_sets path = dm2 + 2 ∧
    kind (idtype interior) = KindU ∧
    make_indices interior = Ok indices_out ∧
    res = MkRays self times_in indices_out path.
Proof.
  unfold Rays_init, ndim. intros Hinit.
  apply bind_Ok in Hinit as ([] & Ht%py_assert_Ok & Hinit).
  apply bind_Ok in Hinit as ([] & Hi%py_assert_Ok & Hinit).
  apply bind_Ok in Hinit as ([] & Hshapes & Hinit).
  apply bind_Ok in Hinit as (d & Hd & Hinit).
  apply bind_Ok in Hinit as ([] & Hnum%py_assert_Ok & Hinit).
  apply bind_Ok in Hinit as ([] & Hkind%raise_if_Ok & Hinit).
  apply bind_Ok in Hinit as (indices_out & Hmk & [= <-]).
  destruct (shape (iarr interior)) as [|dm2 [|n [|m [|]]]] eqn:Hsh; try done.
  cbv in Hd. injection Hd as <-.
  destruct (bool_decide_reflect (shape times_in = drop 1 [dm2; n; m])) as [Hts|Hts];
    [|done].
  apply bind_Ok in Hshapes as (first & Hfirst & Hshapes).
  apply bind_Ok in Hshapes as (n' & Hn & Hshapes).
  apply bind_Ok in Hshapes as (last & Hlast & Hshapes).
  apply bind_Ok in Hshapes as (m' & Hm & Hnm%py_assert_Ok).
  apply bool_decide_eq_true in Hnm. cbn in Hnm, Hts. injection Hnm as -> ->.
  exists dm2, n', m', indices_out. repeat split; try done.
  - rewrite Hfirst. cbn. by rewrite Hn.
  - rewrite Hlast. cbn. by rewrite Hm.
  - lia.
  - apply bool_decide_eq_false in Hkind.
    by destruct (kind (idtype interior)); [|destruct Hkind].
Qed.


(** C10. A successfully constructed [Rays(times, interior_indices, path)]
    is faithful to its arguments: its [times] is the array passed in, and
    its [interior_indices] ([indices[1:-1]]) is the array of interior
    indices passed in. *)
Theorem Rays_init_faithful self (times_in : ndarray F) (interior : iarray) path res :
  Rays_init self times_in interior path = Ok res →
  wf_array (iarr interior) →
  times res = times_in ∧ interior_indices res = interior.
Proof.
  intros Hinit Hwf.
  apply Rays_init_Ok in Hinit
    as (dm2 & n & m & indices_out & Ht & Hsh & _ & _ & _ & _ & Hmk & ->).
  split; [done|].
  rewrite (make_indices_Ok _ dm2 n m) in Hmk by done. injection Hmk as <-.
  unfold interior_indices, indices, get_layers.
  cbn [_indices iarr idtype shape data head from_option tail size_of_shape foldr].
  unfold id.
  replace (dm2 + 2 - 1) with (dm2 + 1) by lia.
  replace ((dm2 + 1) `min` (dm2 + 2)) with (dm2 + 1) by lia.
  replace (1 `min` (dm2 + 1)) with 1 by lia.
  replace (dm2 + 1 - 1) with dm2 by lia.
  rewrite drop_app_length'
    by (rewrite length_fmap, length_repeat_arange; lia).
  unfold wf_array in Hwf. rewrite Hsh in Hwf. cbn [size_of_shape foldr] in Hwf.
  rewrite take_app_length' by done.
  destruct interior as [dt [sh d]]; cbn in *. by subst.
Qed.

(** C6, amended. For a successfully constructed [Rays] over a path of [d]
    point-sets with [n] start points and [m] end points, none of them more
    than the dtype of the indices can number ([2^bits]),
    [indices[0, i, j] = i] and [indices[d - 1, i, j] = j] for all [i < n]
    and [j < m]. *)
Theorem indices_endpoints self (times_in : ndarray F) (interior : iarray) path res n m :
  Rays_init self times_in interior path = Ok res →
  wf_array (iarr interior) →
  py_index (points path) 0 ≫= py_len = Ok n →
  py_index (points path) (-1) ≫= py_len = Ok m →
  (Z.of_nat n ≤ 2 ^ Z.of_nat (bits (idtype (indices res))))%Z →
  (Z.of_nat m ≤ 2 ^ Z.of_nat (bits (idtype (indices res))))%Z →
  ∀ i j, i < n → j < m →
    getitem (iarr (indices res)) [0; i; j] = Some (Z.of_nat i) ∧
    getitem (iarr (indices res)) [num_points_sets path - 1; i; j] = Some (Z.of_nat j).
Proof.
  intros Hinit Hwf Hn Hm Hfn Hfm i j Hi Hj.
  apply Rays_init_Ok in Hinit
    as (dm2 & n' & m' & indices_out & Ht & Hsh & Hn' & Hm' & Hd & Hkind & Hmk & ->).
  rewrite Hn in Hn'. rewrite Hm in Hm'. injection Hn' as <-. injection Hm' as <-.
  rewrite (make_indices_Ok _ dm2 n m) in Hmk by done. injection Hmk as <-.
  unfold indices in *. cbn [_indices iarr idtype shape data] in *.
  rewrite Hd. replace (dm2 + 2 - 1) with (dm2 + 1) by lia.
  unfold wf_array in Hwf. rewrite Hsh in Hwf. cbn [size_of_shape foldr] in Hwf.
  assert (i * m + j < n * m) as Hpos by nia.
  unfold getitem, in_bounds.
  cbn [shape data length zip zip_with forallb fst snd ravel fold_left].
  rewrite !bool_decide_eq_true_2 by done.
  assert ((0 <? dm2 + 2) = true) as -> by lia.
  assert ((dm2 + 1 <? dm2 + 2) = true) as -> by lia.
  assert ((i <? n) = true) as -> by lia.
  assert ((j <? m) = true) as -> by lia.
  cbn [andb]. split.
  - replace (((0 * (dm2 + 2) + 0) * n + i) * m + j) with (i * m + j) by lia.
    rewrite lookup_app_l by (rewrite length_fmap, length_repeat_arange; lia).
    rewrite list_lookup_fmap, lookup_repeat_arange by done. cbn.
    f_equal. apply astype_unsigned_small; [done | lia].
  - replace (((0 * (dm2 + 2) + (dm2 + 1)) * n + i) * m + j)
      with (n * m + (dm2 * (n * (m * 1)) + (i * m + j))) by lia.
    rewrite lookup_app_r by (rewrite length_fmap, length_repeat_arange; lia).
    rewrite length_fmap, length_repeat_arange.
    rewrite lookup_app_r by lia.
    replace (n * m + (dm2 * (n * (m * 1)) + (i * m + j)) - n * m -
             length (data (iarr interior))) with (i * m + j) by lia.
    rewrite list_lookup_fmap, lookup_tile_arange by done. cbn.
    f_equal. apply astype_unsigned_small; [done | lia].
Qed.

(** C8. [expand_rays] on an empty array of interior indices, of shape
    [(0, n, m)], and an [n x p] array [indices_new_interface] returns
    [indices_new_interface] reshaped to [(1, n, p)]: same dtype, same
    values. *)
Theorem expand_rays_no_interior (interior new : iarray) n m p :
  shape (iarr interior) = [0; n; m] →
  shape (iarr new) = [n; p] →
  expand_rays interior new =
    Ok (IArray (idtype new) (NDArray [1; n; p] (data (iarr new)))).
Proof.
  intros Hi Hn. unfold expand_rays. rewrite Hi, Hn.
  rewrite bool_decide_eq_false_2 by (intros Hne; by apply Hne).
  cbn. unfold reshape. rewrite Hn.
  rewrite bool_decide_eq_true_2 by (cbn; lia). done.
Qed.


(** *** The solver: one step at a time *)

Lemma M_bind_Some {A B} (m : M A) (f : A → M B) st out st' :
  (m ≫= f) st = Some (out, st') ↔
  (∃ a st1, m st = Some (Ok a, st1) ∧ f a st1 = Some (out, st')) ∨
  (∃ e, m st = Some (Raise e, st') ∧ out = Raise e).
Proof.
  unfold mbind, M_bind. destruct (m st) as [[[a|e] st1]|]; split.
  - eauto.
  - intros [(? & ? & [= <- <-] & ?)|(? & [=] & _)]. done.
  - intros [= <- <-]. eauto.
  - intros [(? & ? & [=] & _)|(? & [= <- <-] & ->)]. done.
  - done.
  - intros [(? & ? & [=] & _)|(? & [=] & _)].
Qed.

Lemma M_bind_Ok {A B} (m : M A) (f : A → M B) st b st' :
  (m ≫= f) st = Some (Ok b, st') ↔
  ∃ a st1, m st = Some (Ok a, st1) ∧ f a st1 = Some (Ok b, st').
Proof.
  rewrite M_bind_Some. split; [|eauto].
  intros [?|(? & _ & [=])]. done.
Qed.

Lemma lookup_distance_eq points1 points2 st :
  lookup_distance points1 points2 st =
  match cached_distance st !! (points1, points2) with
  | Some distance => Some (Ok distance, st)
  | None =>
      Some (Ok (distance_pairwise points1 points2),
            set_cached_distance
              <[(points1, points2) := distance_pairwise points1 points2]>
              (set_num_euc_distance S st))
  end.
Proof.
  unfold lookup_distance, mbind, M_bind, gets. cbn.
  destruct (cached_distance st !! (points1, points2)); [done|].
  unfold modify. cbn.
  by rewrite bool_decide_eq_false_2 by (intros Hne; by apply Hne).
Qed.

Lemma points_consecutive (points1 points2 : Points) (speed : F) :
  points [Pts points1; Speed speed; Pts points2] = [Pts points1; Pts points2].
Proof. reflexivity. Qed.

Lemma make_rays_two_interfaces_eq (times_in : ndarray F) points1 speed points2 dt st :
  let path := [Pts points1; Speed speed; Pts points2] in
  make_rays_two_interfaces times_in path dt st =
  Some (Rays_init (next_id st) times_in
          (np_zeros [0; npoints points1; npoints points2] dt) path,
        set_next_id S st).
Proof. reflexivity. Qed.

Lemma consecutive_times_eq points1 speed points2 st :
  let path := [Pts points1; Speed speed; Pts points2] in
  consecutive_times path st =
  let d_st :=
    match cached_distance st !! (points1, points2) with
    | Some distance => (distance, st)
    | None =>
        (distance_pairwise points1 points2,
         set_cached_distance
           <[(points1, points2) := distance_pairwise points1 points2]>
           (set_num_euc_distance S st))
    end in
  Some (Rays_init (next_id d_st.2) (amap (λ x, fdiv x speed) d_st.1)
          (np_zeros [0; npoints points1; npoints points2] (dtype_indices d_st.2))
          path,
        set_next_id S d_st.2).
Proof.
  cbn zeta. unfold consecutive_times.
  unfold mbind at 1. unfold M_bind. rewrite lookup_distance_eq.
  destruct (cached_distance st !! (points1, points2)); reflexivity.
Qed.

Lemma Rays_init_intro self (times_in : ndarray F) (interior : iarray) path
    dm2 n m indices_out :
  shape times_in = [n; m] → shape (iarr interior) = [dm2; n; m] →
  py_index (points path) 0 ≫= py_len = Ok n →
  py_index (points path) (-1) ≫= py_len = Ok m →
  num_points_sets path = dm2 + 2 →
  kind (idtype interior) = KindU →
  make_indices interior = Ok indices_out →
  Rays_init self times_in interior path = Ok (MkRays self times_in indices_out path).
Proof.
  intros Ht Hi Hn Hm Hd Hk Hmk.
  apply bind_Ok in Hn as (first & Hfirst & Hn).
  apply bind_Ok in Hm as (last & Hlast & Hm).
  unfold Rays_init, ndim. rewrite Ht, Hi, Hfirst, Hlast, Hd, Hk, Hmk.
  cbn [length Nat.eqb py_assert mbind result_bind drop].
  rewrite (bool_decide_eq_true_2 ([n; m] = [n; m])) by done.
  cbn [mbind result_bind]. rewrite Hn. cbn [mbind result_bind]. rewrite Hm.
  cbn [mbind result_bind].
  rewrite (bool_decide_eq_true_2 ([n; m] = [n; m])) by done.
  change (py_index [dm2; n; m] 0) with (Ok (A:=nat) dm2).
  cbn [py_assert mbind result_bind]. rewrite Nat.eqb_refl.
  rewrite bool_decide_eq_false_2 by (intros Hne; by apply Hne).
  reflexivity.
Qed.

(** The [Rays] of two point-sets. *)
Lemma Rays_init_two self (times_in : ndarray F) points1 speed points2 dt :
  let path := [Pts points1; Speed speed; Pts points2] in
  let n := npoints points1 in
  let m := npoints points2 in
  shape times_in = [n; m] → kind dt = KindU →
  Rays_init self times_in (np_zeros [0; n; m] dt) path =
  Ok (MkRays self times_in
        (IArray dt (NDArray [2; n; m]
           ((astype dt <$> repeat_arange n m) ++ (astype dt <$> tile_arange m n))))
        path).
Proof.
  intros path n m Hsh Hk.
  apply (Rays_init_intro _ _ _ _ 0 n m); try done.
  by rewrite (make_indices_Ok _ 0 n m).
Qed.


(** *** The base case *)

Lemma getitem_amap {A B} (f : A → B) (a : ndarray A) idx :
  getitem (amap f a) idx = f <$> getitem a idx.
Proof.
  unfold getitem, amap. cbn [shape data].
  destruct (in_bounds (shape a) idx); [|done]. apply list_lookup_fmap.
Qed.

(** What a successful [consecutive_times] returns and leaves behind. *)
Lemma consecutive_times_Ok points1 speed points2 st res st' :
  consecutive_times [Pts points1; Speed speed; Pts points2] st = Some (Ok res, st') →
  ∃ distance,
    cached_distance st' !! (points1, points2) = Some distance ∧
    (cached_distance st !! (points1, points2) = Some distance ∨
     cached_distance st !! (points1, points2) = None ∧
     distance = distance_pairwise points1 points2) ∧
    times res = amap (λ x, fdiv x speed) distance ∧
    fermat_path res = [Pts points1; Speed speed; Pts points2] ∧
    rays_id res = next_id st ∧
    next_id st' = S (next_id st) ∧
    dtype_indices st' = dtype_indices st ∧
    cached_result st' = cached_result st.
Proof.
  rewrite consecutive_times_eq. cbn zeta. intros [= Hinit <-].
  destruct (cached_distance st !! (points1, points2)) as [distance|] eqn:Hc;
    cbn [fst snd] in Hinit;
    apply Rays_init_Ok in Hinit as (? & ? & ? & ? & _ & _ & _ & _ & _ & _ & _ & ->).
  - exists distance. cbn. rewrite Hc. eauto 10.
  - exists (distance_pairwise points1 points2). cbn.
    rewrite lookup_insert_eq. eauto 10.
Qed.

(** C7. For a path of two point-sets (start, speed, end) solved by the
    base case, in a solver whose cache of distances holds results of
    [distance_pairwise], the times are the distances divided by the speed:
    [times[i, j] = distance_pairwise(start, end)[i, j] / speed]. *)
Theorem consecutive_times_distance_over_speed points1 speed points2 st res st' :
  distance_cache_inv st →
  consecutive_times [Pts points1; Speed speed; Pts points2] st = Some (Ok res, st') →
  times res = amap (λ x, fdiv x speed) (distance_pairwise points1 points2) ∧
  ∀ i j, getitem (times res) [i; j] =
         (λ x, fdiv x speed) <$> getitem (distance_pairwise points1 points2) [i; j].
Proof.
  intros Hinv Hrun.
  apply consecutive_times_Ok in Hrun as (distance & _ & Hd & Ht & _).
  assert (distance = distance_pairwise points1 points2) as ->.
  { destruct Hd as [Hd|[_ Hd]]; [by apply Hinv in Hd | done]. }
  split; [done|]. intros i j. rewrite Ht. apply getitem_amap.
Qed.

(** The base case returns, in a solver with an unsigned dtype of
    indices. *)
Lemma consecutive_times_returns points1 speed points2 st :
  distance_pairwise_contract → distance_cache_inv st →
  kind (dtype_indices st) = KindU →
  ∃ res st', consecutive_times [Pts points1; Speed speed; Pts points2] st
             = Some (Ok res, st').
Proof.
  intros Hdist Hinv Hk. rewrite consecutive_times_eq. cbn zeta.
  destruct (cached_distance st !! (points1, points2)) as [distance|] eqn:Hc;
    cbn [fst snd].
  - apply Hinv in Hc as ->.
    rewrite Rays_init_two; [eauto | apply Hdist | done].
  - rewrite Rays_init_two; [eauto | apply Hdist | done].
Qed.

(** The distance is stored under the key [(points1, points2)] alone: what
    the cache holds under the swapped key is what it held before. *)
Lemma consecutive_times_swapped_key points1 speed points2 st out st' :
  points1 ≠ points2 →
  consecutive_times [Pts points1; Speed speed; Pts points2] st = Some (out, st') →
  cached_distance st' !! (points2, points1) = cached_distance st !! (points2, points1).
Proof.
  intros Hne. rewrite consecutive_times_eq. cbn zeta. intros [= _ <-].
  destruct (cached_distance st !! (points1, points2)); cbn; [done|].
  apply lookup_insert_ne. congruence.
Qed.


(** *** The recursion *)

Lemma _solve_fuel_eq fuel path st :
  _solve_fuel (S fuel) path st =
  match cached_result st !! path with
  | Some res => Some (Ok res, st)
  | None =>
      if length path =? 3
      then consecutive_times path st
      else
        (ht ← lift (split_queue path);
         res_head ← _solve_fuel fuel ht.1;
         res_tail ← _solve_fuel fuel ht.2;
         _ ← modify (set_num_minimization S);
         dt ← gets dtype_indices;
         ti ← lift (find_minimum_times (times res_head) (times res_tail) dt);
         _ ← lift (py_assert (num_points_sets (fermat_path res_tail) =? 2));
         indices ← lift (expand_rays (interior_indices res_head) ti.2);
         res ← Rays_new ti.1 indices path;
         _ ← modify (set_cached_result <[path := res]>);
         mret res) st
  end.
Proof.
  cbn [_solve_fuel]. unfold mbind at 1. unfold M_bind, gets.
  destruct (cached_result st !! path); [reflexivity|].
  by destruct (length path =? 3).
Qed.

Lemma split_queue_Ok (path head tail : FermatPath) :
  split_queue path = Ok (head, tail) →
  5 ≤ length path ∧
  head = take (length path - 2) path ∧ tail = drop (length path - 3) path.
Proof.
  unfold split_queue. destruct (length path <? 5) eqn:Hlen; [done|].
  intros Hs.
  apply bind_Ok in Hs as (h & Hh%FermatPath_new_Ok & Hs).
  apply bind_Ok in Hs as (t & Ht%FermatPath_new_Ok & [= <- <-]).
  split; [lia|]. by destruct Hh as [-> _], Ht as [-> _].
Qed.

(** A call of [consecutive_times] on a path of three elements that are
    not two point-sets around a speed raises and changes nothing. *)
Lemma consecutive_times_cases (path : FermatPath) st out st' :
  length path = 3 →
  consecutive_times path st = Some (out, st') →
  (∃ points1 speed points2, path = [Pts points1; Speed speed; Pts points2]) ∨
  (st' = st ∧ ∃ e, out = Raise e).
Proof.
  intros Hlen Hrun.
  destruct path as [|[p1|v1] [|[p2|v2] [|[p3|v3] [|]]]]; try done;
    try (right; injection Hrun as <- <-; by eauto).
  left. eauto.
Qed.

(** A call of [consecutive_times] keeps the caches sound. *)
Lemma consecutive_times_inv (path : FermatPath) st out st' :
  length path = 3 →
  cache_inv st →
  consecutive_times path st = Some (out, st') →
  cache_inv st' ∧ dtype_indices st' = dtype_indices st ∧
  ∀ res, out = Ok res →
    solves (dtype_indices st) path (times res) ∧ fermat_path res = path.
Proof.
  intros Hlen [Hdist Hres] Hrun.
  destruct (consecutive_times_cases _ _ _ _ Hlen Hrun)
    as [(points1 & speed & points2 & ->)|(-> & e & ->)]; [|done].
  assert (cache_inv st' ∧ dtype_indices st' = dtype_indices st) as [Hinv' Hdt].
  { revert Hrun. rewrite consecutive_times_eq. cbn zeta. intros [= _ <-].
    destruct (cached_distance st !! (points1, points2)) eqn:Hc; cbn [fst snd].
    - done.
    - repeat split; [|done].
      intros a b d. cbn.
      destruct (decide ((points1, points2) = (a, b))) as [[= <- <-]|Hne].
      + rewrite lookup_insert_eq. congruence.
      + rewrite lookup_insert_ne by done. apply Hdist. }
  split; [done|]. split; [done|]. intros res ->. split.
  - pose proof (consecutive_times_distance_over_speed _ _ _ _ _ _ Hdist Hrun)
      as [-> _].
    constructor.
  - by apply consecutive_times_Ok in Hrun as (? & _ & _ & _ & ? & _).
Qed.


(** Inversion of a successful run of the general case of [_solve]. *)
Lemma _solve_split_Ok fuel path st res st' :
  cached_result st !! path = None → length path ≠ 3 →
  _solve_fuel (S fuel) path st = Some (Ok res, st') →
  ∃ head tail res_head st1 res_tail st2 ti indices_in,
    split_queue path = Ok (head, tail) ∧
    _solve_fuel fuel head st = Some (Ok res_head, st1) ∧
    _solve_fuel fuel tail st1 = Some (Ok res_tail, st2) ∧
    find_minimum_times (times res_head) (times res_tail) (dtype_indices st2) = Ok ti ∧
    expand_rays (interior_indices res_head) ti.2 = Ok indices_in ∧
    Rays_init (next_id st2) ti.1 indices_in path = Ok res ∧
    st' = set_cached_result <[path := res]>
            (set_next_id S (set_num_minimization S st2)).
Proof.
  intros Hmiss Hlen. rewrite _solve_fuel_eq, Hmiss.
  assert ((length path =? 3) = false) as -> by lia.
  intros Hrun.
  apply M_bind_Ok in Hrun as ([head tail] & ? & [= Hsplit <-] & Hrun).
  apply M_bind_Ok in Hrun as (res_head & st1 & Hhead & Hrun).
  apply M_bind_Ok in Hrun as (res_tail & st2 & Htail & Hrun).
  apply M_bind_Ok in Hrun as ([] & ? & [= <-] & Hrun).
  apply M_bind_Ok in Hrun as (dt & ? & [= <- <-] & Hrun).
  apply M_bind_Ok in Hrun as (ti & ? & [= Hfmt <-] & Hrun).
  apply M_bind_Ok in Hrun as ([] & ? & [= Hassert <-] & Hrun).
  apply M_bind_Ok in Hrun as (indices_in & ? & [= Hexp <-] & Hrun).
  apply M_bind_Ok in Hrun as (res' & ? & Hnew & Hrun).
  apply M_bind_Ok in Hrun as ([] & ? & [= <-] & [= <- <-]).
  unfold Rays_new in Hnew.
  apply M_bind_Ok in Hnew as (self & ? & [= <- <-] & Hnew).
  apply M_bind_Ok in Hnew as ([] & ? & [= <-] & [= Hinit <-]).
  exists head, tail, res_head, st1, res_tail, st2, ti, indices_in.
  done.
Qed.

(** [_solve] keeps the caches sound, never changes the dtype of indices,
    and returns the times its recursion defines. *)
Lemma _solve_fuel_sound fuel :
  ∀ path st out st',
    cache_inv st →
    _solve_fuel fuel path st = Some (out, st') →
    cache_inv st' ∧ dtype_indices st' = dtype_indices st ∧
    ∀ res, out = Ok res → solves (dtype_indices st) path (times res).
Proof.
  induction fuel as [|fuel IH]; intros path st out st' Hinv Hrun; [done|].
  rewrite _solve_fuel_eq in Hrun.
  destruct (cached_result st !! path) as [cached|] eqn:Hc.
  { injection Hrun as <- <-. split; [done|]. split; [done|].
    intros res [= <-]. by apply Hinv. }
  destruct (length path =? 3) eqn:Hlen.
  { apply Nat.eqb_eq in Hlen.
    destruct (consecutive_times_inv _ _ _ _ Hlen Hinv Hrun) as (? & ? & Hres).
    split; [done|]. split; [done|]. intros res Hout. by destruct (Hres _ Hout). }
  apply Nat.eqb_neq in Hlen.
  apply M_bind_Some in Hrun
    as [([head tail] & ? & [= Hsplit <-] & Hrun)|(e & [= _ ->] & ->)]; [|done].
  apply M_bind_Some in Hrun as [(res_head & st1 & Hhead & Hrun)|(e & Hhead & ->)].
  2:{ destruct (IH _ _ _ _ Hinv Hhead) as (? & ? & _). done. }
  destruct (IH _ _ _ _ Hinv Hhead) as (Hinv1 & Hdt1 & Hsh).
  specialize (Hsh _ eq_refl).
  apply M_bind_Some in Hrun as [(res_tail & st2 & Htail & Hrun)|(e & Htail & ->)].
  2:{ destruct (IH _ _ _ _ Hinv1 Htail) as (? & ? & _).
      split; [done|]. split; [congruence|done]. }
  destruct (IH _ _ _ _ Hinv1 Htail) as (Hinv2 & Hdt2 & Hst).
  specialize (Hst _ eq_refl). rewrite Hdt1 in Hst.
  assert (dtype_indices st2 = dtype_indices st) as Hdt by congruence.
  assert (∀ f g, cache_inv (set_next_id f (set_num_minimization g st2))) as Hinv3
    by (intros; apply Hinv2).
  apply M_bind_Some in Hrun as [([] & ? & [= <-] & Hrun)|(e & [=] & _)].
  apply M_bind_Some in Hrun as [(dt & ? & [= <- <-] & Hrun)|(e & [=] & _)].
  apply M_bind_Some in Hrun as [(ti & ? & [= Hfmt <-] & Hrun)|(e & [= _ <-] & ->)].
  2:{ split; [apply Hinv3 || apply Hinv2|]. by split. }
  apply M_bind_Some in Hrun as [([] & ? & [= _ <-] & Hrun)|(e & [= _ <-] & ->)].
  2:{ split; [apply Hinv3 || apply Hinv2|]. by split. }
  apply M_bind_Some in Hrun
    as [(indices_in & ? & [= Hexp <-] & Hrun)|(e & [= _ <-] & ->)].
  2:{ split; [apply Hinv3 || apply Hinv2|]. by split. }
  unfold Rays_new in Hrun.
  apply M_bind_Some in Hrun as [(res & st4 & Hnew & Hrun)|(e & Hnew & ->)].
  2:{ apply M_bind_Some in Hnew as [(self & ? & [= <- <-] & Hnew)|(? & [=] & _)].
      apply M_bind_Some in Hnew as [([] & ? & [= <-] & [= _ <-])|(? & [=] & _)].
      split; [apply Hinv3 || apply Hinv2|]. by split. }
  apply M_bind_Some in Hnew as [(self & ? & [= <- <-] & Hnew)|(? & [=] & _)].
  apply M_bind_Some in Hnew as [([] & ? & [= <-] & [= Hinit <-])|(? & [=] & _)].
  apply M_bind_Some in Hrun as [([] & ? & [= <-] & [= <- <-])|(? & [=] & _)].
  apply Rays_init_Ok in Hinit as (? & ? & ? & ? & _ & _ & _ & _ & _ & _ & _ & ->).
  assert (solves (dtype_indices st) path ti.1) as Hsolves.
  { cbn in Hfmt. rewrite Hdt in Hfmt. by eapply solves_split. }
  split; [|split; [done|by intros ? [= <-]]].
  split; [apply Hinv2|].
  intros path' res'. cbn.
  destruct (decide (path = path')) as [<-|Hne].
  - rewrite lookup_insert_eq. intros [= <-]. cbn. by rewrite Hdt.
  - rewrite lookup_insert_ne by done. apply Hinv2.
Qed.


Lemma _solve_sound path st out st' :
  cache_inv st →
  _solve path st = Some (out, st') →
  cache_inv st' ∧ dtype_indices st' = dtype_indices st ∧
  ∀ res, out = Ok res → solves (dtype_indices st) path (times res).
Proof. apply _solve_fuel_sound. Qed.

(** [_solve] returns or raises: the bound on the recursion is never
    reached. *)
Lemma _solve_fuel_enough fuel :
  ∀ path st, length path ≤ fuel → 0 < fuel → is_Some (_solve_fuel fuel path st).
Proof.
  induction fuel as [|fuel IH]; intros path st Hlen Hpos; [lia|].
  rewrite _solve_fuel_eq.
  destruct (cached_result st !! path); [done|].
  destruct (length path =? 3) eqn:Hl.
  { destruct path as [|[p1|v1] [|[p2|v2] [|[p3|v3] [|]]]]; try done.
    rewrite consecutive_times_eq. done. }
  unfold mbind at 1. unfold M_bind, lift at 1.
  destruct (split_queue path) as [[head tail]|e] eqn:Hsplit; [|done].
  apply split_queue_Ok in Hsplit as (Hge & -> & ->). cbn [fst snd].
  unfold mbind at 1. unfold M_bind.
  destruct (IH (take (length path - 2) path) st) as [[[rh|e] st1] ->];
    [rewrite length_take; lia | lia | | done].
  unfold mbind at 1. unfold M_bind.
  destruct (IH (drop (length path - 3) path) st1) as [[[rt|e] st2] ->];
    [rewrite length_drop; lia | lia | | done].
  unfold mbind, M_bind, modify, gets, lift, Rays_new, mret, M_ret.
  repeat case_match; done.
Qed.

Lemma _solve_returns path st : is_Some (_solve path st).
Proof. apply _solve_fuel_enough; lia. Qed.

Lemma solves_three dt points1 speed points2 t :
  solves dt [Pts points1; Speed speed; Pts points2] t →
  t = amap (λ x, fdiv x speed) (distance_pairwise points1 points2).
Proof. inversion 1; [done | by subst]. Qed.

Lemma wf_array_amap {A B} (f : A → B) (a : ndarray A) :
  wf_array a → wf_array (amap f a).
Proof. unfold wf_array, amap. cbn. by rewrite length_fmap. Qed.

(** C1. For a path of five elements solved by [_solve], with
    [find_minimum_times] and [distance_pairwise] meeting their contracts
    and sound caches, the returned [times[i, j]] is the minimum over the
    intermediate points [k] of [head.times[i, k] + tail.times[k, j]], where
    [head] and [tail] are the [Rays] the solver returns for the two
    sub-paths of three elements. *)
Theorem solve_two_gaps_minimum points1 speed1 points2 speed2 points3
    st res st' st_head res_head st_head' st_tail res_tail st_tail' :
  find_minimum_times_contract → distance_pairwise_contract →
  cache_inv st → cache_inv st_head → cache_inv st_tail →
  _solve [Pts points1; Speed speed1; Pts points2; Speed speed2; Pts points3] st
    = Some (Ok res, st') →
  _solve [Pts points1; Speed speed1; Pts points2] st_head
    = Some (Ok res_head, st_head') →
  _solve [Pts points2; Speed speed2; Pts points3] st_tail
    = Some (Ok res_tail, st_tail') →
  ∀ i j, i < npoints points1 → j < npoints points3 →
    ∃ v, getitem (times res) [i; j] = Some v ∧
         minimum_over (sum_at (times res_head) (times res_tail) i j)
           (npoints points2) v.
Proof.
  intros Hfmt Hdist Hinv Hinv_h Hinv_t Hrun Hrun_h Hrun_t i j Hi Hj.
  destruct (_solve_sound _ _ _ _ Hinv Hrun) as (_ & _ & Hs).
  destruct (_solve_sound _ _ _ _ Hinv_h Hrun_h) as (_ & _ & Hs_h).
  destruct (_solve_sound _ _ _ _ Hinv_t Hrun_t) as (_ & _ & Hs_t).
  specialize (Hs _ eq_refl). specialize (Hs_h _ eq_refl). specialize (Hs_t _ eq_refl).
  apply solves_three in Hs_h, Hs_t.
  inversion Hs as [|? head tail th tt ti _ Hsplit Hh Ht Hmin Hpath Hti].
  injection Hsplit as <- <-.
  apply solves_three in Hh, Ht. subst th tt. rewrite <- Hs_h, <- Hs_t in Hmin.
  destruct (Hdist points1 points2) as [Hsh12 Hwf12].
  destruct (Hdist points2 points3) as [Hsh23 Hwf23].
  destruct (Hfmt (times res_head) (times res_tail) (dtype_indices st)
              (npoints points1) (npoints points2) (npoints points3))
    as (t & idx & Hmin' & _ & _ & _ & _ & _ & Hcontract).
  - rewrite Hs_h. by apply wf_array_amap.
  - rewrite Hs_t. by apply wf_array_amap.
  - by rewrite Hs_h.
  - by rewrite Hs_t.
  - rewrite Hmin' in Hmin. injection Hmin as <-. cbn [fst].
    destruct (Hcontract i j Hi Hj) as (v & Hv & Hminimum & _). eauto.
Qed.


(** *** Solving twice *)

Lemma Rays_init_self self self' (times_in : ndarray F) interior path res :
  Rays_init self times_in interior path = Ok res →
  Rays_init self' times_in interior path =
    Ok (MkRays self' (times res) (indices res) (fermat_path res)).
Proof.
  intros Hinit.
  apply Rays_init_Ok in Hinit as (dm2 & n & m & io & ? & ? & ? & ? & ? & ? & ? & ->).
  by apply (Rays_init_intro _ _ _ _ dm2 n m).
Qed.

(** C2, amended. When [_solve] has returned a [Rays] for a path, a second
    call on the solver it left behind
    - for a path of at least 5 elements, returns the very same object (same
      identity, same arrays) and changes nothing in the solver: no
      minimization, no distance is computed;
    - for a path of 3 elements, returns a [Rays] with the same times, indices
      and path, computes no distance and no minimization, and leaves both
      caches as they were. *)
Theorem solve_twice path st res st' :
  _solve path st = Some (Ok res, st') →
  (5 ≤ length path → _solve path st' = Some (Ok res, st')) ∧
  (length path = 3 →
   ∃ res2 st2,
     _solve path st' = Some (Ok res2, st2) ∧
     times res2 = times res ∧ indices res2 = indices res ∧
     fermat_path res2 = fermat_path res ∧
     cached_distance st2 = cached_distance st' ∧
     cached_result st2 = cached_result st' ∧
     num_euc_distance st2 = num_euc_distance st' ∧
     num_minimization st2 = num_minimization st').
Proof.
  unfold _solve. intros Hrun.
  destruct (cached_result st !! path) as [cached|] eqn:Hc.
  { (* the first call was already a cache hit *)
    rewrite _solve_fuel_eq, Hc in Hrun. injection Hrun as <- <-.
    rewrite _solve_fuel_eq, Hc. split; [done|]. intros _.
    exists cached, st. done. }
  split.
  - intros Hlen.
    apply _solve_split_Ok in Hrun
      as (? & ? & ? & ? & ? & st2 & ? & ? & _ & _ & _ & _ & _ & _ & ->);
      [|done|lia].
    rewrite _solve_fuel_eq. cbn. by rewrite lookup_insert_eq.
  - intros Hlen.
    rewrite _solve_fuel_eq, Hc, Hlen in Hrun. cbn [Nat.eqb] in Hrun.
    destruct (consecutive_times_cases _ _ _ _ Hlen Hrun)
      as [(points1 & speed & points2 & ->)|(_ & e & [=])].
    pose proof (consecutive_times_Ok _ _ _ _ _ _ Hrun)
      as (distance & Hd' & _ & Ht & _ & _ & _ & Hdt & Hres).
    rewrite consecutive_times_eq in Hrun. cbn zeta in Hrun.
    injection Hrun as Hinit Hst'.
    assert (Rays_init (next_id st') (amap (λ x, fdiv x speed) distance)
              (np_zeros [0; npoints points1; npoints points2] (dtype_indices st'))
              [Pts points1; Speed speed; Pts points2]
            = Ok (MkRays (next_id st') (times res) (indices res) (fermat_path res)))
      as Hinit'.
    { apply Rays_init_self with (next_id st). rewrite Hdt.
      rewrite <- Hinit. clear Hinit.
      destruct (cached_distance st !! (points1, points2)) as [d|] eqn:Hcd;
        cbn [fst snd] in *.
      - subst st'. cbn in Hd'. rewrite Hcd in Hd'. by injection Hd' as <-.
      - subst st'. cbn in Hd'. rewrite lookup_insert_eq in Hd'.
        by injection Hd' as <-. }
    rewrite _solve_fuel_eq, Hres, Hc. cbn [length Nat.eqb].
    rewrite consecutive_times_eq. cbn zeta. rewrite Hd'. cbn [fst snd].
    rewrite Hinit'. eexists _, _. split; [reflexivity|]. done.
Qed.


(** *** Generators *)

Lemma gen_for_lookup {I A} (body : I → result A) (l : list I) k item :
  (gen_for body l).1 !! k = Some item →
  ∃ x, l !! k = Some x ∧ body x = Ok item.
Proof.
  revert k. induction l as [|x l IH]; intros k; cbn; [done|].
  destruct (body x) as [a|e] eqn:Hx; cbn; [|done].
  destruct k as [|k]; cbn.
  - intros [= <-]. eauto.
  - apply IH.
Qed.

Lemma gen_for_complete {I A} (body : I → result A) (l : list I) :
  (gen_for body l).2 = None → length (gen_for body l).1 = length l.
Proof.
  induction l as [|x l IH]; cbn; [done|].
  destruct (body x); cbn; [|done]. intros Hend. by rewrite IH.
Qed.

Lemma gen_then_lookup_l {A} (g1 g2 : generator A) k item :
  (gen_then g1 g2).1 !! k = Some item →
  (g1.2 = None → k < length g1.1) →
  g1.1 !! k = Some item.
Proof.
  unfold gen_then. destruct (g1.2); [done|]. cbn.
  intros Hk Hlt. by rewrite lookup_app_l in Hk by auto.
Qed.

(** *** Arrays of indices, layer by layer *)

Lemma mapM_result_Ok {A B} (f : A → result B) (l : list A) (l' : list B) :
  mapM_result f l = Ok l' →
  length l' = length l ∧
  ∀ k x, l !! k = Some x → ∃ y, f x = Ok y ∧ l' !! k = Some y.
Proof.
  revert l'. induction l as [|x l IH]; intros l'; cbn.
  - intros [= <-]. done.
  - intros Hm. apply bind_Ok in Hm as (y & Hy & Hm).
    apply bind_Ok in Hm as (ys & Hys & [= <-]).
    destruct (IH _ Hys) as [Hlen Hl]. split; [cbn; by rewrite Hlen|].
    intros [|k] x'; cbn; [intros [= <-]; eauto | apply Hl].
Qed.

Lemma np_take_Ok {A} (l : list A) (idx : ndarray Z) (a : ndarray A) :
  np_take l idx = Ok a →
  shape a = shape idx ∧
  ∀ k z, data idx !! k = Some z → ∃ y, py_index l z = Ok y ∧ data a !! k = Some y.
Proof.
  unfold np_take. intros (d & Hm & ->)%fmap_Ok.
  split; [done|]. by apply mapM_result_Ok in Hm as [_ Hm].
Qed.

Lemma getitem_2 {A} (a : ndarray A) n m i j :
  shape a = [n; m] → i < n → j < m → getitem a [i; j] = data a !! (i * m + j).
Proof.
  intros Hsh Hi Hj. unfold getitem, in_bounds. rewrite Hsh.
  cbn [shape data length zip zip_with forallb fst snd ravel fold_left].
  rewrite bool_decide_eq_true_2 by done.
  assert ((i <? n) = true) as -> by lia. assert ((j <? m) = true) as -> by lia.
  cbn [andb]. f_equal.
Qed.

Lemma getitem_3 {A} (a : ndarray A) d n m k i j :
  shape a = [d; n; m] → k < d → i < n → j < m →
  getitem a [k; i; j] = data a !! (k * (n * (m * 1)) + (i * m + j)).
Proof.
  intros Hsh Hk Hi Hj. unfold getitem, in_bounds. rewrite Hsh.
  cbn [shape data length zip zip_with forallb fst snd ravel fold_left].
  rewrite bool_decide_eq_true_2 by done.
  assert ((k <? d) = true) as -> by lia.
  assert ((i <? n) = true) as -> by lia. assert ((j <? m) = true) as -> by lia.
  cbn [andb]. f_equal. lia.
Qed.

Lemma get_layer_Ok {A} (a : ndarray A) d n m k layer :
  shape a = [d; n; m] → get_layer a k = Ok layer →
  k < d ∧ shape layer = [n; m] ∧
  ∀ i j, i < n → j < m → data layer !! (i * m + j) = getitem a [k; i; j].
Proof.
  intros Hsh. unfold get_layer. rewrite Hsh.
  destruct (k <? d) eqn:Hk; [|done]. intros [= <-].
  split; [lia|]. split; [done|]. intros i j Hi Hj.
  rewrite (getitem_3 _ d n m) by (done || lia). cbn [data size_of_shape foldr].
  rewrite lookup_take_lt by nia. by rewrite lookup_drop.
Qed.

(** An array that has as many elements as its shape says has one at every
    position within its shape. *)
Lemma getitem_3_is_Some {A} (a : ndarray A) d n m k i j :
  shape a = [d; n; m] → wf_array a → k < d → i < n → j < m →
  is_Some (getitem a [k; i; j]).
Proof.
  intros Hsh Hwf Hk Hi Hj. rewrite (getitem_3 _ d n m) by done.
  apply lookup_lt_is_Some_2. unfold wf_array in Hwf. rewrite Hwf, Hsh. cbn.
  replace (m * 1) with m by lia.
  assert (i * m + j < n * m) by nia.
  assert (k * (n * m) + n * m ≤ d * (n * m)) by nia.
  lia.
Qed.


(** *** Angles and lengths of the legs *)

(** The arrays a successful run of the loop body builds: angles and
    lengths of the legs of all the rays. Without [return_distances] the
    item yielded is the array of the lengths. *)
Lemma leg_angles_Ok self interface other interface_idx other_idx flag
    return_distances item d n m :
  shape (iarr (indices self)) = [d; n; m] →
  wf_array (iarr (indices self)) →
  leg_angles self interface other interface_idx other_idx flag return_distances
    = Ok item →
  ∃ alpha distances,
    item = (if return_distances then ItemPair (Some alpha) (Some distances)
            else Item (Some distances)) ∧
    shape alpha = [n; m] ∧ shape distances = [n; m] ∧
    ∀ i j, i < n → j < m →
      ∃ leg, leg_spherical self interface other interface_idx other_idx i j = Some leg ∧
             getitem alpha [i; j] = Some (leg_angle flag leg) ∧
             getitem distances [i; j] = Some (r leg).
Proof.
  intros Hsh Hwf. unfold leg_angles. intros Hrun.
  apply bind_Ok in Hrun as (here & Hhere & Hrun).
  apply bind_Ok in Hrun as (leg_origins & Horigins & Hrun).
  apply bind_Ok in Hrun as (there & Hthere & Hrun).
  apply bind_Ok in Hrun as (leg_ends & Hends & Hrun).
  apply bind_Ok in Hrun as (here' & Hhere' & Hrun).
  apply bind_Ok in Hrun as (orients & Horients & [= <-]).
  rewrite Hhere in Hhere'. injection Hhere' as <-.
  destruct (get_layer_Ok _ _ _ _ _ _ Hsh Hhere) as (Hk & Hsh_here & Hdata_here).
  destruct (get_layer_Ok _ _ _ _ _ _ Hsh Hthere) as (Hk' & Hsh_there & Hdata_there).
  destruct (np_take_Ok _ _ _ Horigins) as [_ Horigins'].
  destruct (np_take_Ok _ _ _ Hends) as [Hsh_ends Hends'].
  destruct (np_take_Ok _ _ _ Horients) as [_ Horients'].
  eexists _, _. split; [reflexivity|].
  split; [by destruct flag; cbn; rewrite Hsh_ends|].
  split; [by cbn; rewrite Hsh_ends|].
  intros i j Hi Hj.
  destruct (getitem_3_is_Some _ d n m interface_idx i j Hsh Hwf Hk Hi Hj) as [a Ha].
  destruct (getitem_3_is_Some _ d n m other_idx i j Hsh Hwf Hk' Hi Hj) as [b Hb].
  destruct (Horigins' (i * m + j) a) as (origin & Horigin & Horigin_at);
    [by rewrite Hdata_here|].
  destruct (Hends' (i * m + j) b) as (end_ & Hend & Hend_at);
    [by rewrite Hdata_there|].
  destruct (Horients' (i * m + j) a) as (orient & Horient & Horient_at);
    [by rewrite Hdata_here|].
  eexists. split.
  { unfold leg_spherical. rewrite Ha, Hb. cbn.
    rewrite Horigin, Hend, Horient. cbn. reflexivity. }
  split.
  - rewrite (getitem_2 _ n m) by (destruct flag; cbn; by rewrite ?Hsh_ends).
    destruct flag; cbn; rewrite !list_lookup_fmap, !lookup_zip_with,
      Hend_at, Horigin_at; cbn; rewrite Horient_at; reflexivity.
  - rewrite (getitem_2 _ n m) by (cbn; by rewrite ?Hsh_ends).
    cbn. rewrite !list_lookup_fmap, !lookup_zip_with, Hend_at, Horigin_at.
    cbn. rewrite Horient_at. reflexivity.
Qed.

(** The item the outgoing generator yields at a rank below the last is the
    one the loop body returns for that rank. *)
Lemma get_outgoing_angles_lookup self interfaces return_distances k item :
  k + 1 < length interfaces →
  (get_outgoing_angles self interfaces return_distances).1 !! k = Some item →
  outgoing_body self interfaces return_distances k = Ok item.
Proof.
  intros Hk Hitem. unfold get_outgoing_angles in Hitem.
  apply gen_then_lookup_l in Hitem.
  2:{ intros Hend. rewrite gen_for_complete, length_seq by done. lia. }
  apply gen_for_lookup in Hitem as (x & Hx & Hbody).
  apply lookup_seq in Hx as [-> _]. done.
Qed.

(** The item the incoming generator yields at a rank above the first is
    the one the loop body returns for that rank. *)
Lemma get_incoming_angles_lookup self interfaces return_distances k item :
  0 < k →
  (get_incoming_angles self interfaces return_distances).1 !! k = Some item →
  incoming_body self interfaces return_distances k = Ok item.
Proof.
  intros Hk Hitem. unfold get_incoming_angles, gen_then in Hitem.
  cbn [fst snd] in Hitem. destruct k as [|k]; [lia|]. cbn in Hitem.
  apply gen_for_lookup in Hitem as (x & Hx & Hbody).
  apply lookup_seq in Hx as [-> _]. done.
Qed.

(** C4, amended. With [return_distances] set, for an interface that
    declares the side of its normals and is followed (outgoing) or preceded
    (incoming) by another interface, the item the method yields for it is the
    pair of, for each ray, the angle between the leg of the ray and the
    normal ([theta] when the normals are on the side of the rays, [pi - theta]
    otherwise) and the length of the leg. *)
Theorem angles_with_distances self interfaces k interface flag item d n m :
  shape (iarr (indices self)) = [d; n; m] →
  wf_array (iarr (indices self)) →
  interfaces !! k = Some interface →
  (∀ next,
     interfaces !! (k + 1) = Some next →
     are_normals_on_out_rays_side interface = Some flag →
     (get_outgoing_angles self interfaces true).1 !! k = Some item →
     ∃ alpha distances,
       item = ItemPair (Some alpha) (Some distances) ∧
       shape alpha = [n; m] ∧ shape distances = [n; m] ∧
       ∀ i j, i < n → j < m →
         ∃ leg, leg_spherical self interface next k (k + 1) i j = Some leg ∧
                getitem alpha [i; j] = Some (leg_angle flag leg) ∧
                getitem distances [i; j] = Some (r leg)) ∧
  (∀ previous,
     0 < k → interfaces !! (k - 1) = Some previous →
     are_normals_on_inc_rays_side interface = Some flag →
     (get_incoming_angles self interfaces true).1 !! k = Some item →
     ∃ alpha distances,
       item = ItemPair (Some alpha) (Some distances) ∧
       shape alpha = [n; m] ∧ shape distances = [n; m] ∧
       ∀ i j, i < n → j < m →
         ∃ leg, leg_spherical self interface previous k (k - 1) i j = Some leg ∧
                getitem alpha [i; j] = Some (leg_angle flag leg) ∧
                getitem distances [i; j] = Some (r leg)).
Proof.
  intros Hsh Hwf Hinterface. split.
  - intros next Hnext Hflag Hitem.
    apply get_outgoing_angles_lookup in Hitem;
      [|by apply lookup_lt_Some in Hnext].
    unfold outgoing_body in Hitem.
    rewrite (py_index_nonneg _ _ _ Hinterface) in Hitem.
    replace (Z.of_nat k + 1)%Z with (Z.of_nat (k + 1)) in Hitem by lia.
    rewrite (py_index_nonneg _ _ _ Hnext) in Hitem. cbn in Hitem.
    rewrite Hflag in Hitem.
    by apply (leg_angles_Ok _ _ _ _ _ _ _ _ d n m) in Hitem.
  - intros previous Hk Hprevious Hflag Hitem.
    apply get_incoming_angles_lookup in Hitem; [|done].
    unfold incoming_body in Hitem.
    rewrite (py_index_nonneg _ _ _ Hinterface) in Hitem.
    replace (Z.of_nat k - 1)%Z with (Z.of_nat (k - 1)) in Hitem by lia.
    rewrite (py_index_nonneg _ _ _ Hprevious) in Hitem. cbn in Hitem.
    rewrite Hflag in Hitem.
    by apply (leg_angles_Ok _ _ _ _ _ _ _ _ d n m) in Hitem.
Qed.

(** X25. Without [return_distances] the item yielded for such an
    interface is the array of the lengths of the legs, in both methods. *)
Lemma angles_without_distances self interfaces k interface flag item d n m :
  shape (iarr (indices self)) = [d; n; m] →
  wf_array (iarr (indices self)) →
  interfaces !! k = Some interface →
  (∀ next,
     interfaces !! (k + 1) = Some next →
     are_normals_on_out_rays_side interface = Some flag →
     (get_outgoing_angles self interfaces false).1 !! k = Some item →
     ∃ distances,
       item = Item (Some distances) ∧ shape distances = [n; m] ∧
       ∀ i j, i < n → j < m →
         ∃ leg, leg_spherical self interface next k (k + 1) i j = Some leg ∧
                getitem distances [i; j] = Some (r leg)) ∧
  (∀ previous,
     0 < k → interfaces !! (k - 1) = Some previous →
     are_normals_on_inc_rays_side interface = Some flag →
     (get_incoming_angles self interfaces false).1 !! k = Some item →
     ∃ distances,
       item = Item (Some distances) ∧ shape distances = [n; m] ∧
       ∀ i j, i < n → j < m →
         ∃ leg, leg_spherical self interface previous k (k - 1) i j = Some leg ∧
                getitem distances [i; j] = Some (r leg)).
Proof.
  intros Hsh Hwf Hinterface. split.
  - intros next Hnext Hflag Hitem.
    apply get_outgoing_angles_lookup in Hitem;
      [|by apply lookup_lt_Some in Hnext].
    unfold outgoing_body in Hitem.
    rewrite (py_index_nonneg _ _ _ Hinterface) in Hitem.
    replace (Z.of_nat k + 1)%Z with (Z.of_nat (k + 1)) in Hitem by lia.
    rewrite (py_index_nonneg _ _ _ Hnext) in Hitem. cbn in Hitem.
    rewrite Hflag in Hitem.
    apply (leg_angles_Ok _ _ _ _ _ _ _ _ d n m) in Hitem
      as (alpha & distances & -> & _ & ? & Hlegs); [|done..].
    exists distances. split; [done|]. split; [done|]. intros i j Hi Hj.
    destruct (Hlegs i j Hi Hj) as (leg & ? & _ & ?). eauto.
  - intros previous Hk Hprevious Hflag Hitem.
    apply get_incoming_angles_lookup in Hitem; [|done].
    unfold incoming_body in Hitem.
    rewrite (py_index_nonneg _ _ _ Hinterface) in Hitem.
    replace (Z.of_nat k - 1)%Z with (Z.of_nat (k - 1)) in Hitem by lia.
    rewrite (py_index_nonneg _ _ _ Hprevious) in Hitem. cbn in Hitem.
    rewrite Hflag in Hitem.
    apply (leg_angles_Ok _ _ _ _ _ _ _ _ d n m) in Hitem
      as (alpha & distances & -> & _ & ? & Hlegs); [|done..].
    exists distances. split; [done|]. split; [done|]. intros i j Hi Hj.
    destruct (Hlegs i j Hi Hj) as (leg & ? & _ & ?). eauto.
Qed.

(** C5, amended. The element the incoming generator yields for the first
    interface is the no-value sentinel, and, when the outgoing generator
    runs to its end, so is the element it yields for the last interface. *)
Theorem sentinel_ends self interfaces return_distances :
  (get_incoming_angles self interfaces return_distances).1 !! 0
    = Some (yield_none return_distances) ∧
  ((get_outgoing_angles self interfaces return_distances).2 = None →
   (get_outgoing_angles self interfaces return_distances).1
     !! (length interfaces - 1) = Some (yield_none return_distances)).
Proof.
  split; [done|].
  unfold get_outgoing_angles, gen_then.
  destruct (gen_for _ _).2 eqn:Hloop; [intros Hend; cbn in Hend; congruence|].
  intros _. cbn [fst snd].
  rewrite lookup_app_r; rewrite gen_for_complete, length_seq by done; [|done].
  by rewrite Nat.sub_diag.
Qed.

(** *** A solver with empty caches *)

(** [clear_cache] leaves sound caches. *)
Lemma clear_cache_inv st out st' :
  clear_cache st = Some (out, st') → out = Ok () ∧ cache_inv st'.
Proof.
  intros [= <- <-]. split; [done|].
  split; [intros a b d Hl | intros path res Hl]; cbn in Hl;
    by rewrite lookup_empty in Hl.
Qed.

Lemma M_bind_eq {A B} (m : M A) (f : A → M B) st a st1 :
  m st = Some (Ok a, st1) → (m ≫= f) st = f a st1.
Proof. unfold mbind, M_bind. by intros ->. Qed.

(** The base case through [_solve], when the path is not in the cache of
    results. *)
Lemma solve_consecutive_returns fuel points1 speed points2 st :
  let path := [Pts points1; Speed speed; Pts points2] in
  distance_pairwise_contract → distance_cache_inv st →
  cached_result st !! path = None →
  kind (dtype_indices st) = KindU →
  ∃ res st',
    _solve_fuel (S fuel) path st = Some (Ok res, st') ∧
    times res = amap (λ x, fdiv x speed) (distance_pairwise points1 points2) ∧
    fermat_path res = path ∧
    shape (iarr (interior_indices res)) = [0; npoints points1; npoints points2] ∧
    dtype_indices st' = dtype_indices st ∧
    cached_result st' = cached_result st ∧
    distance_cache_inv st'.
Proof.
  intros path Hdist Hinv Hmiss Hk.
  rewrite _solve_fuel_eq, Hmiss. cbn [length Nat.eqb path].
  destruct (consecutive_times_returns points1 speed points2 st Hdist Hinv Hk)
    as (res & st' & Hrun).
  exists res, st'. split; [done|].
  pose proof (consecutive_times_distance_over_speed _ _ _ _ _ _ Hinv Hrun) as [Ht _].
  pose proof (consecutive_times_Ok _ _ _ _ _ _ Hrun)
    as (distance & Hd' & Hd & _ & Hpath & _ & _ & Hdt & Hres).
  split; [done|]. split; [done|]. split; [|split; [done|split; [done|]]].
  - rewrite consecutive_times_eq in Hrun. cbn zeta in Hrun.
    injection Hrun as Hinit _.
    apply Rays_init_Ok in Hinit
      as (dm2 & n & m & io & _ & [= <- <- <-] & _ & _ & _ & _ & Hmk & ->).
    rewrite (make_indices_Ok _ 0 (npoints points1) (npoints points2)) in Hmk
      by done.
    by injection Hmk as <-.
  - rewrite consecutive_times_eq in Hrun. cbn zeta in Hrun.
    injection Hrun as _ <-.
    destruct (cached_distance st !! (points1, points2)) eqn:Hc; cbn [fst snd];
      [done|].
    intros a b d. cbn.
    destruct (decide ((points1, points2) = (a, b))) as [[= <- <-]|Hne].
    + rewrite lookup_insert_eq. congruence.
    + rewrite lookup_insert_ne by done. apply Hinv.
Qed.

(** X26. With an empty cache of results, collaborators that meet their
    contracts and an unsigned dtype of indices, [_solve] returns the rays of
    a path of five elements. *)
Lemma solve_two_gaps_returns points1 speed1 points2 speed2 points3 st :
  find_minimum_times_contract → distance_pairwise_contract →
  distance_cache_inv st → cached_result st = ∅ →
  kind (dtype_indices st) = KindU →
  ∃ res st',
    _solve [Pts points1; Speed speed1; Pts points2; Speed speed2; Pts points3] st
      = Some (Ok res, st').
Proof.
  intros Hfmt Hdist Hinv Hcr Hk. unfold _solve. cbn [length].
  rewrite _solve_fuel_eq, Hcr, lookup_empty. cbn [length Nat.eqb].
  rewrite (M_bind_eq _ _ st
             ([Pts points1; Speed speed1; Pts points2],
              [Pts points2; Speed speed2; Pts points3]) st) by reflexivity.
  cbn [fst snd].
  destruct (solve_consecutive_returns 4 points1 speed1 points2 st Hdist Hinv)
    as (rh & st1 & Hhead & Hth & Hph & Hih & Hdt1 & Hcr1 & Hinv1);
    [by rewrite Hcr, lookup_empty | done |].
  rewrite (M_bind_eq _ _ _ _ _ Hhead).
  destruct (solve_consecutive_returns 4 points2 speed2 points3 st1 Hdist Hinv1)
    as (rt & st2 & Htail & Htt & Hpt & Hit & Hdt2 & Hcr2 & Hinv2);
    [by rewrite Hcr1, Hcr, lookup_empty | congruence |].
  rewrite (M_bind_eq _ _ _ _ _ Htail).
  destruct (Hdist points1 points2) as [Hsh12 Hwf12].
  destruct (Hdist points2 points3) as [Hsh23 Hwf23].
  destruct (Hfmt (times rh) (times rt) (dtype_indices st2)
              (npoints points1) (npoints points2) (npoints points3))
    as (t & idx & Hmin & Hsh_t & Hwf_t & Hdt & Hsh_idx & Hwf_idx & _).
  { rewrite Hth. by apply wf_array_amap. }
  { rewrite Htt. by apply wf_array_amap. }
  { by rewrite Hth. }
  { by rewrite Htt. }
  unfold Rays_new. unfold mbind, M_bind, modify, gets, lift, mret, M_ret.
  cbn [dtype_indices set_num_minimization next_id set_next_id].
  rewrite Hmin, Hpt.
  change (py_assert _) with (Ok ()). cbn [fst snd].
  destruct (interior_indices rh) as [dth [shh dh]] eqn:Hinterior.
  cbn [iarr shape] in Hih. subst shh.
  destruct idx as [dti [shi di]]. cbn [iarr shape idtype data] in *. subst shi dti.
  unfold expand_rays, reshape. cbn [iarr shape idtype data].
  rewrite (bool_decide_eq_false_2 (npoints points1 ≠ npoints points1))
    by (intros Hne; by apply Hne).
  rewrite bool_decide_eq_true_2 by (cbn; lia).
  cbn [raise_if mbind result_bind Nat.eqb fmap result_fmap iarr idtype data].
  pose proof (make_indices_Ok
                (IArray (dtype_indices st2)
                   (NDArray [1; npoints points1; npoints points3] di))
                1 (npoints points1) (npoints points3) eq_refl) as Hmk.
  erewrite Rays_init_intro;
    [eauto | done | reflexivity | reflexivity | reflexivity | reflexivity
    | cbn; congruence | apply Hmk].
  unfold wf_array in *. cbn in *. lia.
Qed.

(** *** The generators run to their end *)

Lemma mapM_result_total {A B} (f : A → result B) (l : list A) :
  Forall (λ x, ∃ y, f x = Ok y) l → ∃ l', mapM_result f l = Ok l'.
Proof.
  induction 1 as [|x l [y Hy] _ [l' IH]]; cbn; [eauto|].
  rewrite Hy. cbn. rewrite IH. cbn. eauto.
Qed.

Lemma py_index_within {A} (l : list A) (z : Z) :
  (0 ≤ z < Z.of_nat (length l))%Z → ∃ x, py_index l z = Ok x.
Proof.
  intros Hz. destruct (lookup_lt_is_Some_2 l (Z.to_nat z)) as [x Hx]; [lia|].
  exists x. rewrite <- (Z2Nat.id z) by lia. by apply py_index_nonneg.
Qed.

Lemma np_take_total {A} (l : list A) (idx : ndarray Z) :
  Forall (λ z, (0 ≤ z < Z.of_nat (length l))%Z) (data idx) →
  ∃ a, np_take l idx = Ok a.
Proof.
  intros Hin. unfold np_take.
  destruct (mapM_result_total (py_index l) (data idx)) as [l' ->]; [|cbn; eauto].
  eapply Forall_impl; [done|]. intros z Hz. by apply py_index_within.
Qed.

Lemma gen_for_total {I A} (body : I → result A) (l : list I) :
  Forall (λ x, ∃ a, body x = Ok a) l → (gen_for body l).2 = None.
Proof. induction 1 as [|x l [a Ha] _ IH]; cbn; [done|]. by rewrite Ha. Qed.

Lemma get_layer_total {A} (a : ndarray A) d n m k :
  shape a = [d; n; m] → k < d → ∃ layer, get_layer a k = Ok layer.
Proof.
  intros Hsh Hk. unfold get_layer. rewrite Hsh.
  assert ((k <? d) = true) as -> by lia. eauto.
Qed.

Lemma leg_angles_total self interfaces interface other interface_idx other_idx
    flag return_distances d n m :
  shape (iarr (indices self)) = [d; n; m] → length interfaces ≤ d →
  indices_within self interfaces →
  interfaces !! interface_idx = Some interface →
  interfaces !! other_idx = Some other →
  ∃ item, leg_angles self interface other interface_idx other_idx flag
            return_distances = Ok item.
Proof.
  intros Hsh Hlen Hin Hinterface Hother. unfold leg_angles.
  pose proof (lookup_lt_Some _ _ _ Hinterface) as Hk.
  pose proof (lookup_lt_Some _ _ _ Hother) as Hk'.
  destruct (get_layer_total _ d n m interface_idx Hsh) as [here Hhere]; [lia|].
  destruct (get_layer_total _ d n m other_idx Hsh) as [there Hthere]; [lia|].
  pose proof (Hin _ _ _ Hinterface Hhere) as Hin_here.
  pose proof (Hin _ _ _ Hother Hthere) as Hin_there.
  rewrite Hhere. cbn [mbind result_bind].
  destruct (np_take_total (coords (interface_points interface)) here) as [? ->].
  { eapply Forall_impl; [done|]. by intros z [? _]. }
  cbn [mbind result_bind]. rewrite Hthere. cbn [mbind result_bind].
  destruct (np_take_total (coords (interface_points other)) there) as [? ->].
  { eapply Forall_impl; [done|]. by intros z [? _]. }
  cbn [mbind result_bind].
  destruct (np_take_total (orientations interface) here) as [? ->].
  { eapply Forall_impl; [done|]. intros z [? ?]. lia. }
  cbn [mbind result_bind]. eauto.
Qed.

(** X27. When the indices of the rays are ranks of points of the
    interfaces, both generators run to their end and yield one item per
    interface. *)
Lemma angles_generators_complete self interfaces return_distances d n m :
  shape (iarr (indices self)) = [d; n; m] → length interfaces ≤ d →
  indices_within self interfaces →
  0 < length interfaces →
  (get_outgoing_angles self interfaces return_distances).2 = None ∧
  length (get_outgoing_angles self interfaces return_distances).1
    = length interfaces ∧
  (get_incoming_angles self interfaces return_distances).2 = None ∧
  length (get_incoming_angles self interfaces return_distances).1
    = length interfaces.
Proof.
  intros Hsh Hlen Hin Hpos.
  assert ((gen_for (outgoing_body self interfaces return_distances)
             (seq 0 (length interfaces - 1))).2 = None) as Hout.
  { apply gen_for_total, Forall_forall. intros k [_ Hk]%elem_of_seq.
    destruct (lookup_lt_is_Some_2 interfaces k) as [interface Hinterface]; [lia|].
    destruct (lookup_lt_is_Some_2 interfaces (k + 1)) as [next Hnext]; [lia|].
    unfold outgoing_body.
    rewrite (py_index_nonneg _ _ _ Hinterface). cbn [mbind result_bind].
    replace (Z.of_nat k + 1)%Z with (Z.of_nat (k + 1)) by lia.
    rewrite (py_index_nonneg _ _ _ Hnext). cbn [mbind result_bind].
    destruct (are_normals_on_out_rays_side interface); [|eauto].
    by apply (leg_angles_total _ interfaces _ _ _ _ _ _ d n m). }
  assert ((gen_for (incoming_body self interfaces return_distances)
             (seq 1 (length interfaces - 1))).2 = None) as Hinc.
  { apply gen_for_total, Forall_forall. intros k [Hk1 Hk]%elem_of_seq.
    destruct (lookup_lt_is_Some_2 interfaces k) as [interface Hinterface]; [lia|].
    destruct (lookup_lt_is_Some_2 interfaces (k - 1)) as [previous Hprevious];
      [lia|].
    unfold incoming_body.
    rewrite (py_index_nonneg _ _ _ Hinterface). cbn [mbind result_bind].
    replace (Z.of_nat k - 1)%Z with (Z.of_nat (k - 1)) by lia.
    rewrite (py_index_nonneg _ _ _ Hprevious). cbn [mbind result_bind].
    destruct (are_normals_on_inc_rays_side interface); [|eauto].
    by apply (leg_angles_total _ interfaces _ _ _ _ _ _ d n m). }
  unfold get_outgoing_angles, get_incoming_angles, gen_then.
  rewrite Hout. cbn [fst snd].
  rewrite length_app, !gen_for_complete, !length_seq by done. cbn [length].
  split; [done|]. split; [lia|]. split; [done|].
  rewrite length_app, gen_for_complete, length_seq by done. cbn [length]. lia.
Qed.


(** *** FermatPath: the point-sets of a path *)

Lemma lookup_rev {A} (l : list A) i :
  i < length l → rev l !! i = l !! (length l - S i).
Proof.
  intros Hi. rewrite rev_alt. by apply (reverse_lookup l i).
Qed.

Lemma points_offset (l : list (@elem Points F)) :
  ∀ off k,
    (filter (λ io : nat * elem, io.1 mod 2 = 0) (imap (λ i, pair (off + i)) l)).*2 !! k
    = l !! (2 * k + off mod 2).
Proof.
  induction l as [|x l IH]; intros off k.
  - done.
  - rewrite imap_cons.
    rewrite (imap_ext _ (λ i, pair (S off + i))) by (intros; unfold compose; f_equal; lia).
    replace (off + 0) with off by lia.
    pose proof (Nat.mod_upper_bound off 2 ltac:(lia)) as Hlt.
    assert (S off mod 2 = 1 - off mod 2) as HS.
    { replace (S off) with (1 + off) by lia.
      rewrite Nat.Div0.add_mod by lia.
      destruct (off mod 2) as [|[|?]]; [done|done|lia]. }
    destruct (decide (off mod 2 = 0)) as [He|Ho].
    + rewrite filter_cons_True by done.
      rewrite He. cbn [fmap list_fmap snd].
      destruct k as [|k]; [done|].
      cbn [lookup list_lookup]. rewrite IH, HS, He.
      replace (2 * S k + 0) with (S (2 * k + (1 - 0))) by lia. done.
    + rewrite filter_cons_False by done.
      rewrite IH, HS.
      assert (off mod 2 = 1) as -> by lia.
      replace (2 * k + 1) with (S (2 * k + (1 - 1))) by lia. done.
Qed.

Lemma lookup_points (path : FermatPath) k : points path !! k = path !! (2 * k).
Proof.
  unfold points.
  rewrite (imap_ext _ (λ i, pair (0 + i))) by done.
  rewrite points_offset. f_equal. cbn. lia.
Qed.

Lemma length_points (path : FermatPath) : length (points path) = (length path + 1) / 2.
Proof.
  apply Nat.le_antisymm.
  - apply lookup_ge_None. rewrite lookup_points. apply lookup_ge_None.
    pose proof (Nat.div_mod_eq (length path + 1) 2).
    pose proof (Nat.mod_upper_bound (length path + 1) 2). lia.
  - destruct (decide ((length path + 1) / 2 = 0)) as [->|Hne]; [lia|].
    assert (is_Some (points path !! ((length path + 1) / 2 - 1))) as Hs.
    { rewrite lookup_points. apply lookup_lt_is_Some.
      pose proof (Nat.div_mod_eq (length path + 1) 2).
      pose proof (Nat.mod_upper_bound (length path + 1) 2). lia. }
    apply lookup_lt_is_Some in Hs. lia.
Qed.

Lemma is_FermatPath_length (path : FermatPath) :
  is_FermatPath path ↔ length path mod 2 = 1 ∧ 3 ≤ length path.
Proof.
  unfold is_FermatPath. rewrite FermatPath_new_Ok.
  split; [by intros (_ & ? & ?) | by intros [? ?]].
Qed.

Lemma odd_length_div (n : nat) : n mod 2 = 1 → n = 2 * (n / 2) + 1.
Proof. intros Hn. pose proof (Nat.div_mod_eq n 2). lia. Qed.

Lemma length_points_odd (path : FermatPath) :
  length path mod 2 = 1 → length (points path) = num_points_sets path.
Proof.
  intros Hodd. rewrite length_points. unfold num_points_sets.
  apply odd_length_div in Hodd.
  rewrite Hodd at 1.
  replace (2 * (length path / 2) + 1 + 1) with ((length path / 2 + 1) * 2) by lia.
  by rewrite Nat.div_mul.
Qed.

(** X1. The point-sets of a FermatPath are its elements of even rank,
    there are [num_points_sets] of them, and the first and the last are
    the ends of the path. *)
Theorem points_of_FermatPath (path : FermatPath) :
  is_FermatPath path →
  length (points path) = num_points_sets path ∧
  (∀ k, points path !! k = path !! (2 * k)) ∧
  head (points path) = head path ∧
  last (points path) = last path.
Proof.
  intros [Hodd Hlen]%is_FermatPath_length.
  pose proof (length_points_odd path Hodd) as Hl.
  split; [done|]. split; [apply lookup_points|].
  split.
  - by rewrite !head_lookup, lookup_points.
  - rewrite !last_lookup, lookup_points, Hl. unfold num_points_sets.
    f_equal. apply odd_length_div in Hodd. lia.
Qed.

Lemma points_app_junction (a b : FermatPath) :
  length a mod 2 = 1 →
  points (a ++ drop 1 b) = points a ++ drop 1 (points b).
Proof.
  intros Hodd. apply list_eq. intros k.
  pose proof (odd_length_div _ Hodd) as Ha.
  assert (length (points a) = length a / 2 + 1) as Hpa.
  { rewrite length_points. rewrite Ha at 1.
    replace (2 * (length a / 2) + 1 + 1) with ((length a / 2 + 1) * 2) by lia.
    by rewrite Nat.div_mul. }
  rewrite lookup_points.
  destruct (decide (k < length a / 2 + 1)) as [Hk|Hk].
  - rewrite !lookup_app_l by lia. by rewrite lookup_points.
  - rewrite !lookup_app_r by lia.
    rewrite !lookup_drop, lookup_points. f_equal. lia.
Qed.

Lemma points_rev (path : FermatPath) :
  length path mod 2 = 1 → points (rev path) = rev (points path).
Proof.
  intros Hodd. apply list_eq. intros k.
  pose proof (odd_length_div _ Hodd) as Ha.
  assert (length (points path) = length path / 2 + 1) as Hpa.
  { rewrite length_points. rewrite Ha at 1.
    replace (2 * (length path / 2) + 1 + 1) with ((length path / 2 + 1) * 2) by lia.
    by rewrite Nat.div_mul. }
  rewrite lookup_points.
  destruct (decide (k < length path / 2 + 1)) as [Hk|Hk].
  - rewrite !lookup_rev by (rewrite ?length_rev; lia).
    rewrite lookup_points. f_equal. lia.
  - rewrite !(proj2 (lookup_ge_None _ _)) by (rewrite ?length_rev; lia). done.
Qed.

Lemma FermatPath_new_intro (l : FermatPath) :
  length l mod 2 = 1 → 3 ≤ length l → FermatPath_new l = Ok l.
Proof. intros. by apply FermatPath_new_Ok. Qed.

(** X2. Reversing a FermatPath succeeds and gives a FermatPath with the
    point-sets in the opposite order; reversing twice gives back the
    path. *)
Theorem reverse_roundtrip (path : FermatPath) :
  is_FermatPath path →
  ∃ reversed,
    reverse path = Ok reversed ∧
    is_FermatPath reversed ∧
    points reversed = rev (points path) ∧
    num_points_sets reversed = num_points_sets path ∧
    reverse reversed = Ok path.
Proof.
  intros [Hodd Hlen]%is_FermatPath_length.
  exists (rev path). unfold reverse, num_points_sets.
  rewrite rev_involutive, length_rev.
  repeat split.
  - apply FermatPath_new_intro; by rewrite length_rev.
  - apply is_FermatPath_length. by rewrite length_rev.
  - by apply points_rev.
  - by apply FermatPath_new_intro.
Qed.

Lemma mod_2_sub_2 (n : nat) : 2 ≤ n → (n - 2) mod 2 = n mod 2.
Proof.
  intros Hn. replace n with ((n - 2) + 1 * 2) at 2 by lia.
  by rewrite Nat.Div0.mod_add.
Qed.

Lemma div_2_sub_2 (n : nat) : 2 ≤ n → (n - 2) / 2 = n / 2 - 1.
Proof.
  intros Hn. replace n with ((n - 2) + 1 * 2) at 2 by lia.
  rewrite Nat.div_add by lia. lia.
Qed.

(** X3. Both splits raise ValueError on a FermatPath of fewer than 5
    elements. On a longer one, [split_queue] cuts at the last interior
    point-set and [split_head] at the first: the two parts are FermatPaths
    that share this point-set, the short one has 3 elements, and the
    point-sets of the path are those of the head followed by those of the
    tail but the shared one. *)
Theorem split_sub_paths (path : FermatPath) :
  is_FermatPath path →
  (length path < 5 →
   split_queue path = Raise ValueError ∧ split_head path = Raise ValueError) ∧
  (5 ≤ length path →
   ∃ head tail head' tail',
     split_queue path = Ok (head, tail) ∧
     split_head path = Ok (head', tail') ∧
     is_FermatPath head ∧ is_FermatPath tail ∧
     is_FermatPath head' ∧ is_FermatPath tail' ∧
     length tail = 3 ∧ length head' = 3 ∧
     num_points_sets head = num_points_sets path - 1 ∧
     num_points_sets tail' = num_points_sets path - 1 ∧
     last head = tail !! 0 ∧ last head' = tail' !! 0 ∧
     points path = points head ++ drop 1 (points tail) ∧
     points path = points head' ++ drop 1 (points tail')).
Proof.
  intros [Hodd Hlen]%is_FermatPath_length.
  split.
  - intros Hshort. unfold split_queue, split_head.
    by assert ((length path <? 5) = true) as -> by lia.
  - intros Hlong.
    assert ((length path <? 5) = false) as Hge by lia.
    pose proof (mod_2_sub_2 (length path) ltac:(lia)) as Hm.
    pose proof (div_2_sub_2 (length path) ltac:(lia)) as Hd.
    pose proof (odd_length_div _ Hodd) as Hhalf.
    assert (length (take (length path - 2) path) = length path - 2) as Hl1
      by (rewrite length_take; lia).
    assert (length (drop (length path - 3) path) = 3) as Hl2
      by (rewrite length_drop; lia).
    assert (length (take 3 path) = 3) as Hl3 by (rewrite length_take; lia).
    assert (length (drop 2 path) = length path - 2) as Hl4
      by (rewrite length_drop; lia).
    exists (take (length path - 2) path), (drop (length path - 3) path),
           (take 3 path), (drop 2 path).
    unfold split_queue, split_head, num_points_sets. rewrite Hge.
    rewrite (FermatPath_new_intro (take (length path - 2) path))
      by (rewrite Hl1; lia).
    rewrite (FermatPath_new_intro (drop (length path - 3) path))
      by (rewrite Hl2; done || lia).
    rewrite (FermatPath_new_intro (take 3 path)) by (rewrite Hl3; done || lia).
    rewrite (FermatPath_new_intro (drop 2 path)) by (rewrite Hl4; lia).
    rewrite Hl1, Hl2, Hl3, Hl4, Hd.
    split; [done|]. split; [done|].
    split; [apply is_FermatPath_length; rewrite Hl1; lia|].
    split; [apply is_FermatPath_length; rewrite Hl2; done || lia|].
    split; [apply is_FermatPath_length; rewrite Hl3; done || lia|].
    split; [apply is_FermatPath_length; rewrite Hl4; lia|].
    split; [done|]. split; [done|].
    split; [lia|]. split; [lia|].
    split.
    { rewrite last_lookup, Hl1, lookup_take_lt, lookup_drop by lia.
      f_equal. lia. }
    split.
    { rewrite last_lookup, Hl3, lookup_take_lt, lookup_drop by lia. done. }
    split.
    + rewrite <- points_app_junction by (rewrite Hl1; lia).
      rewrite drop_drop.
      replace (length path - 3 + 1) with (length path - 2) by lia.
      by rewrite take_drop.
    + rewrite <- points_app_junction by (rewrite Hl3; done).
      rewrite drop_drop. cbn [Nat.add]. by rewrite take_drop.
Qed.

(** *** FermatPath: concatenation *)

Lemma last_rev {A} (l : list A) : last (rev l) = head l.
Proof. rewrite rev_alt. apply (last_reverse l). Qed.

Lemma head_rev {A} (l : list A) : head (rev l) = last l.
Proof. rewrite rev_alt. apply (head_reverse l). Qed.

Lemma py_index_head {A} (l : list A) (x : A) :
  head l = Some x → py_index l 0 = Ok x.
Proof. rewrite head_lookup. apply (py_index_nonneg l 0). Qed.

Lemma FermatPath_add_eq (a b : FermatPath) :
  is_FermatPath a → is_FermatPath b →
  FermatPath_add a b =
  if bool_decide (last a = head b) then Ok (a ++ drop 1 b) else Raise ValueError.
Proof.
  intros [Hoa Hla]%is_FermatPath_length [Hob Hlb]%is_FermatPath_length.
  unfold FermatPath_add.
  destruct (last a) as [x|] eqn:Hx.
  2:{ apply last_None in Hx. subst a. cbn in Hla. lia. }
  destruct (head b) as [y|] eqn:Hy.
  2:{ apply head_None in Hy. subst b. cbn in Hlb. lia. }
  rewrite (py_index_last _ _ Hx), (py_index_head _ _ Hy). cbn [mbind result_bind].
  destruct (decide (x = y)) as [->|Hne].
  - rewrite bool_decide_eq_false_2 by (intros Hne; by apply Hne).
    rewrite bool_decide_eq_true_2 by done.
    apply FermatPath_new_intro.
    + rewrite length_app, length_drop.
      pose proof (odd_length_div _ Hoa). pose proof (odd_length_div _ Hob).
      replace (length a + (length b - 1))
        with (1 + (length a / 2 + length b / 2) * 2) by lia.
      by rewrite Nat.Div0.mod_add.
    + rewrite length_app. lia.
  - rewrite bool_decide_eq_true_2 by done.
    rewrite bool_decide_eq_false_2 by congruence. done.
Qed.

Lemma is_FermatPath_join (a b : FermatPath) :
  is_FermatPath a → is_FermatPath b → is_FermatPath (a ++ drop 1 b).
Proof.
  intros [Hoa Hla]%is_FermatPath_length [Hob Hlb]%is_FermatPath_length.
  apply is_FermatPath_length. rewrite length_app, length_drop. split; [|lia].
  pose proof (odd_length_div _ Hoa). pose proof (odd_length_div _ Hob).
  replace (length a + (length b - 1))
    with (1 + (length a / 2 + length b / 2) * 2) by lia.
  by rewrite Nat.Div0.mod_add.
Qed.

Lemma last_join (a b : FermatPath) :
  2 ≤ length b → last (a ++ drop 1 b) = last b.
Proof.
  intros Hb. rewrite !last_lookup, length_app, length_drop.
  rewrite lookup_app_r by lia. rewrite lookup_drop. f_equal. lia.
Qed.

Lemma head_join (a b : FermatPath) :
  1 ≤ length a → head (a ++ b) = head a.
Proof. destruct a; [cbn; lia | done]. Qed.

(** X4. The concatenation [a + b] of two FermatPaths raises ValueError
    when the last element of [a] is not the first of [b]; otherwise it is
    the FermatPath of [len(a) + len(b) - 1] elements whose point-sets are
    those of [a] followed by those of [b] but its first. *)
Theorem FermatPath_add_joins (a b : FermatPath) :
  is_FermatPath a → is_FermatPath b →
  (last a ≠ head b → FermatPath_add a b = Raise ValueError) ∧
  (last a = head b →
   ∃ c, FermatPath_add a b = Ok c ∧
        is_FermatPath c ∧
        length c = length a + length b - 1 ∧
        points c = points a ++ drop 1 (points b) ∧
        num_points_sets c = num_points_sets a + num_points_sets b - 1).
Proof.
  intros Ha Hb. rewrite (FermatPath_add_eq a b Ha Hb).
  pose proof Ha as [Hoa Hla]%is_FermatPath_length.
  pose proof Hb as [Hob Hlb]%is_FermatPath_length.
  split.
  - intros Hne. by rewrite bool_decide_eq_false_2 by done.
  - intros Heq. rewrite bool_decide_eq_true_2 by done.
    exists (a ++ drop 1 b).
    split; [done|]. split; [by apply is_FermatPath_join|].
    assert (length (a ++ drop 1 b) = length a + length b - 1) as Hlen
      by (rewrite length_app, length_drop; lia).
    split; [done|]. split; [by apply points_app_junction|].
    unfold num_points_sets. rewrite Hlen.
    pose proof (odd_length_div _ Hoa). pose proof (odd_length_div _ Hob).
    replace (length a + length b - 1)
      with (1 + (length a / 2 + length b / 2) * 2) by lia.
    rewrite Nat.div_add by lia. cbn. lia.
Qed.

(** X5. Concatenation of FermatPaths is associative, errors included:
    [(a + b) + c] and [a + (b + c)] raise in the same cases and are the
    same path otherwise. *)
Theorem FermatPath_add_assoc (a b c : FermatPath) :
  is_FermatPath a → is_FermatPath b → is_FermatPath c →
  FermatPath_add a b ≫= (λ ab, FermatPath_add ab c) =
  FermatPath_add b c ≫= (λ bc, FermatPath_add a bc).
Proof.
  intros Ha Hb Hc.
  pose proof Ha as [Hoa Hla]%is_FermatPath_length.
  pose proof Hb as [Hob Hlb]%is_FermatPath_length.
  pose proof Hc as [Hoc Hlc]%is_FermatPath_length.
  rewrite (FermatPath_add_eq a b Ha Hb), (FermatPath_add_eq b c Hb Hc).
  destruct (bool_decide_reflect (last a = head b)) as [Hab|Hab];
    destruct (bool_decide_reflect (last b = head c)) as [Hbc|Hbc];
    cbn [mbind result_bind];
    rewrite ?(FermatPath_add_eq (a ++ drop 1 b) c (is_FermatPath_join a b Ha Hb) Hc),
            ?(FermatPath_add_eq a (b ++ drop 1 c) Ha (is_FermatPath_join b c Hb Hc)),
            ?last_join, ?head_join by lia.
  - rewrite !bool_decide_eq_true_2 by done.
    f_equal. rewrite drop_app_le by lia. by rewrite app_assoc.
  - by rewrite bool_decide_eq_false_2 by done.
  - by rewrite bool_decide_eq_false_2 by done.
  - done.
Qed.

(** X6. Reversal turns a concatenation around: the reverse of [a + b] is
    [b.reverse() + a.reverse()], errors included. *)
Theorem reverse_add (a b : FermatPath) :
  is_FermatPath a → is_FermatPath b →
  FermatPath_add a b ≫= reverse =
  reverse b ≫= (λ rb, reverse a ≫= (λ ra, FermatPath_add rb ra)).
Proof.
  intros Ha Hb.
  pose proof Ha as [Hoa Hla]%is_FermatPath_length.
  pose proof Hb as [Hob Hlb]%is_FermatPath_length.
  assert (is_FermatPath (rev a)) as Hra
    by (apply is_FermatPath_length; by rewrite length_rev).
  assert (is_FermatPath (rev b)) as Hrb
    by (apply is_FermatPath_length; by rewrite length_rev).
  unfold reverse at 2 3. rewrite Hrb. cbn [mbind result_bind].
  rewrite Hra. cbn [mbind result_bind].
  rewrite (FermatPath_add_eq a b Ha Hb), (FermatPath_add_eq _ _ Hrb Hra).
  rewrite last_rev, head_rev.
  destruct (bool_decide_reflect (last a = head b)) as [Hab|Hab].
  - rewrite bool_decide_eq_true_2 by done. cbn [mbind result_bind].
    unfold reverse.
    pose proof (is_FermatPath_join a b Ha Hb) as [Ho Hl]%is_FermatPath_length.
    rewrite FermatPath_new_intro by (by rewrite length_rev).
    f_equal. rewrite rev_app_distr.
    destruct (last a) as [x|] eqn:Hx.
    2:{ apply last_None in Hx. subst a. cbn in Hla. lia. }
    apply last_Some in Hx as [a' ->].
    destruct b as [|y b']; [cbn in Hlb; lia|].
    cbn in Hab. injection Hab as ->.
    rewrite rev_app_distr. cbn [rev drop app].
    by rewrite <- app_assoc.
  - rewrite bool_decide_eq_false_2 by congruence. done.
Qed.

(** *** FermatPath: the largest interface *)

Lemma length_py_interior {A} (l : list A) : length (py_interior l) = length l - 2.
Proof. unfold py_interior. rewrite length_drop, length_take. lia. Qed.

Lemma lookup_py_interior {A} (l : list A) k :
  k + 2 < length l → py_interior l !! k = l !! S k.
Proof.
  intros Hk. unfold py_interior.
  rewrite lookup_drop, lookup_take_lt by lia. done.
Qed.

Lemma py_len_Ok (e : @elem Points F) (n : nat) :
  py_len e = Ok n ↔ ∃ q, e = Pts q ∧ n = npoints q.
Proof.
  destruct e as [q|v]; cbn; split.
  - intros [= <-]. by exists q.
  - by intros (q' & [= <-] & ->).
  - done.
  - by intros (q' & ? & _).
Qed.

(** X7. When [len_largest_interface] returns, its value bounds the number
    of points of every interior point-set of the path and is the number
    of points of one of them; the first and the last point-set do not
    count, and the value is 0 for a path of two point-sets. *)
Theorem len_largest_interface_is_max (path : FermatPath) (m : nat) :
  is_FermatPath path →
  len_largest_interface path = Ok m →
  (∀ k q, 0 < k → k + 1 < num_points_sets path →
          points path !! k = Some (Pts q) → npoints q ≤ m) ∧
  (2 < num_points_sets path →
   ∃ k q, 0 < k ∧ k + 1 < num_points_sets path ∧
          points path !! k = Some (Pts q) ∧ npoints q = m) ∧
  (num_points_sets path = 2 → m = 0).
Proof.
  intros Hpath Hm.
  pose proof Hpath as [Hodd _]%is_FermatPath_length.
  rewrite <- (length_points_odd path Hodd).
  unfold len_largest_interface in Hm.
  pose proof (length_py_interior (points path)) as Hli.
  pose proof (lookup_py_interior (points path)) as Hlk.
  destruct (py_interior (points path)) as [|x interfaces] eqn:Hint.
  - injection Hm as <-. cbn in Hli.
    split; [intros; lia|]. split; [intros; lia|]. done.
  - apply fmap_Ok in Hm as (lens & Hlens & ->).
    apply mapM_result_Ok in Hlens as [Hll Hlens].
    cbn [length] in Hli, Hll.
    split; [|split].
    + intros k q Hk0 Hk1 Hq.
      destruct k as [|k]; [lia|].
      rewrite <- Hlk in Hq by lia.
      destruct (Hlens _ _ Hq) as (y & Hy & Hlk').
      apply py_len_Ok in Hy as (q' & [= <-] & ->).
      apply max_list_elem_of_le. by eapply list_elem_of_lookup_2.
    + intros _.
      assert (lens ≠ []) as Hne by (intros ->; done).
      apply max_list_elem_of in Hne.
      apply list_elem_of_lookup_1 in Hne as [i Hi].
      pose proof (lookup_lt_Some _ _ _ Hi) as Hlt.
      destruct (lookup_lt_is_Some_2 (x :: interfaces) i) as [e He];
        [cbn [length]; lia|].
      destruct (Hlens _ _ He) as (y & Hy & Hlk').
      apply py_len_Ok in Hy as (q & -> & ->).
      exists (S i), q.
      split; [lia|]. split; [lia|].
      rewrite <- Hlk by lia. split; [done|]. congruence.
    + intros Hn. lia.
Qed.

(** *** Rays: what the constructor accepts and makes *)

Lemma py_index_0_Ok {A} (l : list A) (x : A) : py_index l 0 = Ok x ↔ head l = Some x.
Proof.
  split; [|apply py_index_head].
  intros (k & Hk & Hz)%py_index_Ok. cbn in Hz.
  assert (k = 0) as -> by lia. by rewrite head_lookup.
Qed.

Lemma py_index_m1_Ok {A} (l : list A) (x : A) : py_index l (-1) = Ok x ↔ last l = Some x.
Proof.
  split; [|apply py_index_last].
  intros (k & Hk & Hz)%py_index_Ok. cbn in Hz.
  assert (k = pred (length l)) as -> by lia. by rewrite last_lookup.
Qed.

Lemma first_len_Ok (l : list (@elem Points F)) (n : nat) :
  py_index l 0 ≫= py_len = Ok n ↔ ∃ q, head l = Some (Pts q) ∧ npoints q = n.
Proof.
  rewrite bind_Ok. split.
  - intros (e & He%py_index_0_Ok & (q & -> & ->)%py_len_Ok). eauto.
  - intros (q & Hq%py_index_0_Ok & <-). by exists (Pts q).
Qed.

Lemma last_len_Ok (l : list (@elem Points F)) (n : nat) :
  py_index l (-1) ≫= py_len = Ok n ↔ ∃ q, last l = Some (Pts q) ∧ npoints q = n.
Proof.
  rewrite bind_Ok. split.
  - intros (e & He%py_index_m1_Ok & (q & -> & ->)%py_len_Ok). eauto.
  - intros (q & Hq%py_index_m1_Ok & <-). by exists (Pts q).
Qed.

Lemma make_indices_shape (interior : iarray) dm2 n m :
  shape (iarr interior) = [dm2; n; m] →
  ∃ out, make_indices interior = Ok out ∧
         idtype out = idtype interior ∧ shape (iarr out) = [dm2 + 2; n; m].
Proof.
  intros Hsh. unfold make_indices. rewrite Hsh. eexists. split; [done|]. done.
Qed.

(** [Rays(times, interior_indices, path)] with arrays that fit the path
    and a signed dtype. *)
Lemma Rays_init_signed self (times_in : ndarray F) (interior : iarray)
    (path : FermatPath) dm2 pts_first pts_last :
  head (points path) = Some (Pts pts_first) →
  last (points path) = Some (Pts pts_last) →
  shape times_in = [npoints pts_first; npoints pts_last] →
  shape (iarr interior) = [dm2; npoints pts_first; npoints pts_last] →
  num_points_sets path = dm2 + 2 →
  kind (idtype interior) = KindI →
  Rays_init self times_in interior path = Raise TypeError.
Proof.
  intros Hfirst Hlast Ht Hsh Hd Hkind.
  apply py_index_0_Ok in Hfirst. apply py_index_m1_Ok in Hlast.
  unfold Rays_init, ndim. rewrite Ht, Hsh, Hfirst, Hlast, Hd, Hkind.
  cbn [length Nat.eqb py_assert mbind result_bind drop py_len].
  rewrite (bool_decide_eq_true_2 ([npoints pts_first; npoints pts_last] = _)) by done.
  cbn [mbind result_bind py_len]. fold (npoints pts_first). fold (npoints pts_last).
  rewrite (bool_decide_eq_true_2 ([npoints pts_first; npoints pts_last] = _)) by done.
  change (py_index [dm2; npoints pts_first; npoints pts_last] 0) with (Ok (A:=nat) dm2).
  cbn [py_assert mbind result_bind]. rewrite Nat.eqb_refl.
  rewrite bool_decide_eq_true_2 by done.
  reflexivity.
Qed.


Lemma constructed_for_shapes (path : FermatPath) (rays : Rays) :
  constructed_for path rays →
  ∃ pts_first pts_last,
    head (points path) = Some (Pts pts_first) ∧ last (points path) = Some (Pts pts_last) ∧
    fermat_path rays = path ∧
    shape (times rays) = [npoints pts_first; npoints pts_last] ∧
    shape (iarr (indices rays)) = [num_points_sets path; npoints pts_first; npoints pts_last] ∧
    kind (idtype (indices rays)) = KindU.
Proof.
  intros (self & times_in & interior & Hinit).
  apply Rays_init_Ok in Hinit
    as (dm2 & n & m & indices_out & Ht & Hsh & Hn & Hm & Hd & Hkind & Hmk & ->).
  apply first_len_Ok in Hn as (pts_first & Hfirst & <-).
  apply last_len_Ok in Hm as (pts_last & Hlast & <-).
  destruct (make_indices_shape interior _ _ _ Hsh) as (out & Hout & Hdt & Hshape).
  rewrite Hout in Hmk. injection Hmk as <-.
  exists pts_first, pts_last. unfold fermat_path, times, indices.
  cbn [_times _indices _fermat_path].
  rewrite Hd, Hdt, Hshape. done.
Qed.

(** X9. A constructed [Rays] keeps the path it was given, its [times] is
    [n x m] and its [indices] is [d x n x m] with an unsigned dtype, [d]
    being the number of point-sets of the path, [n] the number of points of
    the first and [m] of the last; [indices] has as many elements as its
    shape says when [interior_indices] had. *)
Theorem Rays_init_shapes self (times_in : ndarray F) (interior : iarray)
    (path : FermatPath) (rays : Rays) :
  Rays_init self times_in interior path = Ok rays →
  ∃ pts_first pts_last,
    head (points path) = Some (Pts pts_first) ∧ last (points path) = Some (Pts pts_last) ∧
    fermat_path rays = path ∧
    shape (times rays) = [npoints pts_first; npoints pts_last] ∧
    shape (iarr (indices rays)) = [num_points_sets path; npoints pts_first; npoints pts_last] ∧
    kind (idtype (indices rays)) = KindU ∧
    (wf_array (iarr interior) → wf_array (iarr (indices rays))).
Proof.
  intros Hinit.
  destruct (constructed_for_shapes path rays) as (pts_first & pts_last & H1 & H2 & H3 & H4 & H5 & H6).
  { by exists self, times_in, interior. }
  exists pts_first, pts_last. do 6 (split; [done|]).
  intros Hwf.
  apply Rays_init_Ok in Hinit
    as (dm2 & n & m & indices_out & Ht & Hsh & Hn & Hm & Hd & Hkind & Hmk & ->).
  rewrite (make_indices_Ok _ dm2 n m) in Hmk by done. injection Hmk as <-.
  unfold wf_array in *. unfold indices. cbn [_indices iarr shape data].
  rewrite Hsh in Hwf. cbn [size_of_shape foldr] in *.
  rewrite !length_app, !length_fmap, length_repeat_arange, length_tile_arange, Hwf.
  lia.
Qed.

(** X10. [expand_rays] on interior indices of shape [(d, n, m)] and new
    indices of shape [(n', p)] raises ValueError when [n] and [n'] differ,
    and otherwise returns an array of shape [(d + 1, n, p)], of the dtype of
    the new indices when [d = 0] and of the interior indices otherwise. *)
Theorem expand_rays_shape (interior new : iarray) d n m n' p :
  shape (iarr interior) = [d; n; m] →
  shape (iarr new) = [n'; p] →
  (n ≠ n' → expand_rays interior new = Raise ValueError) ∧
  (n = n' →
   ∃ expanded,
     expand_rays interior new = Ok expanded ∧
     shape (iarr expanded) = [d + 1; n; p] ∧
     idtype expanded = (if d =? 0 then idtype new else idtype interior)).
Proof.
  intros Hi Hn. unfold expand_rays. rewrite Hi, Hn. split.
  - intros Hne. by rewrite bool_decide_eq_true_2 by done.
  - intros <-. rewrite bool_decide_eq_false_2 by (intros Hne; by apply Hne).
    cbn [raise_if mbind result_bind].
    destruct (d =? 0) eqn:Hd.
    + apply Nat.eqb_eq in Hd as ->. unfold reshape. rewrite Hn.
      rewrite bool_decide_eq_true_2 by (cbn; lia). cbn. eauto.
    + eexists. split; [done|]. done.
Qed.

(** *** Rays: the rays through extreme points *)

Lemma get_layers_3 {A} (a : ndarray A) d n m lo hi :
  shape a = [d; n; m] → lo ≤ hi → hi ≤ d →
  shape (get_layers a lo hi) = [hi - lo; n; m] ∧
  ∀ k i j, k < hi - lo → i < n → j < m →
    getitem (get_layers a lo hi) [k; i; j] = getitem a [lo + k; i; j].
Proof.
  intros Hsh Hlo Hhi. unfold get_layers. rewrite Hsh.
  replace (hi `min` d) with hi by lia. replace (lo `min` hi) with lo by lia.
  split; [done|]. intros k i j Hk Hi Hj.
  rewrite (getitem_3 _ (hi - lo) n m), (getitem_3 _ d n m) by (done || lia).
  cbn [data tail size_of_shape foldr].
  assert (i * m + j < n * m) by nia.
  assert (k * (n * m) + n * m ≤ (hi - lo) * (n * m)) by nia.
  replace (m * 1) with m by lia.
  rewrite lookup_take_lt by lia. rewrite lookup_drop. f_equal. lia.
Qed.

Lemma wf_array_get_layers {A} (a : ndarray A) d n m lo hi :
  shape a = [d; n; m] → wf_array a → lo ≤ hi → hi ≤ d →
  wf_array (get_layers a lo hi).
Proof.
  intros Hsh Hwf Hlo Hhi. unfold wf_array in *. unfold get_layers.
  rewrite Hsh in *.
  replace (hi `min` d) with hi by lia. replace (lo `min` hi) with lo by lia.
  cbn [data shape tail size_of_shape foldr] in *.
  rewrite length_take, length_drop, Hwf.
  set (L := n * (m * 1)).
  assert (hi * L ≤ d * L) by (apply Nat.mul_le_mono_r; lia).
  assert (lo * L ≤ hi * L) by (apply Nat.mul_le_mono_r; lia).
  rewrite Nat.mul_sub_distr_r. lia.
Qed.

Lemma for_result_imap_cons {I St} (body : St → nat * I → result St) x (l : list I) t s :
  for_result body (imap (λ i, pair (t + i)) (x :: l)) s =
  body s (t, x) ≫= for_result body (imap (λ i, pair (S t + i)) l).
Proof.
  rewrite imap_cons. cbn [for_result]. rewrite Nat.add_0_r.
  rewrite (imap_ext _ (λ i, pair (S t + i)))
    by (intros; unfold compose; f_equal; lia).
  done.
Qed.

(** The loop of [gone_through_extreme_points] from its iteration [t] on:
    [out] tells of each ray whether it goes through an extreme point of one
    of the [t] first interior point-sets. *)
Lemma extreme_loop (interior : ndarray Z) (mids : list (@elem Points F)) cnt n m :
  shape interior = [cnt; n; m] → wf_array interior →
  length mids = cnt →
  (∀ k, k < cnt → ∃ q, mids !! k = Some (Pts q)) →
  ∀ l t out,
    drop t mids = l →
    shape out = [n; m] →
    (∀ i j, i < n → j < m →
       ∃ b, data out !! (i * m + j) = Some b ∧
            (b = true ↔
             ∃ k q z, k < t ∧ mids !! k = Some (Pts q) ∧
                      getitem interior [k; i; j] = Some z ∧
                      (z = 0 ∨ z = Z.of_nat (npoints q) - 1)%Z)) →
    ∃ out',
      for_result (extreme_body interior) (imap (λ i, pair (t + i)) l) out = Ok out' ∧
      shape out' = [n; m] ∧
      ∀ i j, i < n → j < m →
        ∃ b, data out' !! (i * m + j) = Some b ∧
             (b = true ↔
              ∃ k q z, k < cnt ∧ mids !! k = Some (Pts q) ∧
                       getitem interior [k; i; j] = Some z ∧
                       (z = 0 ∨ z = Z.of_nat (npoints q) - 1)%Z).
Proof.
  intros Hsh Hwf Hlen Hpts.
  induction l as [|x l IH]; intros t out Hdrop Hout Hinv.
  - exists out. split; [done|]. split; [done|].
    assert (cnt ≤ t) as Hge.
    { destruct (decide (cnt ≤ t)); [done|].
      assert (length (drop t mids) = 0) as Hl by (by rewrite Hdrop).
      rewrite length_drop in Hl. lia. }
    intros i j Hi Hj. destruct (Hinv i j Hi Hj) as (b & Hb & Hiff).
    exists b. split; [done|]. rewrite Hiff. split.
    + intros (k & q & z & Hk & Hq & Hrest). pose proof (lookup_lt_Some _ _ _ Hq).
      exists k, q, z. split; [lia|done].
    + intros (k & q & z & Hk & Hrest). exists k, q, z. split; [lia|done].
  - rewrite for_result_imap_cons.
    assert (mids !! t = Some x) as Hx.
    { rewrite <- (Nat.add_0_r t), <- lookup_drop, Hdrop. done. }
    pose proof (lookup_lt_Some _ _ _ Hx) as Ht.
    destruct (Hpts t ltac:(lia)) as (q & Hq).
    rewrite Hx in Hq. injection Hq as ->.
    destruct (get_layer_total interior cnt n m t Hsh ltac:(lia)) as [layer Hlayer].
    destruct (get_layer_Ok interior cnt n m t layer Hsh Hlayer) as (_ & Hlsh & Hldata).
    assert (extreme_body interior out (t, Pts q) =
            Ok (azip orb (azip orb out (amap (λ z, (z =? 0)%Z) layer))
                  (amap (λ z, (z =? Z.of_nat (npoints q) - 1)%Z) layer))) as ->.
    { unfold extreme_body. cbn [fst snd]. rewrite Hlayer. done. }
    cbn [mbind result_bind].
    apply IH.
    + replace (S t) with (t + 1) by lia. by rewrite <- drop_drop, Hdrop.
    + done.
    + intros i j Hi Hj. destruct (Hinv i j Hi Hj) as (b & Hb & Hiff).
      destruct (getitem_3_is_Some interior cnt n m t i j Hsh Hwf ltac:(lia) Hi Hj)
        as [z Hz].
      pose proof (Hldata i j Hi Hj) as Hlz. rewrite Hz in Hlz.
      exists (b || (z =? 0)%Z || (z =? Z.of_nat (npoints q) - 1)%Z).
      split.
      { unfold azip, amap. cbn [data shape].
        rewrite !lookup_zip_with, Hb, !list_lookup_fmap, Hlz. done. }
      rewrite !orb_true_iff, Hiff. split.
      * intros [[(k & q' & z' & Hk & Hrest)|Hz0]|Hz1].
        -- exists k, q', z'. split; [lia|done].
        -- exists t, q, z. split; [lia|]. split; [done|]. split; [done|]. lia.
        -- exists t, q, z. split; [lia|]. split; [done|]. split; [done|]. lia.
      * intros (k & q' & z' & Hk & Hq' & Hz' & Hor).
        destruct (decide (k = t)) as [->|Hne].
        -- rewrite Hx in Hq'. injection Hq' as <-.
           rewrite Hz in Hz'. injection Hz' as <-.
           destruct Hor; [left; right; lia | right; lia].
        -- left. left. exists k, q', z'. split; [lia|done].
Qed.

(** X11. For rays over a FermatPath of [d] point-sets, with [indices] of
    shape [d x n x m], [gone_through_extreme_points] returns an [n x m]
    array that is True at [(i, j)] exactly when, at one of the interior
    point-sets, the ray [(i, j)] goes through the point of rank 0 or the
    point of the last rank; the first and the last point-set do not
    count. *)
Theorem gone_through_extreme_points_spec (rays : Rays) n m :
  is_FermatPath (fermat_path rays) →
  shape (iarr (indices rays)) = [num_points_sets (fermat_path rays); n; m] →
  wf_array (iarr (indices rays)) →
  (∀ k, k < num_points_sets (fermat_path rays) →
        ∃ q, points (fermat_path rays) !! k = Some (Pts q)) →
  ∃ out,
    gone_through_extreme_points rays = Ok out ∧
    shape out = [n; m] ∧
    ∀ i j, i < n → j < m →
      ∃ b, getitem out [i; j] = Some b ∧
           (b = true ↔ through_extreme_point rays i j).
Proof.
  intros Hpath Hsh Hwf Hpts.
  pose proof Hpath as [Hodd Hlen]%is_FermatPath_length.
  pose proof (length_points_odd _ Hodd) as Hnp.
  set (d := num_points_sets (fermat_path rays)) in *.
  assert (2 ≤ d) as Hd by (unfold d, num_points_sets;
    pose proof (odd_length_div _ Hodd); lia).
  pose proof (get_layers_3 (iarr (indices rays)) d n m 1 (d - 1) Hsh
                ltac:(lia) ltac:(lia)) as [Hish Higet].
  pose proof (wf_array_get_layers (iarr (indices rays)) d n m 1 (d - 1) Hsh Hwf
                ltac:(lia) ltac:(lia)) as Hiwf.
  replace (d - 1 - 1) with (d - 2) in * by lia.
  unfold gone_through_extreme_points, interior_indices.
  cbn [iarr]. rewrite Hsh. cbn [head default from_option drop]. unfold id.
  set (interior := get_layers (iarr (indices rays)) 1 (d - 1)) in *.
  set (mids := py_interior (points (fermat_path rays))).
  assert (length mids = d - 2) as Hml
    by (unfold mids; rewrite length_py_interior; lia).
  assert (∀ k, k < d - 2 → mids !! k = points (fermat_path rays) !! S k) as Hmk
    by (intros k Hk; apply lookup_py_interior; lia).
  destruct (extreme_loop interior mids (d - 2) n m Hish Hiwf Hml) with
    (l := mids) (t := 0) (out := np_full [n; m] false)
    as (out & Hrun & Hosh & Hout).
  - intros k Hk. rewrite Hmk by done. apply Hpts. lia.
  - done.
  - done.
  - intros i j Hi Hj. exists false. split.
    + unfold np_full. cbn [data size_of_shape foldr].
      apply lookup_replicate_2. nia.
    + split; [done|]. intros (k & _ & _ & Hk & _). lia.
  - exists out.
    rewrite (imap_ext _ (λ i, pair (0 + i))) by done.
    split; [done|]. split; [done|].
    intros i j Hi Hj. destruct (Hout i j Hi Hj) as (b & Hb & Hiff).
    exists b. rewrite (getitem_2 _ n m) by done. split; [done|].
    rewrite Hiff. unfold through_extreme_point. fold d. split.
    + intros (k & q & z & Hk & Hq & Hz & Hor).
      exists (S k), q, z. split; [lia|]. split; [lia|].
      rewrite <- Hmk by done. split; [done|].
      pose proof (Higet k i j Hk Hi Hj) as E.
      change (1 + k) with (S k) in E. by rewrite <- E.
    + intros (k & q & z & Hk0 & Hk1 & Hq & Hz & Hor).
      destruct k as [|k]; [lia|].
      exists k, q, z. split; [lia|].
      rewrite Hmk by lia. split; [done|].
      pose proof (Higet k i j ltac:(lia) Hi Hj) as E.
      change (1 + k) with (S k) in E. by rewrite E.
Qed.

(** *** Rays: the coordinates of the rays *)

Lemma normalize_index_Ok (len : nat) (i : Z) (k : nat) :
  normalize_index len i = Ok k →
  k < len ∧ Z.of_nat k = (if (i <? 0)%Z then Z.of_nat len + i else i)%Z.
Proof.
  unfold normalize_index. destruct (_ && _)%Z eqn:Hb; [|done].
  intros [= <-]. apply andb_prop in Hb as [Hlo Hhi]. lia.
Qed.

Lemma py_index_normalize {A} (l : list A) (i : Z) (k : nat) (x : A) :
  normalize_index (length l) i = Ok k → l !! k = Some x → py_index l i = Ok x.
Proof.
  unfold normalize_index, py_index. destruct (_ && _)%Z; [|done].
  intros [= <-] Hx. by rewrite Hx.
Qed.

Lemma layer_Forall {A} (a : ndarray A) d n m k layer (P : A → Prop) :
  shape a = [d; n; m] → get_layer a k = Ok layer →
  (∀ i j z, i < n → j < m → getitem a [k; i; j] = Some z → P z) →
  Forall P (data layer).
Proof.
  intros Hsh Hlayer HP.
  destruct (get_layer_Ok a d n m k layer Hsh Hlayer) as (Hk & Hlsh & Hldata).
  apply Forall_lookup. intros p z Hp.
  assert (p < n * m) as Hlt.
  { pose proof (lookup_lt_Some _ _ _ Hp) as Hl.
    unfold get_layer in Hlayer. rewrite Hsh in Hlayer.
    destruct (k <? d); [|done]. injection Hlayer as <-.
    cbn [data size_of_shape foldr] in Hl. rewrite length_take in Hl. lia. }
  assert (m ≠ 0) as Hm by (intros ->; lia).
  pose proof (Nat.div_mod_eq p m) as Hdm.
  pose proof (Nat.mod_upper_bound p m Hm) as Hj.
  assert (p / m < n) as Hi by (apply Nat.Div0.div_lt_upper_bound; lia).
  apply (HP (p / m) (p mod m) z Hi Hj).
  rewrite <- Hldata by done.
  by replace (p / m * m + p mod m) with p by lia.
Qed.

(** The array [seq[idx]] of a layer [idx] of indices that are ranks of
    [seq]. *)
Lemma np_take_layer {A B} (a : ndarray Z) d n m k layer (l : list A) (f : A → B) :
  shape a = [d; n; m] → get_layer a k = Ok layer →
  (∀ i j z, i < n → j < m → getitem a [k; i; j] = Some z →
            (0 ≤ z < Z.of_nat (length l))%Z) →
  ∃ taken,
    np_take (f <$> l) layer = Ok taken ∧ shape taken = [n; m] ∧
    ∀ i j z, i < n → j < m → getitem a [k; i; j] = Some z →
      getitem taken [i; j] = f <$> l !! Z.to_nat z.
Proof.
  intros Hsh Hlayer Hin.
  destruct (get_layer_Ok a d n m k layer Hsh Hlayer) as (Hk & Hlsh & Hldata).
  destruct (np_take_total (f <$> l) layer) as [taken Htaken].
  { rewrite length_fmap. by eapply layer_Forall. }
  exists taken. split; [done|].
  apply np_take_Ok in Htaken as [Htsh Htdata]. rewrite Hlsh in Htsh.
  split; [done|]. intros i j z Hi Hj Hz.
  rewrite (getitem_2 _ n m) by done.
  pose proof (Hldata i j Hi Hj) as Hl. rewrite Hz in Hl.
  destruct (Htdata _ _ Hl) as (y & Hy & ->).
  pose proof (Hin i j z Hi Hj Hz) as Hrange.
  destruct (lookup_lt_is_Some_2 l (Z.to_nat z)) as [c Hc]; [lia|].
  rewrite Hc. cbn. f_equal.
  assert (py_index (f <$> l) z = Ok (f c)) as Hfc.
  { rewrite <- (Z2Nat.id z) by lia. apply py_index_nonneg.
    by rewrite list_lookup_fmap, Hc. }
  congruence.
Qed.

(** What [get_coordinates] yields for the point-set of rank [k]. *)
Lemma get_coordinates_at (rays : Rays) (n_interface : Z) d n m k q :
  shape (iarr (indices rays)) = [d; n; m] →
  wf_array (iarr (indices rays)) →
  length (points (fermat_path rays)) = d →
  normalize_index d n_interface = Ok k →
  points (fermat_path rays) !! k = Some (Pts q) →
  (∀ i j z, i < n → j < m → getitem (iarr (indices rays)) [k; i; j] = Some z →
            (0 ≤ z < Z.of_nat (npoints q))%Z) →
  ∃ x y z,
    get_coordinates rays n_interface = ([(x, y, z)], None) ∧
    shape x = [n; m] ∧ shape y = [n; m] ∧ shape z = [n; m] ∧
    ∀ i j, i < n → j < m →
      ∃ rank c,
        getitem (iarr (indices rays)) [k; i; j] = Some (Z.of_nat rank) ∧
        coords q !! rank = Some c ∧
        getitem x [i; j] = Some c.1.1 ∧
        getitem y [i; j] = Some c.1.2 ∧
        getitem z [i; j] = Some c.2.
Proof.
  intros Hsh Hwf Hlen Hni Hq Hin.
  pose proof (normalize_index_Ok _ _ _ Hni) as [Hk _].
  destruct (get_layer_total (iarr (indices rays)) d n m k Hsh Hk) as [layer Hlayer].
  destruct (np_take_layer (iarr (indices rays)) d n m k layer (coords q)
              (λ c, c.1.1) Hsh Hlayer Hin) as (x & Hx & Hxsh & Hxat).
  destruct (np_take_layer (iarr (indices rays)) d n m k layer (coords q)
              (λ c, c.1.2) Hsh Hlayer Hin) as (y & Hy & Hysh & Hyat).
  destruct (np_take_layer (iarr (indices rays)) d n m k layer (coords q)
              (λ c, c.2) Hsh Hlayer Hin) as (z & Hz & Hzsh & Hzat).
  exists x, y, z. split.
  - unfold get_coordinates.
    rewrite (py_index_normalize _ n_interface k (Pts q)) by (rewrite ?Hlen; done).
    unfold get_layer_py. rewrite Hsh, Hni. cbn [mbind result_bind].
    rewrite Hlayer.
    cbn [of_result mbind outcome_bind attr_x attr_y attr_z].
    rewrite Hx. cbn [of_result mbind outcome_bind].
    rewrite Hy. cbn [of_result mbind outcome_bind].
    rewrite Hz. done.
  - do 3 (split; [done|]). intros i j Hi Hj.
    destruct (getitem_3_is_Some (iarr (indices rays)) d n m k i j Hsh Hwf Hk Hi Hj)
      as [v Hv].
    pose proof (Hin i j v Hi Hj Hv) as Hrange.
    destruct (lookup_lt_is_Some_2 (coords q) (Z.to_nat v)) as [c Hc];
      [unfold npoints in Hrange; lia|].
    exists (Z.to_nat v), c.
    rewrite Z2Nat.id by lia. split; [done|]. split; [done|].
    rewrite (Hxat i j v), (Hyat i j v), (Hzat i j v), Hc by done. done.
Qed.

Lemma omap_seq_total {A} (f : nat → option A) (d : nat) :
  ∀ s, (∀ k, k < d → is_Some (f (s + k))) →
       length (omap f (seq s d)) = d ∧
       ∀ k, k < d → omap f (seq s d) !! k = f (s + k).
Proof.
  induction d as [|d IH]; intros s Hf.
  - split; [done|]. intros k Hk. lia.
  - cbn [seq].
    destruct (Hf 0 ltac:(lia)) as [v Hv]. rewrite Nat.add_0_r in Hv.
    destruct (IH (S s)) as [Hl Hk].
    { intros k Hk. replace (S s + k) with (s + S k) by lia. apply Hf. lia. }
    assert (omap f (s :: seq (S s) d) = v :: omap f (seq (S s) d)) as ->
      by (cbn; by rewrite Hv).
    split; [cbn [length]; by rewrite Hl|].
    intros [|k] Hlt.
    + by rewrite Nat.add_0_r.
    + rewrite lookup_cons, Hk by lia. f_equal. lia.
Qed.

Lemma for_outcome_imap_cons {I St} (body : St → nat * I → outcome St)
    x (l : list I) t s :
  for_outcome body (imap (λ i, pair (t + i)) (x :: l)) s =
  body s (t, x) ≫= for_outcome body (imap (λ i, pair (S t + i)) l).
Proof.
  rewrite imap_cons. cbn [for_outcome]. rewrite Nat.add_0_r.
  rewrite (imap_ext _ (λ i, pair (S t + i)))
    by (intros; unfold compose; f_equal; lia).
  done.
Qed.

Lemma setitem_Ok {A} (l : list A) (i : nat) (v : A) :
  i < length l → setitem l i v = Ok (<[i := v]> l).
Proof. intros Hi. unfold setitem. by assert ((i <? length l) = true) as -> by lia. Qed.

(** The loop of [get_coordinates_one] from its iteration [t] on: the [t]
    first elements of the three arrays hold the coordinates of the points
    the ray goes through. *)
Lemma coordinates_loop (pts : list (@elem Points F)) (col : list Z) (d : nat) :
  length pts = d → length col = d →
  (∀ k, k < d → ∃ q v, pts !! k = Some (Pts q) ∧ col !! k = Some v ∧
                       (0 ≤ v < Z.of_nat (npoints q))%Z) →
  ∀ l t x y z,
    drop t (zip pts col) = l →
    length x = d → length y = d → length z = d →
    (∀ k, k < t →
       ∃ q rank c, pts !! k = Some (Pts q) ∧ col !! k = Some (Z.of_nat rank) ∧
                   coords q !! rank = Some c ∧
                   x !! k = Some c.1.1 ∧ y !! k = Some c.1.2 ∧ z !! k = Some c.2) →
    ∃ x' y' z',
      for_outcome coordinates_one_body (imap (λ i, pair (t + i)) l) (x, y, z)
        = Returns (x', y', z') ∧
      length x' = d ∧ length y' = d ∧ length z' = d ∧
      ∀ k, k < d →
        ∃ q rank c, pts !! k = Some (Pts q) ∧ col !! k = Some (Z.of_nat rank) ∧
                    coords q !! rank = Some c ∧
                    x' !! k = Some c.1.1 ∧ y' !! k = Some c.1.2 ∧ z' !! k = Some c.2.
Proof.
  intros Hlp Hlc Hin.
  assert (length (zip pts col) = d) as Hlz by (rewrite length_zip; lia).
  induction l as [|e l IH]; intros t x y z Hdrop Hx Hy Hz Hinv.
  - exists x, y, z. split; [done|]. do 3 (split; [done|]).
    assert (d ≤ t) as Hge.
    { destruct (decide (d ≤ t)); [done|].
      assert (length (drop t (zip pts col)) = 0) as Hl by (by rewrite Hdrop).
      rewrite length_drop in Hl. lia. }
    intros k Hk. apply Hinv. lia.
  - rewrite for_outcome_imap_cons.
    assert (zip pts col !! t = Some e) as He.
    { rewrite <- (Nat.add_0_r t), <- lookup_drop, Hdrop. done. }
    pose proof (lookup_lt_Some _ _ _ He) as Ht. rewrite Hlz in Ht.
    destruct (Hin t Ht) as (q & v & Hq & Hv & Hrange).
    assert (e = (Pts q, v)) as ->.
    { rewrite lookup_zip_with, Hq, Hv in He. cbn in He. congruence. }
    destruct (lookup_lt_is_Some_2 (coords q) (Z.to_nat v)) as [c Hc];
      [unfold npoints in Hrange; lia|].
    assert (∀ {B} (f : F * F * F → B),
              py_index (f <$> coords q) v = Ok (f c)) as Hidx.
    { intros B f. rewrite <- (Z2Nat.id v) by lia. apply py_index_nonneg.
      by rewrite list_lookup_fmap, Hc. }
    assert (coordinates_one_body (x, y, z) (t, (Pts q, v)) =
            Returns (<[t := c.1.1]> x, <[t := c.1.2]> y, <[t := c.2]> z)) as ->.
    { unfold coordinates_one_body.
      cbn [fst snd attr_x attr_y attr_z mbind outcome_bind].
      rewrite !Hidx. cbn [of_result mbind outcome_bind].
      rewrite !setitem_Ok by lia. done. }
    cbn [mbind outcome_bind].
    apply IH.
    + replace (S t) with (t + 1) by lia. by rewrite <- drop_drop, Hdrop.
    + by rewrite length_insert.
    + by rewrite length_insert.
    + by rewrite length_insert.
    + intros k Hk. destruct (decide (k = t)) as [->|Hne].
      * exists q, (Z.to_nat v), c. rewrite Z2Nat.id by lia.
        rewrite !list_lookup_insert_eq by lia. done.
      * destruct (Hinv k ltac:(lia)) as (q' & rank & c' & H1 & H2 & H3 & H4 & H5 & H6).
        exists q', rank, c'. rewrite !list_lookup_insert_ne by done. done.
Qed.

(** What [get_coordinates_one] returns for the ray [(i, j)]. *)
Lemma get_coordinates_one_at (rays : Rays) (start_index end_index : Z) n m i j :
  is_FermatPath (fermat_path rays) →
  shape (iarr (indices rays)) = [num_points_sets (fermat_path rays); n; m] →
  normalize_index n start_index = Ok i →
  normalize_index m end_index = Ok j →
  (∀ k, k < num_points_sets (fermat_path rays) →
     ∃ q v, points (fermat_path rays) !! k = Some (Pts q) ∧
            getitem (iarr (indices rays)) [k; i; j] = Some v ∧
            (0 ≤ v < Z.of_nat (npoints q))%Z) →
  ∃ x y z,
    get_coordinates_one rays start_index end_index = Returns (x, y, z) ∧
    length x = num_points_sets (fermat_path rays) ∧
    length y = num_points_sets (fermat_path rays) ∧
    length z = num_points_sets (fermat_path rays) ∧
    ∀ k, k < num_points_sets (fermat_path rays) →
      ∃ q rank c,
        points (fermat_path rays) !! k = Some (Pts q) ∧
        getitem (iarr (indices rays)) [k; i; j] = Some (Z.of_nat rank) ∧
        coords q !! rank = Some c ∧
        x !! k = Some c.1.1 ∧ y !! k = Some c.1.2 ∧ z !! k = Some c.2.
Proof.
  intros Hpath Hsh Hi Hj Hin.
  pose proof Hpath as [Hodd Hlen]%is_FermatPath_length.
  pose proof (length_points_odd _ Hodd) as Hnp.
  set (d := num_points_sets (fermat_path rays)) in *.
  set (a := iarr (indices rays)) in *.
  destruct (omap_seq_total (λ k, getitem a [k; i; j]) d 0) as [Hcl Hck].
  { intros k Hk. destruct (Hin k Hk) as (q & v & _ & Hv & _).
    change (is_Some (getitem a [k; i; j])). by rewrite Hv. }
  set (col := omap (λ k, getitem a [k; i; j]) (seq 0 d)) in *.
  destruct (coordinates_loop (points (fermat_path rays)) col d Hnp Hcl) with
    (l := zip (points (fermat_path rays)) col) (t := 0)
    (x := replicate d (fzero : F)) (y := replicate d (fzero : F))
    (z := replicate d (fzero : F))
    as (x & y & z & Hrun & Hx & Hy & Hz & Hout).
  - intros k Hk. destruct (Hin k Hk) as (q & v & Hq & Hv & Hrange).
    exists q, v. rewrite Hck by done. done.
  - done.
  - apply length_replicate.
  - apply length_replicate.
  - apply length_replicate.
  - intros k Hk. lia.
  - exists x, y, z. split.
    + unfold get_coordinates_one. fold a. unfold get_column. rewrite Hsh, Hi, Hj.
      cbn [mbind result_bind of_result outcome_bind]. fold col. fold d.
      rewrite (imap_ext _ (λ i, pair (0 + i))) by done. done.
    + do 3 (split; [done|]). intros k Hk.
      destruct (Hout k Hk) as (q & rank & c & H1 & H2 & H3 & H4).
      exists q, rank, c. rewrite Hck in H2 by done. done.
Qed.

Lemma normalize_index_range (len : nat) (i : Z) :
  (- Z.of_nat len ≤ i < Z.of_nat len)%Z →
  normalize_index len i = Ok (Z.to_nat (i mod Z.of_nat len)).
Proof.
  intros Hi. unfold normalize_index.
  destruct (i <? 0)%Z eqn:Hneg.
  - assert (((0 <=? Z.of_nat len + i) && (Z.of_nat len + i <? Z.of_nat len))%Z = true)
      as -> by (apply andb_true_intro; split; lia).
    do 2 f_equal.
    rewrite <- (Z.mod_small (Z.of_nat len + i) (Z.of_nat len)) by lia.
    rewrite <- (Z.mod_add i 1 (Z.of_nat len)) by lia. f_equal. lia.
  - assert (((0 <=? i) && (i <? Z.of_nat len))%Z = true)
      as -> by (apply andb_true_intro; split; lia).
    by rewrite Z.mod_small by lia.
Qed.

(** X12. For rays with [indices] of shape [d x n x m] over a path of [d]
    point-sets, [get_coordinates(k)] with [-d <= k < d], a negative [k]
    counting from the last point-set, yields once, three [n x m] arrays:
    at [(i, j)], the coordinates of the point of that point-set whose rank
    is [indices[k, i, j]], when these ranks are within the point-set. *)
Theorem get_coordinates_spec (rays : Rays) (n_interface : Z) d n m q :
  let k := Z.to_nat (n_interface mod Z.of_nat d) in
  shape (iarr (indices rays)) = [d; n; m] →
  wf_array (iarr (indices rays)) →
  length (points (fermat_path rays)) = d →
  (- Z.of_nat d ≤ n_interface < Z.of_nat d)%Z →
  points (fermat_path rays) !! k = Some (Pts q) →
  (∀ i j z, i < n → j < m → getitem (iarr (indices rays)) [k; i; j] = Some z →
            (0 ≤ z < Z.of_nat (npoints q))%Z) →
  ∃ x y z,
    get_coordinates rays n_interface = ([(x, y, z)], None) ∧
    shape x = [n; m] ∧ shape y = [n; m] ∧ shape z = [n; m] ∧
    ∀ i j, i < n → j < m →
      ∃ rank c,
        getitem (iarr (indices rays)) [k; i; j] = Some (Z.of_nat rank) ∧
        coords q !! rank = Some c ∧
        getitem x [i; j] = Some c.1.1 ∧
        getitem y [i; j] = Some c.1.2 ∧
        getitem z [i; j] = Some c.2.
Proof.
  intros k Hsh Hwf Hlen Hrange Hq Hin.
  apply (get_coordinates_at rays n_interface d n m k q); try done.
  by apply normalize_index_range.
Qed.

(** X13. For rays with [indices] of shape [d x n x m] over a FermatPath of
    [d] point-sets, [get_coordinates_one(start, end)], where negative
    indices count from the last, returns three arrays of [d] elements: at
    [k], the coordinates of the point of the [k]-th point-set whose rank is
    [indices[k, start, end]], when these ranks are within the point-sets.
    This is what [get_coordinates(k)] holds at [(start, end)]. *)
Theorem get_coordinates_one_spec (rays : Rays) (start_index end_index : Z) n m :
  let i := Z.to_nat (start_index mod Z.of_nat n) in
  let j := Z.to_nat (end_index mod Z.of_nat m) in
  is_FermatPath (fermat_path rays) →
  shape (iarr (indices rays)) = [num_points_sets (fermat_path rays); n; m] →
  (- Z.of_nat n ≤ start_index < Z.of_nat n)%Z →
  (- Z.of_nat m ≤ end_index < Z.of_nat m)%Z →
  (∀ k, k < num_points_sets (fermat_path rays) →
     ∃ q v, points (fermat_path rays) !! k = Some (Pts q) ∧
            getitem (iarr (indices rays)) [k; i; j] = Some v ∧
            (0 ≤ v < Z.of_nat (npoints q))%Z) →
  ∃ x y z,
    get_coordinates_one rays start_index end_index = Returns (x, y, z) ∧
    length x = num_points_sets (fermat_path rays) ∧
    length y = num_points_sets (fermat_path rays) ∧
    length z = num_points_sets (fermat_path rays) ∧
    ∀ k, k < num_points_sets (fermat_path rays) →
      ∃ q rank c,
        points (fermat_path rays) !! k = Some (Pts q) ∧
        getitem (iarr (indices rays)) [k; i; j] = Some (Z.of_nat rank) ∧
        coords q !! rank = Some c ∧
        x !! k = Some c.1.1 ∧ y !! k = Some c.1.2 ∧ z !! k = Some c.2.
Proof.
  intros i j Hpath Hsh Hi Hj Hin.
  apply (get_coordinates_one_at rays start_index end_index n m i j); try done.
  - by apply normalize_index_range.
  - by apply normalize_index_range.
Qed.

(** The two ends of the array [make_indices] builds. *)
Lemma make_indices_ends (interior : iarray) dm2 n m i j :
  shape (iarr interior) = [dm2; n; m] → wf_array (iarr interior) →
  i < n → j < m →
  let a := NDArray [dm2 + 2; n; m]
             ((astype (idtype interior) <$> repeat_arange n m) ++
              data (iarr interior) ++
              (astype (idtype interior) <$> tile_arange m n)) in
  getitem a [0; i; j] = Some (astype (idtype interior) (Z.of_nat i)) ∧
  getitem a [dm2 + 1; i; j] = Some (astype (idtype interior) (Z.of_nat j)).
Proof.
  intros Hsh Hwf Hi Hj a.
  unfold wf_array in Hwf. rewrite Hsh in Hwf. cbn [size_of_shape foldr] in Hwf.
  assert (i * m + j < n * m) as Hpos by nia.
  rewrite !(getitem_3 a (dm2 + 2) n m) by (done || lia).
  unfold a. cbn [data]. split.
  - replace (0 * (n * (m * 1)) + (i * m + j)) with (i * m + j) by lia.
    rewrite lookup_app_l by (rewrite length_fmap, length_repeat_arange; lia).
    by rewrite list_lookup_fmap, lookup_repeat_arange by done.
  - rewrite lookup_app_r by (rewrite length_fmap, length_repeat_arange; lia).
    rewrite length_fmap, length_repeat_arange.
    rewrite lookup_app_r by lia.
    replace ((dm2 + 1) * (n * (m * 1)) + (i * m + j) - n * m -
             length (data (iarr interior))) with (i * m + j) by lia.
    by rewrite list_lookup_fmap, lookup_tile_arange by done.
Qed.

(** X14. The rays of a constructed [Rays] start and end where they
    should: when the first and the last point-set have no more points than
    the dtype of the indices can number, [get_coordinates(0)] holds at
    [(i, j)] the coordinates of the [i]-th point of the first point-set,
    and [get_coordinates(-1)] those of the [j]-th point of the last. *)
Theorem rays_start_and_end self (times_in : ndarray F) (interior : iarray)
    (path : FermatPath) (rays : Rays) pts_first pts_last :
  Rays_init self times_in interior path = Ok rays →
  wf_array (iarr interior) →
  is_FermatPath path →
  head (points path) = Some (Pts pts_first) →
  last (points path) = Some (Pts pts_last) →
  (Z.of_nat (npoints pts_first) ≤ 2 ^ Z.of_nat (bits (idtype interior)))%Z →
  (Z.of_nat (npoints pts_last) ≤ 2 ^ Z.of_nat (bits (idtype interior)))%Z →
  ∃ x y z x' y' z',
    get_coordinates rays 0 = ([(x, y, z)], None) ∧
    get_coordinates rays (-1) = ([(x', y', z')], None) ∧
    ∀ i j c c',
      coords pts_first !! i = Some c → coords pts_last !! j = Some c' →
      getitem x [i; j] = Some c.1.1 ∧ getitem y [i; j] = Some c.1.2 ∧
      getitem z [i; j] = Some c.2 ∧
      getitem x' [i; j] = Some c'.1.1 ∧ getitem y' [i; j] = Some c'.1.2 ∧
      getitem z' [i; j] = Some c'.2.
Proof.
  intros Hinit Hwf Hpath Hfirst Hlast Hfn Hfm.
  pose proof Hpath as [Hodd Hlen]%is_FermatPath_length.
  pose proof (length_points_odd _ Hodd) as Hnp.
  apply Rays_init_Ok in Hinit
    as (dm2 & n & m & indices_out & Ht & Hsh & Hn & Hm & Hd & Hkind & Hmk & ->).
  apply first_len_Ok in Hn as (q1 & Hq1 & <-).
  apply last_len_Ok in Hm as (q2 & Hq2 & <-).
  rewrite Hfirst in Hq1. injection Hq1 as <-.
  rewrite Hlast in Hq2. injection Hq2 as <-.
  rewrite (make_indices_Ok _ dm2 _ _ Hsh Hwf) in Hmk. injection Hmk as <-.
  set (n := npoints pts_first) in *. set (m := npoints pts_last) in *.
  set (rays := MkRays self times_in _ path).
  assert (shape (iarr (indices rays)) = [dm2 + 2; n; m]) as Hrsh by done.
  assert (wf_array (iarr (indices rays))) as Hrwf.
  { unfold wf_array in *. cbn [rays indices _indices iarr shape data].
    rewrite Hsh in Hwf. cbn [size_of_shape foldr] in *.
    rewrite !length_app, !length_fmap, length_repeat_arange, length_tile_arange, Hwf.
    lia. }
  assert (length (points (fermat_path rays)) = dm2 + 2) as Hrlen
    by (cbn [rays fermat_path _fermat_path]; lia).
  assert (∀ i j, i < n → j < m →
            getitem (iarr (indices rays)) [0; i; j] = Some (Z.of_nat i) ∧
            getitem (iarr (indices rays)) [dm2 + 1; i; j] = Some (Z.of_nat j))
    as Hends.
  { intros i j Hi Hj.
    destruct (make_indices_ends interior dm2 n m i j Hsh Hwf Hi Hj) as [Hz0 Hz1].
    cbn [rays indices _indices iarr].
    rewrite Hz0, Hz1, !astype_unsigned_small by (done || lia). done. }
  destruct (get_coordinates_at rays 0 (dm2 + 2) n m 0 pts_first Hrsh Hrwf Hrlen)
    as (x & y & z & Hrun & _ & _ & _ & Hat).
  { unfold normalize_index. cbn [Z.ltb Z.compare].
    by assert (((0 <=? 0) && (0 <? Z.of_nat (dm2 + 2)))%Z = true) as ->
      by (apply andb_true_intro; split; lia). }
  { by rewrite <- head_lookup. }
  { intros i j v Hi Hj Hv. destruct (Hends i j Hi Hj) as [Hz0 _].
    rewrite Hz0 in Hv. injection Hv as <-. fold n. lia. }
  destruct (get_coordinates_at rays (-1) (dm2 + 2) n m (dm2 + 1) pts_last
              Hrsh Hrwf Hrlen)
    as (x' & y' & z' & Hrun' & _ & _ & _ & Hat').
  { rewrite (normalize_index_range (dm2 + 2) (-1)) by lia.
    do 2 f_equal.
    rewrite <- (Z.mod_add (-1) 1 (Z.of_nat (dm2 + 2))) by lia.
    rewrite Z.mod_small by lia. lia. }
  { cbn [rays fermat_path _fermat_path].
    rewrite last_lookup, Hnp, Hd in Hlast.
    by replace (pred (dm2 + 2)) with (dm2 + 1) in Hlast by lia. }
  { intros i j v Hi Hj Hv. destruct (Hends i j Hi Hj) as [_ Hz1].
    rewrite Hz1 in Hv. injection Hv as <-. fold m. lia. }
  exists x, y, z, x', y', z'. split; [done|]. split; [done|].
  intros i j c c' Hc Hc'.
  pose proof (lookup_lt_Some _ _ _ Hc) as Hi.
  pose proof (lookup_lt_Some _ _ _ Hc') as Hj.
  destruct (Hends i j Hi Hj) as [Hz0 Hz1].
  destruct (Hat i j Hi Hj) as (r0 & c0 & Hr0 & Hc0 & Hx & Hy & Hz).
  destruct (Hat' i j Hi Hj) as (r1 & c1 & Hr1 & Hc1 & Hx' & Hy' & Hz').
  rewrite Hz0 in Hr0. rewrite Hz1 in Hr1.
  assert (r0 = i) as -> by (injection Hr0; lia).
  assert (r1 = j) as -> by (injection Hr1; lia).
  rewrite Hc in Hc0. rewrite Hc' in Hc1.
  injection Hc0 as <-. injection Hc1 as <-. done.
Qed.

(** *** The solver: what a call changes *)

Lemma solver_grows_refl (st : FermatSolver) : solver_grows st st.
Proof. unfold solver_grows. repeat split; done. Qed.

Lemma solver_grows_trans (st1 st2 st3 : FermatSolver) :
  solver_grows st1 st2 → solver_grows st2 st3 → solver_grows st1 st3.
Proof.
  intros (H1 & H2 & H3 & H4 & H5 & H6) (G1 & G2 & G3 & G4 & G5 & G6).
  unfold solver_grows.
  split; [congruence|]. split; [by etrans|]. split; [by etrans|]. lia.
Qed.

(** A call that raises and leaves the solver as it was. *)
Lemma solve_effects_unchanged (path : FermatPath) st e :
  solve_effects path st (Raise e) st.
Proof.
  split; [apply solver_grows_refl|].
  split; [intros q Hn [x Hx]; congruence|].
  split; [intros a b d Hn Hs; congruence|]. done.
Qed.

(** What a call of [consecutive_times] changes, whatever its outcome. *)
Lemma consecutive_times_effects (path : FermatPath) st out st' :
  length path = 3 →
  consecutive_times path st = Some (out, st') →
  solver_grows st st' ∧
  cached_result st' = cached_result st ∧
  num_minimization st' = num_minimization st ∧
  num_euc_distance st' ≤ S (num_euc_distance st) ∧
  (∀ a b d, cached_distance st !! (a, b) = None →
            cached_distance st' !! (a, b) = Some d →
            d = distance_pairwise a b ∧ adjacent path a b) ∧
  (∀ rays, out = Ok rays → constructed_for path rays).
Proof.
  intros Hlen Hrun.
  destruct (consecutive_times_cases _ _ _ _ Hlen Hrun)
    as [(points1 & speed & points2 & ->)|(-> & e & ->)].
  2:{ split; [apply solver_grows_refl|]. do 2 (split; [done|]). split; [lia|].
      split; [|done]. intros a b d Hn Hs. congruence. }
  rewrite consecutive_times_eq in Hrun. cbn zeta in Hrun.
  injection Hrun as Hinit <-.
  split; [|split; [|split; [|split; [|split]]]].
  - destruct (cached_distance st !! (points1, points2)) eqn:Hc; cbn [fst snd].
    + unfold solver_grows. cbn. repeat split; (done || lia).
    + unfold solver_grows. cbn. repeat split; try (done || lia).
      by apply insert_subseteq.
  - by destruct (cached_distance st !! (points1, points2)).
  - by destruct (cached_distance st !! (points1, points2)).
  - destruct (cached_distance st !! (points1, points2)); cbn; lia.
  - intros a b d Hn Hs.
    destruct (cached_distance st !! (points1, points2)) eqn:Hc; cbn in Hs.
    + congruence.
    + destruct (decide ((points1, points2) = (a, b))) as [[= <- <-]|Hne].
      * rewrite lookup_insert_eq in Hs. injection Hs as <-.
        split; [done|]. by exists 0.
      * rewrite lookup_insert_ne in Hs by done. congruence.
  - intros rays ->. unfold constructed_for. eauto.
Qed.

Lemma split_queue_odd (path head tail : FermatPath) :
  split_queue path = Ok (head, tail) → length path mod 2 = 1.
Proof.
  unfold split_queue. destruct (length path <? 5) eqn:Hlen; [done|].
  intros Hs.
  apply bind_Ok in Hs as (h & Hh%FermatPath_new_Ok & _).
  destruct Hh as (_ & Hodd & _).
  rewrite length_take_le in Hodd by lia.
  rewrite mod_2_sub_2 in Hodd by lia. done.
Qed.

Lemma adjacent_head (path : FermatPath) n a b :
  adjacent (take n path) a b → adjacent path a b.
Proof.
  intros (k & Ha & Hb). exists k. rewrite !lookup_points in *.
  apply lookup_take_Some in Ha as [Ha _]. apply lookup_take_Some in Hb as [Hb _].
  done.
Qed.

Lemma adjacent_tail (path : FermatPath) a b :
  length path mod 2 = 1 → 3 ≤ length path →
  adjacent (drop (length path - 3) path) a b → adjacent path a b.
Proof.
  intros Hodd Hlen (k & Ha & Hb).
  pose proof (odd_length_div _ Hodd) as Hdiv.
  exists (length path / 2 - 1 + k). rewrite !lookup_points in *.
  rewrite lookup_drop in Ha, Hb.
  replace (2 * (length path / 2 - 1 + k)) with (length path - 3 + 2 * k) by lia.
  replace (2 * S (length path / 2 - 1 + k)) with (length path - 3 + 2 * S k) by lia.
  done.
Qed.

(** The effects of the two recursive calls of [_solve], one after the
    other, as effects on the path they split. *)
Lemma solve_effects_split (path : FermatPath) st out1 st1 out2 st2 e :
  length path mod 2 = 1 → 5 ≤ length path →
  solve_effects (take (length path - 2) path) st out1 st1 →
  solve_effects (drop (length path - 3) path) st1 out2 st2 →
  solve_effects path st (Raise e) st2 ∧
  (cached_result st !! path = None → cached_result st2 !! path = None).
Proof.
  intros Hodd Hlen (Hg1 & Hk1 & Hd1 & Hc1) (Hg2 & Hk2 & Hd2 & Hc2).
  assert (∀ q, cached_result st1 !! q = None → cached_result st2 !! q = None) as Hk2'.
  { intros q Hn. destruct (cached_result st2 !! q) eqn:Hq; [|done].
    destruct (Hk2 q Hn ltac:(by rewrite Hq)) as [Hp Hl].
    apply prefix_length in Hp. rewrite length_drop in Hp. lia. }
  split; [split; [|split; [|split]]|].
  - by eapply solver_grows_trans.
  - intros q Hn Hs.
    destruct (cached_result st1 !! q) eqn:Hq.
    + destruct (Hk1 q Hn ltac:(by rewrite Hq)) as [Hp Hl].
      split; [|done]. etrans; [done|]. apply prefix_take.
    + rewrite (Hk2' q Hq) in Hs. by destruct Hs.
  - intros a b d Hn Hs.
    destruct (cached_distance st1 !! (a, b)) as [d'|] eqn:Hq.
    + destruct Hg2 as (_ & Hsub & _).
      rewrite (lookup_weaken _ _ _ _ Hq Hsub) in Hs. injection Hs as <-.
      destruct (Hd1 a b d' Hn Hq) as [-> Hadj].
      split; [done|]. by eapply adjacent_head.
    + destruct (Hd2 a b d Hq Hs) as [-> Hadj].
      split; [done|]. apply adjacent_tail; [done | lia | done].
  - intros Hcon. split; [|done]. apply Hc2. by apply Hc1.
  - intros Hn. apply Hk2'.
    destruct (cached_result st1 !! path) eqn:Hq; [|done].
    destruct (Hk1 path Hn ltac:(by rewrite Hq)) as [Hp Hl].
    apply prefix_length in Hp. rewrite length_take in Hp. lia.
Qed.

(** Effects that hold up to a state hold in a state with the same caches
    and counters that are not lower. *)
Lemma solve_effects_bump (path : FermatPath) st st2 st3 e e' :
  solve_effects path st (Raise e) st2 →
  dtype_indices st3 = dtype_indices st2 →
  cached_distance st3 = cached_distance st2 →
  cached_result st3 = cached_result st2 →
  num_minimization st2 ≤ num_minimization st3 →
  num_euc_distance st2 ≤ num_euc_distance st3 →
  next_id st2 ≤ next_id st3 →
  solve_effects path st (Raise e') st3.
Proof.
  intros ((G1 & G2 & G3 & G4 & G5 & G6) & Hk & Hd & Hc) Hdt Hcd Hcr Hnm Hne Hid.
  split; [|split; [|split]].
  - unfold solver_grows. rewrite Hdt, Hcd, Hcr. repeat split; (done || lia).
  - intros q. rewrite Hcr. apply Hk.
  - intros a b d. rewrite Hcd. apply Hd.
  - intros Hcon. split; [|done]. intros q rays. rewrite Hcr. by apply Hc.
Qed.

Lemma _solve_fuel_effects fuel :
  ∀ (path : FermatPath) st out st',
    _solve_fuel fuel path st = Some (out, st') → solve_effects path st out st'.
Proof.
  induction fuel as [|fuel IH]; intros path st out st' Hrun; [done|].
  rewrite _solve_fuel_eq in Hrun.
  destruct (cached_result st !! path) as [cached|] eqn:Hc.
  { injection Hrun as <- <-. split; [apply solver_grows_refl|].
    split; [intros q Hn [x Hx]; congruence|].
    split; [intros a b d Hn Hs; congruence|].
    intros Hcon. split; [done|]. intros rays [= <-]. by apply Hcon. }
  destruct (length path =? 3) eqn:Hlen.
  { apply Nat.eqb_eq in Hlen.
    destruct (consecutive_times_effects _ _ _ _ Hlen Hrun)
      as (Hg & Hcr & _ & _ & Hd & Hres).
    split; [done|].
    split; [intros q Hn [x Hx]; congruence|].
    split; [done|].
    intros Hcon. split; [|done]. intros q rays. rewrite Hcr. apply Hcon. }
  apply Nat.eqb_neq in Hlen.
  apply M_bind_Some in Hrun
    as [([head tail] & ? & [= Hsplit <-] & Hrun)|(e & [= _ ->] & ->)].
  2:{ apply solve_effects_unchanged. }
  pose proof (split_queue_odd _ _ _ Hsplit) as Hodd.
  apply split_queue_Ok in Hsplit as (Hge & -> & ->). cbn [fst snd] in Hrun.
  apply M_bind_Some in Hrun as [(res_head & st1 & Hhead & Hrun)|(e & Hhead & ->)].
  2:{ apply IH in Hhead.
      destruct (solve_effects_split path st _ _ (Raise e) st' e Hodd Hge Hhead
                  (solve_effects_unchanged _ _ _)) as [Heff _].
      done. }
  apply IH in Hhead.
  apply M_bind_Some in Hrun as [(res_tail & st2 & Htail & Hrun)|(e & Htail & ->)].
  2:{ apply IH in Htail.
      by destruct (solve_effects_split path st _ _ _ _ e Hodd Hge Hhead Htail). }
  apply IH in Htail.
  destruct (solve_effects_split path st _ _ _ _ ValueError Hodd Hge Hhead Htail)
    as [Heff Hmiss].
  specialize (Hmiss Hc).
  apply M_bind_Some in Hrun as [([] & ? & [= <-] & Hrun)|(e & [=] & _)].
  apply M_bind_Some in Hrun as [(dt & ? & [= <- <-] & Hrun)|(e & [=] & _)].
  apply M_bind_Some in Hrun as [(ti & ? & [= Hfmt <-] & Hrun)|(e & [= _ <-] & ->)].
  2:{ eapply solve_effects_bump; [done|..]; cbn; (done || lia). }
  apply M_bind_Some in Hrun as [([] & ? & [= _ <-] & Hrun)|(e & [= _ <-] & ->)].
  2:{ eapply solve_effects_bump; [done|..]; cbn; (done || lia). }
  apply M_bind_Some in Hrun
    as [(indices_in & ? & [= Hexp <-] & Hrun)|(e & [= _ <-] & ->)].
  2:{ eapply solve_effects_bump; [done|..]; cbn; (done || lia). }
  unfold Rays_new in Hrun.
  apply M_bind_Some in Hrun as [(rays & st4 & Hnew & Hrun)|(e & Hnew & ->)].
  2:{ apply M_bind_Some in Hnew as [(self & ? & [= <- <-] & Hnew)|(? & [=] & _)].
      apply M_bind_Some in Hnew as [([] & ? & [= <-] & [= _ <-])|(? & [=] & _)].
      eapply solve_effects_bump; [done|..]; cbn; (done || lia). }
  apply M_bind_Some in Hnew as [(self & ? & [= <- <-] & Hnew)|(? & [=] & _)].
  apply M_bind_Some in Hnew as [([] & ? & [= <-] & [= Hinit <-])|(? & [=] & _)].
  apply M_bind_Some in Hrun as [([] & ? & [= <-] & [= <- <-])|(? & [=] & _)].
  destruct Heff as ((G1 & G2 & G3 & G4 & G5 & G6) & Hk & Hd & Hcon).
  assert (constructed_for path rays) as Hrays by (unfold constructed_for; eauto).
  split; [|split; [|split]].
  - unfold solver_grows. cbn. repeat split; try (done || lia).
    etrans; [done|]. by apply insert_subseteq.
  - intros q Hn Hs. cbn in Hs.
    destruct (decide (path = q)) as [<-|Hne]; [split; [done|lia]|].
    rewrite lookup_insert_ne in Hs by done. by apply Hk.
  - intros a b d. cbn. apply Hd.
  - intros Hcon0. split; [|by intros ? [= <-]].
    intros q rays'. cbn.
    destruct (decide (path = q)) as [<-|Hne].
    + rewrite lookup_insert_eq. by intros [= <-].
    + rewrite lookup_insert_ne by done. by apply Hcon.
Qed.

(** X15. A call of [_solve], whatever its outcome, never changes the dtype
    of the indices, never removes or replaces an entry of the two caches,
    and never lowers a counter. *)
Theorem _solve_frame (path : FermatPath) st out st' :
  _solve path st = Some (out, st') →
  dtype_indices st' = dtype_indices st ∧
  (∀ key distance, cached_distance st !! key = Some distance →
                   cached_distance st' !! key = Some distance) ∧
  (∀ q rays, cached_result st !! q = Some rays →
             cached_result st' !! q = Some rays) ∧
  num_minimization st ≤ num_minimization st' ∧
  num_euc_distance st ≤ num_euc_distance st' ∧
  next_id st ≤ next_id st'.
Proof.
  intros Hrun. apply _solve_fuel_effects in Hrun as ((G1 & G2 & G3 & G4) & _).
  split; [done|].
  split; [intros key distance Hk; by eapply lookup_weaken|].
  split; [intros q rays Hq; by eapply lookup_weaken|].
  done.
Qed.

(** X16. What a call of [_solve] adds to the caches, whatever its outcome:
    results only for prefixes of the path of 5 elements or more (a path of
    3 elements is never stored), and distances only between two point-sets
    that follow one another along the path, as [distance_pairwise] gives
    them. *)
Theorem _solve_adds (path : FermatPath) st out st' :
  _solve path st = Some (out, st') →
  (∀ q, cached_result st !! q = None → is_Some (cached_result st' !! q) →
        q `prefix_of` path ∧ 5 ≤ length q) ∧
  (∀ a b distance,
     cached_distance st !! (a, b) = None →
     cached_distance st' !! (a, b) = Some distance →
     distance = distance_pairwise a b ∧
     ∃ k, points path !! k = Some (Pts a) ∧ points path !! S k = Some (Pts b)).
Proof.
  intros Hrun. apply _solve_fuel_effects in Hrun as (_ & Hk & Hd & _).
  split; [done|]. intros a b distance Hn Hs. by apply Hd.
Qed.

(** X17. In a solver whose cached results were constructed for their
    paths, as after [clear_cache], the [Rays] that [_solve] returns for a
    path of [d] point-sets has this path, [times] of shape [n x m] and
    [indices] of shape [d x n x m] with an unsigned dtype, [n] and [m]
    being the numbers of points of the first and of the last point-set;
    and the cached results stay constructed for their paths. *)
Theorem _solve_result_shapes (path : FermatPath) st rays st' :
  result_cache_constructed st →
  _solve path st = Some (Ok rays, st') →
  result_cache_constructed st' ∧
  ∃ pts_first pts_last,
    head (points path) = Some (Pts pts_first) ∧
    last (points path) = Some (Pts pts_last) ∧
    fermat_path rays = path ∧
    shape (times rays) = [npoints pts_first; npoints pts_last] ∧
    shape (iarr (indices rays))
      = [num_points_sets path; npoints pts_first; npoints pts_last] ∧
    kind (idtype (indices rays)) = KindU.
Proof.
  intros Hcon Hrun.
  apply _solve_fuel_effects in Hrun as (_ & _ & _ & Hc).
  destruct (Hc Hcon) as [Hcon' Hrays]. split; [done|].
  apply constructed_for_shapes. by apply Hrays.
Qed.

(** A call of [_solve] on a path of 3 elements makes no minimization and
    computes one distance at most. *)
Lemma three_elements_cost fuel (path : FermatPath) st out st' :
  length path = 3 →
  _solve_fuel (S fuel) path st = Some (out, st') →
  num_minimization st' = num_minimization st ∧
  num_euc_distance st' ≤ S (num_euc_distance st).
Proof.
  intros Hlen. rewrite _solve_fuel_eq.
  destruct (cached_result st !! path); [intros [= _ <-]; lia|].
  rewrite Hlen. cbn [Nat.eqb]. intros Hrun.
  by destruct (consecutive_times_effects _ _ _ _ Hlen Hrun) as (_ & _ & ? & ? & _).
Qed.

Lemma num_points_sets_take (path : FermatPath) :
  length path mod 2 = 1 → 5 ≤ length path →
  num_points_sets (take (length path - 2) path) = num_points_sets path - 1.
Proof.
  intros Hodd Hlen. unfold num_points_sets.
  rewrite length_take_le by lia. rewrite div_2_sub_2 by lia.
  pose proof (odd_length_div _ Hodd). lia.
Qed.

Lemma _solve_fuel_counts fuel :
  ∀ (path : FermatPath) st rays st',
    is_FermatPath path →
    (∀ q, q `prefix_of` path → 5 ≤ length q → cached_result st !! q = None) →
    _solve_fuel fuel path st = Some (Ok rays, st') →
    num_minimization st' = num_minimization st + (num_points_sets path - 2) ∧
    num_euc_distance st' ≤ num_euc_distance st + (num_points_sets path - 1).
Proof.
  induction fuel as [|fuel IH]; intros path st rays st' Hpath Hfresh Hrun; [done|].
  pose proof Hpath as [Hodd Hlen]%is_FermatPath_length.
  destruct (decide (length path = 3)) as [H3|H3].
  { destruct (three_elements_cost _ _ _ _ _ H3 Hrun) as [Hnm Hne].
    unfold num_points_sets. rewrite H3. cbn. lia. }
  assert (5 ≤ length path) as Hge.
  { pose proof (odd_length_div _ Hodd). lia. }
  pose proof (Hfresh path ltac:(done) Hge) as Hmiss.
  apply _solve_split_Ok in Hrun
    as (head & tail & rh & st1 & rt & st2 & ti & idx & Hsplit & Hhead & Htail &
        _ & _ & _ & ->); [|done|done].
  apply split_queue_Ok in Hsplit as (_ & -> & ->).
  apply IH in Hhead as [Hnm1 Hne1].
  2:{ apply is_FermatPath_length. rewrite length_take_le by lia.
      rewrite mod_2_sub_2 by lia. split; [done|lia]. }
  2:{ intros q Hq Hl. apply Hfresh; [|done]. etrans; [done|]. apply prefix_take. }
  destruct fuel as [|fuel]; [done|].
  apply three_elements_cost in Htail as [Hnm2 Hne2];
    [|rewrite length_drop; lia].
  rewrite num_points_sets_take in Hnm1, Hne1 by done.
  assert (3 ≤ num_points_sets path)
    by (unfold num_points_sets; pose proof (odd_length_div _ Hodd); lia).
  unfold set_cached_result, set_next_id, set_num_minimization.
  cbn [num_minimization num_euc_distance]. lia.
Qed.

(** X18. When no prefix of a FermatPath of [d] point-sets is in the cache
    of results, as after [clear_cache], a successful [_solve] of this path
    makes exactly [d - 2] minimizations, one per interior point-set, and
    computes [d - 1] distances at most. *)
Theorem _solve_counts (path : FermatPath) st rays st' :
  is_FermatPath path →
  (∀ q, q `prefix_of` path → 5 ≤ length q → cached_result st !! q = None) →
  _solve path st = Some (Ok rays, st') →
  num_minimization st' = num_minimization st + (num_points_sets path - 2) ∧
  num_euc_distance st' ≤ num_euc_distance st + (num_points_sets path - 1).
Proof. apply _solve_fuel_counts. Qed.

(** A path that was solved is solved again for free. *)
Lemma solve_again_counts fuel1 fuel2 (path : FermatPath) st rays st1 out st2 :
  _solve_fuel (S fuel1) path st = Some (Ok rays, st1) →
  _solve_fuel (S fuel2) path st1 = Some (out, st2) →
  num_minimization st2 = num_minimization st1 ∧
  num_euc_distance st2 = num_euc_distance st1.
Proof.
  intros Hrun1 Hrun2.
  assert (is_Some (cached_result st1 !! path) ∨
          cached_result st1 !! path = None ∧
          ∃ points1 speed points2,
            path = [Pts points1; Speed speed; Pts points2] ∧
            is_Some (cached_distance st1 !! (points1, points2))) as Hcases.
  { destruct (cached_result st !! path) as [cached|] eqn:Hc.
    { rewrite _solve_fuel_eq, Hc in Hrun1. injection Hrun1 as _ <-.
      left. by rewrite Hc. }
    destruct (decide (length path = 3)) as [H3|H3].
    - rewrite _solve_fuel_eq, Hc, H3 in Hrun1. cbn [Nat.eqb] in Hrun1.
      destruct (consecutive_times_cases _ _ _ _ H3 Hrun1)
        as [(points1 & speed & points2 & ->)|(_ & e & [=])].
      apply consecutive_times_Ok in Hrun1
        as (distance & Hd & _ & _ & _ & _ & _ & _ & Hcr).
      right. rewrite Hcr. split; [done|].
      exists points1, speed, points2. split; [done|]. by rewrite Hd.
    - apply _solve_split_Ok in Hrun1
        as (? & ? & ? & ? & ? & ? & ? & ? & _ & _ & _ & _ & _ & _ & ->);
        [|done|done].
      left. cbn. by rewrite lookup_insert_eq. }
  rewrite _solve_fuel_eq in Hrun2.
  destruct Hcases as [[cached Hc]|(Hc & points1 & speed & points2 & -> & [d Hd])].
  - rewrite Hc in Hrun2. by injection Hrun2 as _ <-.
  - rewrite Hc in Hrun2. cbn [length Nat.eqb] in Hrun2.
    rewrite consecutive_times_eq in Hrun2. cbn zeta in Hrun2.
    rewrite Hd in Hrun2. by injection Hrun2 as _ <-.
Qed.

(** X19. Solving a path of one more point-set than a path just solved
    reuses what was computed: one minimization and one distance at
    most. *)
Theorem _solve_extension (path : FermatPath) speed (points_new : Points)
    st rays st1 rays2 st2 :
  3 ≤ length path →
  _solve path st = Some (Ok rays, st1) →
  cached_result st1 !! (path ++ [Speed speed; Pts points_new]) = None →
  _solve (path ++ [Speed speed; Pts points_new]) st1 = Some (Ok rays2, st2) →
  num_minimization st2 = S (num_minimization st1) ∧
  num_euc_distance st2 ≤ S (num_euc_distance st1).
Proof.
  intros Hlen Hrun1 Hmiss Hrun2.
  set (path2 := path ++ [Speed speed; Pts points_new]) in *.
  assert (length path2 = length path + 2) as Hl2
    by (unfold path2; rewrite length_app; done).
  unfold _solve in Hrun1, Hrun2.
  apply _solve_split_Ok in Hrun2
    as (head & tail & rh & sta & rt & stb & ti & idx & Hsplit & Hhead & Htail &
        _ & _ & _ & ->); [|done|lia].
  apply split_queue_Ok in Hsplit as (_ & -> & ->).
  assert (take (length path2 - 2) path2 = path) as Hhd.
  { unfold path2 at 2. rewrite Hl2.
    replace (length path + 2 - 2) with (length path) by lia.
    apply take_app_length. }
  rewrite Hhd in Hhead.
  destruct (length path2) as [|fuel2] eqn:Hf; [lia|].
  destruct (solve_again_counts _ _ _ _ _ _ _ _ Hrun1 Hhead) as [Hnm1 Hne1].
  destruct fuel2 as [|fuel2]; [lia|].
  apply three_elements_cost in Htail as [Hnm2 Hne2];
    [|rewrite length_drop; lia].
  cbn. lia.
Qed.

Lemma signed_dtype_fuel fuel :
  ∀ (path : FermatPath) st rays st',
    kind (dtype_indices st) = KindI →
    cached_result st = ∅ →
    _solve_fuel fuel path st = Some (Ok rays, st') → False.
Proof.
  induction fuel as [|fuel IH]; intros path st rays st' Hkind Hempty Hrun; [done|].
  assert (cached_result st !! path = None) as Hmiss by (by rewrite Hempty).
  destruct (decide (length path = 3)) as [H3|H3].
  - rewrite _solve_fuel_eq, Hmiss, H3 in Hrun. cbn [Nat.eqb] in Hrun.
    destruct (consecutive_times_cases _ _ _ _ H3 Hrun)
      as [(points1 & speed & points2 & ->)|(_ & e & [=])].
    rewrite consecutive_times_eq in Hrun. cbn zeta in Hrun.
    injection Hrun as Hinit _.
    apply Rays_init_Ok in Hinit as (? & ? & ? & ? & _ & _ & _ & _ & _ & Hk & _).
    unfold np_zeros in Hk. cbn [idtype] in Hk.
    destruct (cached_distance st !! (points1, points2)); cbn in Hk; congruence.
  - apply _solve_split_Ok in Hrun
      as (? & ? & ? & ? & ? & ? & ? & ? & _ & Hhead & _); [|done|done].
    by eapply IH.
Qed.

(** X20. With a signed dtype of indices and an empty cache of results,
    [_solve] never returns rays. For a path of two point-sets, in a solver
    whose distances are those of [distance_pairwise], it raises TypeError,
    after the distance was computed, counted and stored. *)
Theorem signed_dtype_raises (path : FermatPath) st out st' :
  kind (dtype_indices st) = KindI →
  cached_result st = ∅ →
  _solve path st = Some (out, st') →
  (∃ e, out = Raise e) ∧
  (distance_pairwise_contract → distance_cache_inv st →
   ∀ points1 speed points2,
     path = [Pts points1; Speed speed; Pts points2] →
     out = Raise TypeError ∧
     cached_distance st' !! (points1, points2)
       = Some (distance_pairwise points1 points2) ∧
     (cached_distance st !! (points1, points2) = None →
      num_euc_distance st' = S (num_euc_distance st))).
Proof.
  intros Hkind Hempty Hrun. split.
  - destruct out as [rays|e]; [|by exists e].
    destruct (signed_dtype_fuel _ _ _ _ _ Hkind Hempty Hrun).
  - intros Hdist Hinv points1 speed points2 ->.
    unfold _solve in Hrun. rewrite _solve_fuel_eq, Hempty, lookup_empty in Hrun.
    cbn [length Nat.eqb] in Hrun.
    rewrite consecutive_times_eq in Hrun. cbn zeta in Hrun.
    injection Hrun as <- <-.
    destruct (Hdist points1 points2) as [Hsh Hwf].
    assert (∀ self dt, kind dt = KindI →
              Rays_init self
                (amap (λ x, fdiv x speed) (distance_pairwise points1 points2))
                (np_zeros [0; npoints points1; npoints points2] dt)
                [Pts points1; Speed speed; Pts points2] = Raise TypeError) as Hinit.
    { intros self dt Hdt.
      by apply (Rays_init_signed _ _ _ _ 0 points1 points2). }
    destruct (cached_distance st !! (points1, points2)) as [d|] eqn:Hc;
      cbn [fst snd].
    + apply Hinv in Hc as Hd. subst d.
      rewrite Hinit by done. cbn. by rewrite Hc.
    + rewrite Hinit by done. cbn. by rewrite lookup_insert_eq.
Qed.

(** *** The solver and its paths *)

(** The loop of [solve_no_clean] always ends, and keeps the paths that
    have a result. *)
Lemma solve_paths_returns (todo : list FermatPath) :
  ∀ self : SolverObject, is_Some (solve_paths todo self).
Proof.
  induction todo as [|path todo IH]; intros self; [done|].
  cbn [solve_paths].
  destruct (_solve_returns path (attributes self)) as [[[rays|e] st] ->]; [|done].
  apply IH.
Qed.

Lemma solve_paths_keeps (todo : list FermatPath) :
  ∀ (self : SolverObject) out self',
    solve_paths todo self = Some (out, self') →
    ∀ q, is_Some (res self !! q) → is_Some (res self' !! q).
Proof.
  induction todo as [|path todo IH]; intros self out self' Hrun q Hq.
  - by injection Hrun as _ <-.
  - cbn [solve_paths] in Hrun.
    destruct (_solve path (attributes self)) as [[[rays|e] st]|]; [| |done].
    + apply (IH _ _ _ Hrun). cbn [res].
      destruct (decide (path = q)) as [<-|Hne];
        [by rewrite lookup_insert_eq | by rewrite lookup_insert_ne].
    + by injection Hrun as _ <-.
Qed.

(** What the loop of [solve_no_clean] keeps and makes: sound caches,
    results that are rays of their paths, and one result for each path it
    went through. *)
Lemma solve_paths_spec (todo : list FermatPath) :
  ∀ (self : SolverObject) out self',
    cache_inv (attributes self) →
    result_cache_constructed (attributes self) →
    (∀ q rays, res self !! q = Some rays →
       solves (dtype_indices (attributes self)) q (times rays) ∧ fermat_path rays = q) →
    solve_paths todo self = Some (out, self') →
    cache_inv (attributes self') ∧
    result_cache_constructed (attributes self') ∧
    dtype_indices (attributes self') = dtype_indices (attributes self) ∧
    paths self' = paths self ∧
    (∀ q rays, res self' !! q = Some rays →
       solves (dtype_indices (attributes self)) q (times rays) ∧ fermat_path rays = q) ∧
    (∀ q, is_Some (res self' !! q) → is_Some (res self !! q) ∨ q ∈ todo) ∧
    (out = Ok () → ∀ path, path ∈ todo → is_Some (res self' !! path)).
Proof.
  induction todo as [|path todo IH]; intros self out self' Hinv Hcon Hres Hrun.
  - injection Hrun as <- <-.
    do 5 (split; [done|]). split; [by left|].
    intros _ path Hin. by apply elem_of_nil in Hin.
  - cbn [solve_paths] in Hrun.
    destruct (_solve path (attributes self)) as [[[rays|e] st]|] eqn:Hsolve;
      [| |done].
    + destruct (_solve_sound _ _ _ _ Hinv Hsolve) as (Hinv1 & Hdt1 & Hsolves).
      specialize (Hsolves rays eq_refl).
      pose proof (_solve_fuel_effects _ _ _ _ _ Hsolve) as (_ & _ & _ & Hc).
      destruct (Hc Hcon) as [Hcon1 Hrays]. specialize (Hrays rays eq_refl).
      apply constructed_for_shapes in Hrays as (? & ? & _ & _ & Hfp & _).
      pose proof (solve_paths_keeps _ _ _ _ Hrun) as Hkeep.
      apply IH in Hrun as (Hinv' & Hcon' & Hdt' & Hpaths & Hres' & Hdom & Hall);
        cbn [attributes res paths] in *; [|done|done|].
      2:{ intros q rays'. destruct (decide (path = q)) as [<-|Hne].
          - rewrite lookup_insert_eq. intros [= <-]. by rewrite Hdt1.
          - rewrite lookup_insert_ne by done. rewrite Hdt1. apply Hres. }
      split; [done|]. split; [done|]. split; [congruence|]. split; [done|].
      split; [intros q rays'; rewrite <- Hdt1; apply Hres'|].
      split.
      * intros q Hq. destruct (Hdom q Hq) as [Hq'|Hin]; [|right; by right].
        destruct (decide (path = q)) as [<-|Hne]; [right; by left|].
        rewrite lookup_insert_ne in Hq' by done. by left.
      * intros Hout q Hin. apply elem_of_cons in Hin as [->|Hin]; [|by apply Hall].
        apply Hkeep. by rewrite lookup_insert_eq.
    + injection Hrun as <- <-. cbn [attributes res paths].
      destruct (_solve_sound _ _ _ _ Hinv Hsolve) as (Hinv1 & Hdt1 & _).
      pose proof (_solve_fuel_effects _ _ _ _ _ Hsolve) as (_ & _ & _ & Hc).
      destruct (Hc Hcon) as [Hcon1 _].
      do 5 (split; [done|]). split; [by left|done].
Qed.

(** X21. In a solver whose caches hold what it computes and that has no
    result yet, [solve_no_clean] returns or raises, and keeps the caches
    sound; when it returns, it returns [self.res], which holds, for each
    path of [self.paths] and for no other, rays of this path whose times
    are those the recursion of [_solve] defines. *)
Theorem solve_no_clean_sound (self : SolverObject) :
  cache_inv (attributes self) →
  result_cache_constructed (attributes self) →
  res self = ∅ →
  ∃ out self',
    solve_no_clean self = Some (out, self') ∧
    paths self' = paths self ∧
    cache_inv (attributes self') ∧
    ∀ results, out = Ok results →
      results = res self' ∧
      (∀ path, path ∈ paths self →
         ∃ rays, results !! path = Some rays ∧
                 solves (dtype_indices (attributes self)) path (times rays) ∧
                 fermat_path rays = path) ∧
      (∀ q, is_Some (results !! q) → q ∈ paths self).
Proof.
  intros Hinv Hcon Hempty.
  destruct (solve_paths_returns (paths self) self) as [[out self'] Hrun].
  assert (∀ q rays, res self !! q = Some rays →
            solves (dtype_indices (attributes self)) q (times rays) ∧
            fermat_path rays = q) as Hres0
    by (intros q rays; by rewrite Hempty, lookup_empty).
  destruct (solve_paths_spec _ _ _ _ Hinv Hcon Hres0 Hrun)
    as (Hinv' & _ & _ & Hpaths & Hres & Hdom & Hall).
  unfold solve_no_clean. rewrite Hrun.
  destruct out as [[]|e].
  - exists (Ok (res self')), self'. do 3 (split; [done|]).
    intros results [= <-]. split; [done|]. split.
    + intros path Hin. destruct (Hall eq_refl path Hin) as [rays Hrays].
      exists rays. split; [done|]. by apply Hres.
    + intros q Hq. destruct (Hdom q Hq) as [Hq'|Hin]; [|done].
      rewrite Hempty, lookup_empty in Hq'. by destruct Hq'.
  - exists (Raise e), self'. do 3 (split; [done|]). done.
Qed.

(** X22. [__init__] raises ValueError when it is given no path and no
    dtype of indices; given a dtype of indices it always succeeds. The
    solver it makes has the paths it was given, no result, empty caches,
    counters at 0 and, as dtype of indices, the one it was given or else
    [settings.UINT], whatever the sizes of the interfaces. *)
Theorem FermatSolver_init_spec (UINT : int_dtype) (next : nat)
    (paths_in : list FermatPath) (dtype_in : option int_dtype) :
  (dtype_in = None → paths_in = [] →
   FermatSolver_init UINT next paths_in dtype_in = Raise ValueError) ∧
  (∀ dt, dtype_in = Some dt →
         ∃ self, FermatSolver_init UINT next paths_in dtype_in = Ok self) ∧
  (∀ self, FermatSolver_init UINT next paths_in dtype_in = Ok self →
     paths self = paths_in ∧ res self = ∅ ∧
     cached_distance (attributes self) = ∅ ∧
     cached_result (attributes self) = ∅ ∧
     num_minimization (attributes self) = 0 ∧
     num_euc_distance (attributes self) = 0 ∧
     dtype_indices (attributes self) = default UINT dtype_in ∧
     cache_inv (attributes self) ∧
     result_cache_constructed (attributes self)).
Proof.
  unfold FermatSolver_init. split; [|split].
  - by intros -> ->.
  - intros dt ->. eauto.
  - intros self Hinit.
    apply bind_Ok in Hinit as (dt & Hdt & [= <-]). cbn.
    assert (dt = default UINT dtype_in) as ->.
    { destruct dtype_in as [dt'|]; [by injection Hdt|].
      apply bind_Ok in Hdt as (lengths & _ & Hdt).
      apply bind_Ok in Hdt as ([] & _ & [= <-]). done. }
    do 7 (split; [done|]).
    split; [split|].
    + intros a b d Hl. cbn in Hl. by rewrite lookup_empty in Hl.
    + intros q rays Hl. cbn in Hl. by rewrite lookup_empty in Hl.
    + intros q rays Hl. cbn in Hl. by rewrite lookup_empty in Hl.
Qed.

(** X23. From a solver as [__init__] makes it, a [solve] that returns
    leaves in [self.res], which it returns, for each path of [self.paths]
    and for no other, rays of this path whose times are those the
    recursion of [_solve] defines; and it leaves both caches empty. *)
Theorem solve_after_init (UINT : int_dtype) (next : nat)
    (paths_in : list FermatPath) (dtype_in : option int_dtype)
    (self : SolverObject) results self' :
  FermatSolver_init UINT next paths_in dtype_in = Ok self →
  solve self = Some (Ok results, self') →
  results = res self' ∧
  (∀ path, path ∈ paths_in →
     ∃ rays, results !! path = Some rays ∧
             solves (default UINT dtype_in) path (times rays) ∧
             fermat_path rays = path) ∧
  (∀ q, is_Some (results !! q) → q ∈ paths_in) ∧
  cached_distance (attributes self') = ∅ ∧
  cached_result (attributes self') = ∅.
Proof.
  intros Hinit Hsolve.
  unfold FermatSolver_init in Hinit.
  apply bind_Ok in Hinit as (dt & Hdt & [= <-]).
  assert (dt = default UINT dtype_in) as ->.
  { destruct dtype_in as [dt'|]; [by injection Hdt|].
    apply bind_Ok in Hdt as (lengths & _ & Hdt).
    apply bind_Ok in Hdt as ([] & _ & [= <-]). done. }
  set (self := MkSolverObject paths_in ∅ _) in *.
  unfold solve, solve_no_clean in Hsolve.
  destruct (solve_paths (paths self) self) as [[[[]|e] self1]|] eqn:Hrun; [| |done].
  2:{ done. }
  cbn in Hsolve. injection Hsolve as <- <-. cbn [res attributes].
  assert (cache_inv (attributes self)) as Hinv.
  { split.
    - intros a b d Hl. cbn in Hl. by rewrite lookup_empty in Hl.
    - intros q rays Hl. cbn in Hl. by rewrite lookup_empty in Hl. }
  assert (result_cache_constructed (attributes self)) as Hcon.
  { intros q rays Hl. cbn in Hl. by rewrite lookup_empty in Hl. }
  assert (∀ q rays, res self !! q = Some rays →
            solves (dtype_indices (attributes self)) q (times rays) ∧
            fermat_path rays = q) as Hres0.
  { intros q rays Hl. cbn in Hl. by rewrite lookup_empty in Hl. }
  destruct (solve_paths_spec _ _ _ _ Hinv Hcon Hres0 Hrun)
    as (_ & _ & _ & _ & Hres & Hdom & Hall).
  split; [done|]. split; [|split; [|done]].
  - intros path Hin. destruct (Hall eq_refl path Hin) as [rays Hrays].
    exists rays. split; [done|]. by apply Hres.
  - intros q Hq. destruct (Hdom q Hq) as [Hq'|Hin]; [|done].
    cbn in Hq'. rewrite lookup_empty in Hq'. by destruct Hq'.
Qed.

(** *** Angles: interfaces that declare no side *)

(** X24. An interface that declares no side of its normals for the
    direction asked ([None]) gets the no-value sentinel, [None] or
    [(None, None)], whatever the rays are: what [get_outgoing_angles]
    yields for it when [are_normals_on_out_rays_side] is [None], and what
    [get_incoming_angles] yields for it when [are_normals_on_inc_rays_side]
    is [None]. *)
Theorem angles_no_convention (self : Rays) interfaces return_distances k
    interface item :
  interfaces !! k = Some interface →
  (k + 1 < length interfaces →
   are_normals_on_out_rays_side interface = None →
   (get_outgoing_angles self interfaces return_distances).1 !! k = Some item →
   item = yield_none return_distances) ∧
  (0 < k →
   are_normals_on_inc_rays_side interface = None →
   (get_incoming_angles self interfaces return_distances).1 !! k = Some item →
   item = yield_none return_distances).
Proof.
  intros Hk. split.
  - intros Hlt Hside Hitem.
    apply get_outgoing_angles_lookup in Hitem; [|done].
    unfold outgoing_body in Hitem.
    rewrite (py_index_nonneg _ _ _ Hk) in Hitem. cbn [mbind result_bind] in Hitem.
    apply bind_Ok in Hitem as (next & _ & Hitem).
    rewrite Hside in Hitem. by injection Hitem.
  - intros Hpos Hside Hitem.
    apply get_incoming_angles_lookup in Hitem; [|done].
    unfold incoming_body in Hitem.
    rewrite (py_index_nonneg _ _ _ Hk) in Hitem. cbn [mbind result_bind] in Hitem.
    apply bind_Ok in Hitem as (previous & _ & Hitem).
    rewrite Hside in Hitem. by injection Hitem.
Qed.

End properties.

(** *** The integer collaborators meet their contracts *)

Lemma scan_min_spec (f : nat → Z) :
  ∀ len start best,
    best < start →
    (∀ k, k < start → (f best ≤ f k)%Z) →
    (∀ k, k < best → (f best < f k)%Z) →
    scan_min f start len best < start + len ∧
    (∀ k, k < start + len → (f (scan_min f start len best) ≤ f k)%Z) ∧
    (∀ k, k < scan_min f start len best → (f (scan_min f start len best) < f k)%Z).
Proof.
  induction len as [|len IH]; intros start best Hlt Hmin Hfirst; cbn [scan_min].
  - rewrite Nat.add_0_r. done.
  - replace (start + S len) with (S start + len) by lia.
    destruct (f start <? f best)%Z eqn:Hcmp.
    + apply IH; [lia | |].
      * intros k Hk. destruct (decide (k = start)) as [->|]; [lia|].
        assert (f best ≤ f k)%Z by (apply Hmin; lia). lia.
      * intros k Hk. assert (f best ≤ f k)%Z by (apply Hmin; lia). lia.
    + apply IH; [lia | | done].
      intros k Hk. destruct (decide (k = start)) as [->|]; [lia|].
      apply Hmin. lia.
Qed.

Lemma argmin_spec (f : nat → Z) (p : nat) :
  0 < p →
  argmin f p < p ∧
  (∀ k, k < p → (f (argmin f p) ≤ f k)%Z) ∧
  (∀ k, k < argmin f p → (f (argmin f p) < f k)%Z).
Proof.
  intros Hp. unfold argmin.
  destruct (scan_min_spec f (p - 1) 1 0) as (Hlt & Hmin & Hfirst); [lia | | lia |].
  { intros k Hk. by replace k with 0 by lia. }
  replace (1 + (p - 1)) with p in * by lia. done.
Qed.

Lemma length_cells n m : length (cells n m) = n * m.
Proof. unfold cells. by rewrite length_fmap, length_seq. Qed.

Lemma lookup_cells n m i j :
  i < n → j < m → cells n m !! (i * m + j) = Some (i, j).
Proof.
  intros Hi Hj. unfold cells.
  rewrite list_lookup_fmap, lookup_seq_lt by nia. cbn.
  rewrite Nat.div_add_l, Nat.div_small, Nat.add_0_r by lia.
  rewrite Nat.add_comm, Nat.Div0.mod_add, Nat.mod_small by lia. done.
Qed.

Lemma getitem_2_is_Some {A} (a : ndarray A) n m i j :
  shape a = [n; m] → wf_array a → i < n → j < m → is_Some (getitem a [i; j]).
Proof.
  intros Hsh Hwf Hi Hj. rewrite (getitem_2 _ n m) by done.
  apply lookup_lt_is_Some_2. unfold wf_array in Hwf. rewrite Hwf, Hsh. cbn. nia.
Qed.

Lemma sum_at_entry (a b : ndarray Z) i j k x :
  sum_at a b i j k = Some x → x = (entry a i k + entry b k j)%Z.
Proof.
  unfold sum_at, entry.
  destruct (getitem a [i; k]) as [xa|]; [|done]. cbn.
  destruct (getitem b [k; j]) as [xb|]; [|done]. cbn. congruence.
Qed.

Lemma sum_at_is_Some (a b : ndarray Z) n p m i j k :
  shape a = [n; p] → shape b = [p; m] → wf_array a → wf_array b →
  i < n → j < m → k < p →
  sum_at a b i j k = Some (entry a i k + entry b k j)%Z.
Proof.
  intros Ha Hb Hwa Hwb Hi Hj Hk. unfold sum_at, entry.
  destruct (getitem_2_is_Some a n p i k) as [xa ->]; try done.
  destruct (getitem_2_is_Some b p m k j) as [xb ->]; done.
Qed.

Lemma scan_find_minimum_times_meets_contract :
  find_minimum_times_contract (F:=Z).
Proof.
  intros a b dt n p m Hwa Hwb Ha Hb.
  change (find_minimum_times a b dt) with (scan_find_minimum_times a b dt).
  unfold scan_find_minimum_times. rewrite Ha, Hb.
  rewrite bool_decide_eq_true_2 by done.
  eexists _, _. split; [reflexivity|].
  split; [done|].
  split; [unfold wf_array; cbn; rewrite length_fmap, length_cells; lia|].
  split; [done|]. split; [done|].
  split; [unfold wf_array; cbn; rewrite length_fmap, length_cells; lia|].
  intros i j Hi Hj.
  set (f := λ k, (entry a i k + entry b k j)%Z).
  exists (f (argmin f p)). split.
  { rewrite (getitem_2 _ n m) by done. cbn [data].
    by rewrite list_lookup_fmap, lookup_cells. }
  split; [split|].
  - intros k x Hk Hx. apply sum_at_entry in Hx as ->.
    apply (argmin_spec f p); lia.
  - intros Hp. exists (argmin f p).
    destruct (argmin_spec f p Hp) as (Hlt & _ & _).
    split; [done|]. by apply (sum_at_is_Some a b n p m).
  - intros Hp. exists (argmin f p).
    destruct (argmin_spec f p Hp) as (Hlt & _ & Hfirst).
    split; [split; [done|split]|].
    + by apply (sum_at_is_Some a b n p m).
    + intros k' x Hk' Hx. apply sum_at_entry in Hx as ->.
      specialize (Hfirst k' Hk'). unfold f in Hfirst |- *.
      change (@fle nat Z int_collaborators) with Z.le. cbn beta in *. lia.
    + rewrite (getitem_2 _ n m) by done. cbn [iarr data].
      by rewrite list_lookup_fmap, lookup_cells.
Qed.

Lemma int_distance_pairwise_meets_contract :
  distance_pairwise_contract (Points:=nat) (F:=Z).
Proof.
  intros a b.
  change (distance_pairwise a b) with (int_distance_pairwise a b).
  split; [done|].
  unfold wf_array, int_distance_pairwise, npoints. cbn [shape data size_of_shape foldr].
  generalize (int_coords a) (int_coords b). intros la lb.
  induction la as [|p la IH]; [done|].
  rewrite bind_cons, length_app, length_fmap, IH. cbn. lia.
Qed.

Lemma new_solver_cache_inv :
  cache_inv new_solver.
Proof.
  split; [intros a b d Hl | intros path res Hl]; unfold new_solver in Hl;
    cbn [cached_distance cached_result] in Hl; by rewrite lookup_empty in Hl.
Qed.

(** *** The properties on the integer model *)

Lemma int_solve_path_three :
  _solve path_three new_solver
  = Some (Ok rays_three, solver_after (_solve path_three new_solver)).
Proof. vm_cast_no_check (eq_refl (_solve path_three new_solver)). Qed.

Lemma int_solve_path_two :
  _solve path_two new_solver
  = Some (Ok rays_two, solver_after (_solve path_two new_solver)).
Proof. vm_cast_no_check (eq_refl (_solve path_two new_solver)). Qed.

Lemma int_solve_path_tail :
  _solve path_tail new_solver
  = Some (Ok rays_tail, solver_after (_solve path_tail new_solver)).
Proof. vm_cast_no_check (eq_refl (_solve path_tail new_solver)). Qed.

Lemma int_consecutive_times_path_two :
  consecutive_times path_two new_solver
  = Some (Ok rays_two, solver_after (consecutive_times path_two new_solver)).
Proof. vm_cast_no_check (eq_refl (consecutive_times path_two new_solver)). Qed.

Lemma split_add_roundtrip_witness :
  is_FermatPath path_three ∧ 5 ≤ length path_three ∧
  ((∃ head tail, split_queue path_three = Ok (head, tail) ∧
                 FermatPath_add head tail = Ok path_three) ∧
   (∃ head tail, split_head path_three = Ok (head, tail) ∧
                 FermatPath_add head tail = Ok path_three)).
Proof.
  assert (is_FermatPath path_three) as Hpath by reflexivity.
  assert (5 ≤ length path_three) as Hlen by (cbn; lia).
  exact (conj Hpath (conj Hlen (split_add_roundtrip path_three Hpath Hlen))).
Defined.

Lemma expand_rays_no_interior_witness :
  let interior := np_zeros [0; 2; 3] index_dtype in
  let new := IArray index_dtype (NDArray [2; 2] [1; 0; 2; 2]%Z) in
  shape (iarr interior) = [0; 2; 3] ∧ shape (iarr new) = [2; 2] ∧
  expand_rays (Points:=nat) (F:=Z) interior new
    = Ok (IArray (idtype new) (NDArray [1; 2; 2] (data (iarr new)))).
Proof.
  intros interior new.
  assert (shape (iarr interior) = [0; 2; 3]) as Hi by reflexivity.
  assert (shape (iarr new) = [2; 2]) as Hn by reflexivity.
  exact (conj Hi (conj Hn
    (expand_rays_no_interior (Points:=nat) (F:=Z) interior new 2 3 2 Hi Hn))).
Defined.

Lemma Rays_init_faithful_witness :
  Rays_init 2 times_three interior_three path_three = Ok rays_three ∧
  wf_array (iarr interior_three) ∧
  times rays_three = times_three ∧ interior_indices rays_three = interior_three.
Proof.
  assert (Rays_init 2 times_three interior_three path_three = Ok rays_three)
    as Hinit by reflexivity.
  assert (wf_array (iarr interior_three)) as Hwf by reflexivity.
  exact (conj Hinit (conj Hwf
    (Rays_init_faithful 2 times_three interior_three path_three rays_three
       Hinit Hwf))).
Defined.

Lemma indices_endpoints_witness :
  Rays_init 2 times_three interior_three path_three = Ok rays_three ∧
  wf_array (iarr interior_three) ∧
  py_index (points path_three) 0 ≫= py_len = Ok 2 ∧
  py_index (points path_three) (-1) ≫= py_len = Ok 2 ∧
  (Z.of_nat 2 ≤ 2 ^ Z.of_nat (bits (idtype (indices rays_three))))%Z ∧
  getitem (iarr (indices rays_three)) [0; 1; 0] = Some (Z.of_nat 1) ∧
  getitem (iarr (indices rays_three)) [num_points_sets path_three - 1; 1; 0]
    = Some (Z.of_nat 0).
Proof.
  assert (Rays_init 2 times_three interior_three path_three = Ok rays_three)
    as Hinit by reflexivity.
  assert (wf_array (iarr interior_three)) as Hwf by reflexivity.
  assert (py_index (points path_three) 0 ≫= py_len = Ok 2) as Hn by reflexivity.
  assert (py_index (points path_three) (-1) ≫= py_len = Ok 2) as Hm
    by reflexivity.
  assert (Z.of_nat 2 ≤ 2 ^ Z.of_nat (bits (idtype (indices rays_three))))%Z
    as Hfit by (vm_compute; discriminate).
  assert (1 < 2) as H1 by lia. assert (0 < 2) as H0 by lia.
  exact (conj Hinit (conj Hwf (conj Hn (conj Hm (conj Hfit
    (indices_endpoints 2 times_three interior_three path_three rays_three 2 2
       Hinit Hwf Hn Hm Hfit Hfit 1 0 H1 H0)))))).
Defined.

(** C6 as stated fails: with indices on 8 bits and 257 start points, the
    construction succeeds and [indices[0, 256, 0]] is 0. *)
Lemma indices_endpoints_counterexample :
  ∃ res,
    Rays_init 0 times_wide (np_zeros [0; 257; 1] index_dtype) path_wide = Ok res ∧
    py_index (points path_wide) 0 ≫= py_len = Ok 257 ∧
    getitem (iarr (indices res)) [0; 256; 0] = Some 0%Z ∧
    getitem (iarr (indices res)) [0; 256; 0] ≠ Some (Z.of_nat 256).
Proof.
  eexists. split; [vm_compute; reflexivity|].
  split; [reflexivity|]. split; [reflexivity|]. discriminate.
Qed.

Lemma consecutive_times_distance_over_speed_witness :
  distance_cache_inv new_solver ∧
  consecutive_times path_two new_solver
    = Some (Ok rays_two, solver_after (consecutive_times path_two new_solver)) ∧
  times rays_two = amap (λ x, fdiv x 1%Z) (int_distance_pairwise probe frontwall) ∧
  ∀ i j, getitem (times rays_two) [i; j] =
         (λ x, fdiv x 1%Z) <$> getitem (int_distance_pairwise probe frontwall) [i; j].
Proof.
  assert (distance_cache_inv new_solver) as Hinv
    by apply new_solver_cache_inv.
  pose proof int_consecutive_times_path_two as Hrun.
  exact (conj Hinv (conj Hrun
    (consecutive_times_distance_over_speed
       probe 1%Z frontwall new_solver rays_two _ Hinv Hrun))).
Defined.

(** C3 fails on the code: after the distances from [probe] to [frontwall]
    are computed, the cache holds them under [(probe, frontwall)] and
    nothing under the swapped key. *)
Lemma swapped_key_not_cached :
  let st' := solver_after (consecutive_times path_two new_solver) in
  consecutive_times path_two new_solver = Some (Ok rays_two, st') ∧
  probe ≠ frontwall ∧
  cached_distance st' !! (probe, frontwall)
    = Some (int_distance_pairwise probe frontwall) ∧
  cached_distance st' !! (frontwall, probe) = None ∧
  num_euc_distance st' = 1.
Proof.
  split; [apply int_consecutive_times_path_two|].
  split; [discriminate|].
  split; [vm_compute; reflexivity|].
  split; vm_compute; reflexivity.
Qed.

Lemma solve_two_gaps_minimum_witness :
  find_minimum_times_contract (F:=Z) ∧
  distance_pairwise_contract (Points:=nat) (F:=Z) ∧
  cache_inv new_solver ∧
  _solve path_three new_solver
    = Some (Ok rays_three, solver_after (_solve path_three new_solver)) ∧
  _solve path_two new_solver
    = Some (Ok rays_two, solver_after (_solve path_two new_solver)) ∧
  _solve path_tail new_solver
    = Some (Ok rays_tail, solver_after (_solve path_tail new_solver)) ∧
  ∃ v, getitem (times rays_three) [0; 1] = Some v ∧
       minimum_over (sum_at (times rays_two) (times rays_tail) 0 1)
         (npoints frontwall) v.
Proof.
  pose proof scan_find_minimum_times_meets_contract as Hfmt.
  pose proof int_distance_pairwise_meets_contract as Hdist.
  pose proof new_solver_cache_inv as Hinv.
  pose proof int_solve_path_three as Hrun.
  pose proof int_solve_path_two as Hhead.
  pose proof int_solve_path_tail as Htail.
  assert (0 < npoints probe) as Hi by (cbn; lia).
  assert (1 < npoints grid) as Hj by (cbn; lia).
  exact (conj Hfmt (conj Hdist (conj Hinv (conj Hrun (conj Hhead (conj Htail
    (solve_two_gaps_minimum
       probe 1%Z frontwall 2%Z grid
       new_solver rays_three _ new_solver rays_two _ new_solver rays_tail _
       Hfmt Hdist Hinv Hinv Hinv Hrun Hhead Htail 0 1 Hi Hj))))))).
Defined.

Lemma solve_twice_witness :
  let st' := solver_after (_solve path_three new_solver) in
  _solve path_three new_solver = Some (Ok rays_three, st') ∧
  (5 ≤ length path_three → _solve path_three st' = Some (Ok rays_three, st')) ∧
  (length path_three = 3 →
   ∃ res2 st2,
     _solve path_three st' = Some (Ok res2, st2) ∧
     times res2 = times rays_three ∧ indices res2 = indices rays_three ∧
     fermat_path res2 = fermat_path rays_three ∧
     cached_distance st2 = cached_distance st' ∧
     cached_result st2 = cached_result st' ∧
     num_euc_distance st2 = num_euc_distance st' ∧
     num_minimization st2 = num_minimization st').
Proof.
  intros st'. pose proof int_solve_path_three as Hrun.
  exact (conj Hrun
    (solve_twice path_three new_solver rays_three st' Hrun)).
Defined.

(** C2 as stated fails on a path of two point-sets: the first call caches
    no [Rays] for it, and the second call returns a new object, of another
    identity. *)
Lemma solve_twice_counterexample :
  let st1 := solver_after (_solve path_two new_solver) in
  let res2 := MkRays 1 (times rays_two) (indices rays_two) path_two in
  _solve path_two new_solver = Some (Ok rays_two, st1) ∧
  _solve path_two st1 = Some (Ok res2, solver_after (_solve path_two st1)) ∧
  cached_result st1 !! path_two = None ∧
  rays_id res2 ≠ rays_id rays_two ∧
  res2 ≠ rays_two.
Proof.
  intros st1 res2.
  split; [apply int_solve_path_two|].
  split; [vm_cast_no_check (eq_refl (_solve path_two st1))|].
  split; [vm_cast_no_check (eq_refl (@None int_rays))|].
  split; discriminate.
Qed.

Lemma angles_with_distances_witness :
  shape (iarr (indices rays_three)) = [3; 2; 2] ∧
  wf_array (iarr (indices rays_three)) ∧
  ∃ interface next previous,
    interfaces_three !! 1 = Some interface ∧
    interfaces_three !! (1 + 1) = Some next ∧
    interfaces_three !! (1 - 1) = Some previous ∧
    are_normals_on_out_rays_side interface = Some false ∧
    ∃ item,
      (get_outgoing_angles rays_three interfaces_three true).1 !! 1 = Some item ∧
      ∃ alpha distances,
        item = ItemPair (Some alpha) (Some distances) ∧
        shape alpha = [2; 2] ∧ shape distances = [2; 2] ∧
        ∀ i j, i < 2 → j < 2 →
          ∃ leg, leg_spherical rays_three interface next 1 (1 + 1) i j = Some leg ∧
                 getitem alpha [i; j] = Some (leg_angle false leg) ∧
                 getitem distances [i; j] = Some (r leg).
Proof.
  assert (shape (iarr (indices rays_three)) = [3; 2; 2]) as Hsh by reflexivity.
  assert (wf_array (iarr (indices rays_three))) as Hwf by reflexivity.
  split; [done|]. split; [done|].
  destruct (interfaces_three !! 1) as [interface|] eqn:Hinterface; [|discriminate].
  destruct (interfaces_three !! (1 + 1)) as [next|] eqn:Hnext; [|discriminate].
  destruct (interfaces_three !! (1 - 1)) as [previous|] eqn:Hprevious; [|discriminate].
  exists interface, next, previous.
  split; [reflexivity|]. split; [reflexivity|]. split; [reflexivity|].
  assert (are_normals_on_out_rays_side interface = Some false) as Hflag
    by (by injection Hinterface as <-).
  split; [done|].
  destruct ((get_outgoing_angles rays_three interfaces_three true).1 !! 1)
    as [item|] eqn:Hitem; [|exfalso; vm_compute in Hitem; discriminate].
  exists item. split; [reflexivity|].
  exact (proj1 (angles_with_distances rays_three interfaces_three 1 interface
                  false item 3 2 2 Hsh Hwf Hinterface)
           next Hnext Hflag Hitem).
Defined.

(** C4 as stated fails at the last interface: it declares the side of its
    normals for the outgoing rays, and the method yields no angle for it. *)
Lemma angles_counterexample :
  ∃ last,
    interfaces_three !! 2 = Some last ∧
    are_normals_on_out_rays_side last = Some true ∧
    get_outgoing_angles rays_three interfaces_three true
      = ([ItemPair (Some (NDArray [2; 2] [10; 10; 10; 10]%Z))
                   (Some (NDArray [2; 2] [10; 10; 10; 10]%Z));
          ItemPair (Some (NDArray [2; 2] [-17; -17; -17; -17]%Z))
                   (Some (NDArray [2; 2] [21; 23; 23; 21]%Z));
          ItemPair None None], None).
Proof. eexists. split; [reflexivity|]. split; [reflexivity|]. vm_compute. reflexivity. Qed.

Lemma sentinel_ends_witness :
  (get_outgoing_angles rays_three interfaces_three false).2 = None ∧
  (get_incoming_angles rays_three interfaces_three false).1 !! 0
    = Some (yield_none false) ∧
  (get_outgoing_angles rays_three interfaces_three false).1
    !! (length interfaces_three - 1) = Some (yield_none false).
Proof.
  assert ((get_outgoing_angles rays_three interfaces_three false).2 = None)
    as Hend by (vm_compute; reflexivity).
  split; [done|].
  pose proof (sentinel_ends rays_three interfaces_three false)
    as [Hin Hout].
  split; [exact Hin | exact (Hout Hend)].
Defined.

(** C5 as stated fails: the outgoing generator yields an array for the
    first interface, and the incoming generator yields one for the last. *)
Lemma sentinel_ends_counterexample :
  (get_outgoing_angles rays_three interfaces_three false).1 !! 0
    = Some (Item (Some (NDArray [2; 2] [10; 10; 10; 10]%Z))) ∧
  (get_incoming_angles rays_three interfaces_three false).1
    !! (length interfaces_three - 1)
    = Some (Item (Some (NDArray [2; 2] [21; 23; 23; 21]%Z))) ∧
  (get_outgoing_angles rays_three interfaces_three false).1 !! 0
    ≠ Some (yield_none false) ∧
  (get_incoming_angles rays_three interfaces_three false).1
    !! (length interfaces_three - 1) ≠ Some (yield_none false).
Proof.
  assert ((get_outgoing_angles rays_three interfaces_three false).1 !! 0
          = Some (Item (Some (NDArray [2; 2] [10; 10; 10; 10]%Z)))) as Hout
    by (vm_compute; reflexivity).
  assert ((get_incoming_angles rays_three interfaces_three false).1
            !! (length interfaces_three - 1)
          = Some (Item (Some (NDArray [2; 2] [21; 23; 23; 21]%Z)))) as Hin
    by (vm_compute; reflexivity).
  rewrite Hout, Hin. repeat split; discriminate.
Qed.

(** *** The further properties on the integer model *)

Lemma is_FermatPath_path_three : is_FermatPath path_three.
Proof. reflexivity. Qed.

Lemma is_FermatPath_path_two : is_FermatPath path_two.
Proof. reflexivity. Qed.

Lemma is_FermatPath_path_tail : is_FermatPath path_tail.
Proof. reflexivity. Qed.

Lemma is_FermatPath_path_exit : is_FermatPath path_exit.
Proof. reflexivity. Qed.

Lemma points_of_FermatPath_witness :
  is_FermatPath path_three ∧
  length (points path_three) = num_points_sets path_three ∧
  (∀ k, points path_three !! k = path_three !! (2 * k)) ∧
  head (points path_three) = head path_three ∧
  last (points path_three) = last path_three.
Proof.
  pose proof is_FermatPath_path_three as Hpath.
  exact (conj Hpath (points_of_FermatPath path_three Hpath)).
Defined.

Lemma reverse_roundtrip_witness :
  is_FermatPath path_three ∧
  ∃ reversed,
    reverse path_three = Ok reversed ∧
    is_FermatPath reversed ∧
    points reversed = rev (points path_three) ∧
    num_points_sets reversed = num_points_sets path_three ∧
    reverse reversed = Ok path_three.
Proof.
  pose proof is_FermatPath_path_three as Hpath.
  exact (conj Hpath (reverse_roundtrip path_three Hpath)).
Defined.

Lemma split_sub_paths_witness :
  is_FermatPath path_three ∧ 5 ≤ length path_three ∧
  ∃ head tail head' tail',
    split_queue path_three = Ok (head, tail) ∧
    split_head path_three = Ok (head', tail') ∧
    is_FermatPath head ∧ is_FermatPath tail ∧
    is_FermatPath head' ∧ is_FermatPath tail' ∧
    length tail = 3 ∧ length head' = 3 ∧
    num_points_sets head = num_points_sets path_three - 1 ∧
    num_points_sets tail' = num_points_sets path_three - 1 ∧
    last head = tail !! 0 ∧ last head' = tail' !! 0 ∧
    points path_three = points head ++ drop 1 (points tail) ∧
    points path_three = points head' ++ drop 1 (points tail').
Proof.
  pose proof is_FermatPath_path_three as Hpath.
  assert (5 ≤ length path_three) as Hlen by (cbn; lia).
  exact (conj Hpath (conj Hlen
    (proj2 (split_sub_paths path_three Hpath) Hlen))).
Defined.

Lemma FermatPath_add_joins_witness :
  is_FermatPath path_two ∧ is_FermatPath path_tail ∧
  last path_two = head path_tail ∧
  ∃ c, FermatPath_add path_two path_tail = Ok c ∧
       is_FermatPath c ∧
       length c = length path_two + length path_tail - 1 ∧
       points c = points path_two ++ drop 1 (points path_tail) ∧
       num_points_sets c = num_points_sets path_two + num_points_sets path_tail - 1.
Proof.
  pose proof is_FermatPath_path_two as Ha.
  pose proof is_FermatPath_path_tail as Hb.
  assert (last path_two = head path_tail) as Hjoin by reflexivity.
  exact (conj Ha (conj Hb (conj Hjoin
    (proj2 (FermatPath_add_joins path_two path_tail Ha Hb) Hjoin)))).
Defined.

Lemma FermatPath_add_assoc_witness :
  is_FermatPath path_two ∧ is_FermatPath path_tail ∧ is_FermatPath path_exit ∧
  FermatPath_add path_two path_tail ≫= (λ ab, FermatPath_add ab path_exit) =
  FermatPath_add path_tail path_exit ≫= (λ bc, FermatPath_add path_two bc).
Proof.
  pose proof is_FermatPath_path_two as Ha.
  pose proof is_FermatPath_path_tail as Hb.
  pose proof is_FermatPath_path_exit as Hc.
  exact (conj Ha (conj Hb (conj Hc
    (FermatPath_add_assoc path_two path_tail path_exit Ha Hb Hc)))).
Defined.

Lemma reverse_add_witness :
  is_FermatPath path_two ∧ is_FermatPath path_tail ∧
  FermatPath_add path_two path_tail ≫= reverse =
  reverse path_tail ≫= (λ rb, reverse path_two ≫= (λ ra, FermatPath_add rb ra)).
Proof.
  pose proof is_FermatPath_path_two as Ha.
  pose proof is_FermatPath_path_tail as Hb.
  exact (conj Ha (conj Hb (reverse_add path_two path_tail Ha Hb))).
Defined.

Lemma len_largest_interface_is_max_witness :
  is_FermatPath path_three ∧ len_largest_interface path_three = Ok 3 ∧
  (∀ k q, 0 < k → k + 1 < num_points_sets path_three →
          points path_three !! k = Some (Pts q) → npoints q ≤ 3) ∧
  (2 < num_points_sets path_three →
   ∃ k q, 0 < k ∧ k + 1 < num_points_sets path_three ∧
          points path_three !! k = Some (Pts q) ∧ npoints q = 3) ∧
  (num_points_sets path_three = 2 → 3 = 0).
Proof.
  pose proof is_FermatPath_path_three as Hpath.
  assert (len_largest_interface path_three = Ok 3) as Hlen by reflexivity.
  exact (conj Hpath (conj Hlen
    (len_largest_interface_is_max path_three 3 Hpath Hlen))).
Defined.

Lemma Rays_init_shapes_witness :
  Rays_init 2 times_three interior_three path_three = Ok rays_three ∧
  ∃ pts_first pts_last,
    head (points path_three) = Some (Pts pts_first) ∧
    last (points path_three) = Some (Pts pts_last) ∧
    fermat_path rays_three = path_three ∧
    shape (times rays_three) = [npoints pts_first; npoints pts_last] ∧
    shape (iarr (indices rays_three))
      = [num_points_sets path_three; npoints pts_first; npoints pts_last] ∧
    kind (idtype (indices rays_three)) = KindU ∧
    (wf_array (iarr interior_three) → wf_array (iarr (indices rays_three))).
Proof.
  assert (Rays_init 2 times_three interior_three path_three = Ok rays_three)
    as Hinit by reflexivity.
  exact (conj Hinit
    (Rays_init_shapes 2 times_three interior_three path_three rays_three Hinit)).
Defined.

Lemma expand_rays_shape_witness :
  let new := IArray index_dtype (NDArray [2; 2] [1; 0; 1; 1]%Z) in
  shape (iarr interior_three) = [1; 2; 2] ∧ shape (iarr new) = [2; 2] ∧
  ∃ expanded,
    expand_rays (Points:=nat) (F:=Z) interior_three new = Ok expanded ∧
    shape (iarr expanded) = [1 + 1; 2; 2] ∧
    idtype expanded = (if 1 =? 0 then idtype new else idtype interior_three).
Proof.
  intros new.
  assert (shape (iarr interior_three) = [1; 2; 2]) as Hi by reflexivity.
  assert (shape (iarr new) = [2; 2]) as Hn by reflexivity.
  exact (conj Hi (conj Hn
    (proj2 (expand_rays_shape (Points:=nat) (F:=Z) interior_three new 1 2 2 2 2
              Hi Hn) eq_refl))).
Defined.

Lemma rays_three_points_sets :
  ∀ k, k < num_points_sets (fermat_path rays_three) →
       ∃ q, points (fermat_path rays_three) !! k = Some (Pts q).
Proof.
  intros k Hk. destruct k as [|[|[|k]]]; [eexists; reflexivity..|].
  exfalso. vm_compute in Hk. lia.
Qed.

Lemma gone_through_extreme_points_spec_witness :
  is_FermatPath (fermat_path rays_three) ∧
  shape (iarr (indices rays_three))
    = [num_points_sets (fermat_path rays_three); 2; 2] ∧
  wf_array (iarr (indices rays_three)) ∧
  (∀ k, k < num_points_sets (fermat_path rays_three) →
        ∃ q, points (fermat_path rays_three) !! k = Some (Pts q)) ∧
  ∃ out,
    gone_through_extreme_points rays_three = Ok out ∧
    shape out = [2; 2] ∧
    ∀ i j, i < 2 → j < 2 →
      ∃ b, getitem out [i; j] = Some b ∧
           (b = true ↔ through_extreme_point rays_three i j).
Proof.
  pose proof is_FermatPath_path_three as Hpath.
  assert (shape (iarr (indices rays_three))
          = [num_points_sets (fermat_path rays_three); 2; 2]) as Hsh by reflexivity.
  assert (wf_array (iarr (indices rays_three))) as Hwf by reflexivity.
  pose proof rays_three_points_sets as Hpts.
  exact (conj Hpath (conj Hsh (conj Hwf (conj Hpts
    (gone_through_extreme_points_spec rays_three 2 2 Hpath Hsh Hwf Hpts))))).
Defined.

Lemma rays_three_middle_ranks :
  ∀ i j z, i < 2 → j < 2 →
    getitem (iarr (indices rays_three)) [1; i; j] = Some z →
    (0 ≤ z < Z.of_nat (npoints frontwall))%Z.
Proof.
  intros i j z Hi Hj Hz.
  destruct i as [|[|i]]; [| |lia];
    (destruct j as [|[|j]]; [| |lia]);
    vm_compute in Hz; injection Hz as <-; vm_compute; split; congruence.
Qed.

Lemma get_coordinates_spec_witness :
  shape (iarr (indices rays_three)) = [3; 2; 2] ∧
  wf_array (iarr (indices rays_three)) ∧
  length (points (fermat_path rays_three)) = 3 ∧
  (- Z.of_nat 3 ≤ -2 < Z.of_nat 3)%Z ∧
  points (fermat_path rays_three) !! 1 = Some (Pts frontwall) ∧
  ∃ x y z,
    get_coordinates rays_three (-2) = ([(x, y, z)], None) ∧
    shape x = [2; 2] ∧ shape y = [2; 2] ∧ shape z = [2; 2] ∧
    ∀ i j, i < 2 → j < 2 →
      ∃ rank c,
        getitem (iarr (indices rays_three)) [1; i; j] = Some (Z.of_nat rank) ∧
        coords frontwall !! rank = Some c ∧
        getitem x [i; j] = Some c.1.1 ∧
        getitem y [i; j] = Some c.1.2 ∧
        getitem z [i; j] = Some c.2.
Proof.
  assert (shape (iarr (indices rays_three)) = [3; 2; 2]) as Hsh by reflexivity.
  assert (wf_array (iarr (indices rays_three))) as Hwf by reflexivity.
  assert (length (points (fermat_path rays_three)) = 3) as Hlen by reflexivity.
  assert (- Z.of_nat 3 ≤ -2 < Z.of_nat 3)%Z as Hrange by (cbn; lia).
  assert (points (fermat_path rays_three) !! 1 = Some (Pts frontwall)) as Hq
    by reflexivity.
  pose proof rays_three_middle_ranks as Hranks.
  exact (conj Hsh (conj Hwf (conj Hlen (conj Hrange (conj Hq
    (get_coordinates_spec rays_three (-2) 3 2 2 frontwall
       Hsh Hwf Hlen Hrange Hq Hranks)))))).
Defined.

Lemma rays_three_column_ranks :
  ∀ k, k < num_points_sets (fermat_path rays_three) →
    ∃ q v, points (fermat_path rays_three) !! k = Some (Pts q) ∧
           getitem (iarr (indices rays_three)) [k; 1; 1] = Some v ∧
           (0 ≤ v < Z.of_nat (npoints q))%Z.
Proof.
  intros k Hk. destruct k as [|[|[|k]]].
  - exists probe, 1%Z. split; [reflexivity|]. split; [reflexivity|]. by vm_compute.
  - exists frontwall, 2%Z. split; [reflexivity|]. split; [reflexivity|]. by vm_compute.
  - exists grid, 1%Z. split; [reflexivity|]. split; [reflexivity|]. by vm_compute.
  - exfalso. vm_compute in Hk. lia.
Qed.

Lemma get_coordinates_one_spec_witness :
  is_FermatPath (fermat_path rays_three) ∧
  shape (iarr (indices rays_three))
    = [num_points_sets (fermat_path rays_three); 2; 2] ∧
  (- Z.of_nat 2 ≤ 1 < Z.of_nat 2)%Z ∧
  (- Z.of_nat 2 ≤ -1 < Z.of_nat 2)%Z ∧
  ∃ x y z,
    get_coordinates_one rays_three 1 (-1) = Returns (x, y, z) ∧
    length x = num_points_sets (fermat_path rays_three) ∧
    length y = num_points_sets (fermat_path rays_three) ∧
    length z = num_points_sets (fermat_path rays_three) ∧
    ∀ k, k < num_points_sets (fermat_path rays_three) →
      ∃ q rank c,
        points (fermat_path rays_three) !! k = Some (Pts q) ∧
        getitem (iarr (indices rays_three)) [k; 1; 1] = Some (Z.of_nat rank) ∧
        coords q !! rank = Some c ∧
        x !! k = Some c.1.1 ∧ y !! k = Some c.1.2 ∧ z !! k = Some c.2.
Proof.
  pose proof is_FermatPath_path_three as Hpath.
  assert (shape (iarr (indices rays_three))
          = [num_points_sets (fermat_path rays_three); 2; 2]) as Hsh by reflexivity.
  assert (- Z.of_nat 2 ≤ 1 < Z.of_nat 2)%Z as Hi by (cbn; lia).
  assert (- Z.of_nat 2 ≤ -1 < Z.of_nat 2)%Z as Hj by (cbn; lia).
  pose proof rays_three_column_ranks as Hranks.
  exact (conj Hpath (conj Hsh (conj Hi (conj Hj
    (get_coordinates_one_spec rays_three 1 (-1) 2 2 Hpath Hsh Hi Hj Hranks))))).
Defined.

Lemma rays_start_and_end_witness :
  Rays_init 2 times_three interior_three path_three = Ok rays_three ∧
  wf_array (iarr interior_three) ∧
  is_FermatPath path_three ∧
  head (points path_three) = Some (Pts probe) ∧
  last (points path_three) = Some (Pts grid) ∧
  (Z.of_nat (npoints probe) ≤ 2 ^ Z.of_nat (bits (idtype interior_three)))%Z ∧
  (Z.of_nat (npoints grid) ≤ 2 ^ Z.of_nat (bits (idtype interior_three)))%Z ∧
  ∃ x y z x' y' z',
    get_coordinates rays_three 0 = ([(x, y, z)], None) ∧
    get_coordinates rays_three (-1) = ([(x', y', z')], None) ∧
    ∀ i j c c',
      coords probe !! i = Some c → coords grid !! j = Some c' →
      getitem x [i; j] = Some c.1.1 ∧ getitem y [i; j] = Some c.1.2 ∧
      getitem z [i; j] = Some c.2 ∧
      getitem x' [i; j] = Some c'.1.1 ∧ getitem y' [i; j] = Some c'.1.2 ∧
      getitem z' [i; j] = Some c'.2.
Proof.
  assert (Rays_init 2 times_three interior_three path_three = Ok rays_three)
    as Hinit by reflexivity.
  assert (wf_array (iarr interior_three)) as Hwf by reflexivity.
  pose proof is_FermatPath_path_three as Hpath.
  assert (head (points path_three) = Some (Pts probe)) as Hfirst by reflexivity.
  assert (last (points path_three) = Some (Pts grid)) as Hlast by reflexivity.
  assert (Z.of_nat (npoints probe) ≤ 2 ^ Z.of_nat (bits (idtype interior_three)))%Z
    as Hn by (vm_compute; discriminate).
  assert (Z.of_nat (npoints grid) ≤ 2 ^ Z.of_nat (bits (idtype interior_three)))%Z
    as Hm by (vm_compute; discriminate).
  exact (conj Hinit (conj Hwf (conj Hpath (conj Hfirst (conj Hlast (conj Hn (conj Hm
    (rays_start_and_end 2 times_three interior_three path_three rays_three
       probe grid Hinit Hwf Hpath Hfirst Hlast Hn Hm)))))))).
Defined.

Lemma new_solver_result_cache_constructed :
  result_cache_constructed new_solver.
Proof.
  intros path rays Hl. unfold new_solver in Hl.
  cbn [cached_result] in Hl. by rewrite lookup_empty in Hl.
Qed.

Lemma _solve_frame_witness :
  let st' := solver_after (_solve path_three new_solver) in
  _solve path_three new_solver = Some (Ok rays_three, st') ∧
  dtype_indices st' = dtype_indices new_solver ∧
  (∀ key distance, cached_distance new_solver !! key = Some distance →
                   cached_distance st' !! key = Some distance) ∧
  (∀ q rays, cached_result new_solver !! q = Some rays →
             cached_result st' !! q = Some rays) ∧
  num_minimization new_solver ≤ num_minimization st' ∧
  num_euc_distance new_solver ≤ num_euc_distance st' ∧
  next_id new_solver ≤ next_id st'.
Proof.
  intros st'. pose proof int_solve_path_three as Hrun.
  exact (conj Hrun (_solve_frame path_three new_solver (Ok rays_three) st' Hrun)).
Defined.

Lemma _solve_adds_witness :
  let st' := solver_after (_solve path_three new_solver) in
  _solve path_three new_solver = Some (Ok rays_three, st') ∧
  (∀ q, cached_result new_solver !! q = None → is_Some (cached_result st' !! q) →
        q `prefix_of` path_three ∧ 5 ≤ length q) ∧
  (∀ a b distance,
     cached_distance new_solver !! (a, b) = None →
     cached_distance st' !! (a, b) = Some distance →
     distance = distance_pairwise a b ∧
     ∃ k, points path_three !! k = Some (Pts a) ∧
          points path_three !! S k = Some (Pts b)).
Proof.
  intros st'. pose proof int_solve_path_three as Hrun.
  exact (conj Hrun (_solve_adds path_three new_solver (Ok rays_three) st' Hrun)).
Defined.

Lemma _solve_result_shapes_witness :
  let st' := solver_after (_solve path_three new_solver) in
  result_cache_constructed new_solver ∧
  _solve path_three new_solver = Some (Ok rays_three, st') ∧
  result_cache_constructed st' ∧
  ∃ pts_first pts_last,
    head (points path_three) = Some (Pts pts_first) ∧
    last (points path_three) = Some (Pts pts_last) ∧
    fermat_path rays_three = path_three ∧
    shape (times rays_three) = [npoints pts_first; npoints pts_last] ∧
    shape (iarr (indices rays_three))
      = [num_points_sets path_three; npoints pts_first; npoints pts_last] ∧
    kind (idtype (indices rays_three)) = KindU.
Proof.
  intros st'. pose proof new_solver_result_cache_constructed as Hcon.
  pose proof int_solve_path_three as Hrun.
  exact (conj Hcon (conj Hrun
    (_solve_result_shapes path_three new_solver rays_three st' Hcon Hrun))).
Defined.

Lemma new_solver_no_result :
  ∀ q : int_path, q `prefix_of` path_three → 5 ≤ length q →
                  cached_result new_solver !! q = None.
Proof. intros q _ _. apply lookup_empty. Qed.

Lemma _solve_counts_witness :
  let st' := solver_after (_solve path_three new_solver) in
  is_FermatPath path_three ∧
  (∀ q, q `prefix_of` path_three → 5 ≤ length q →
        cached_result new_solver !! q = None) ∧
  _solve path_three new_solver = Some (Ok rays_three, st') ∧
  num_minimization st'
    = num_minimization new_solver + (num_points_sets path_three - 2) ∧
  num_euc_distance st'
    ≤ num_euc_distance new_solver + (num_points_sets path_three - 1).
Proof.
  intros st'. pose proof is_FermatPath_path_three as Hpath.
  pose proof new_solver_no_result as Hfresh.
  pose proof int_solve_path_three as Hrun.
  exact (conj Hpath (conj Hfresh (conj Hrun
    (_solve_counts path_three new_solver rays_three st' Hpath Hfresh Hrun)))).
Defined.

Lemma int_solve_path_three_next :
  let st1 := solver_after (_solve path_two new_solver) in
  _solve (path_two ++ [Speed 2%Z; Pts grid]) st1
  = Some (Ok rays_three_next,
          solver_after (_solve (path_two ++ [Speed 2%Z; Pts grid]) st1)).
Proof.
  intros st1.
  vm_cast_no_check (eq_refl (_solve (path_two ++ [Speed 2%Z; Pts grid]) st1)).
Qed.

Lemma path_three_not_cached :
  let st1 := solver_after (_solve path_two new_solver) in
  cached_result st1 !! (path_two ++ [Speed 2%Z; Pts grid]) = None.
Proof. intros st1. vm_cast_no_check (eq_refl (@None int_rays)). Qed.

Lemma _solve_extension_witness :
  let st1 := solver_after (_solve path_two new_solver) in
  let st2 := solver_after (_solve (path_two ++ [Speed 2%Z; Pts grid]) st1) in
  3 ≤ length path_two ∧
  _solve path_two new_solver = Some (Ok rays_two, st1) ∧
  cached_result st1 !! (path_two ++ [Speed 2%Z; Pts grid]) = None ∧
  _solve (path_two ++ [Speed 2%Z; Pts grid]) st1 = Some (Ok rays_three_next, st2) ∧
  num_minimization st2 = S (num_minimization st1) ∧
  num_euc_distance st2 ≤ S (num_euc_distance st1).
Proof.
  intros st1 st2.
  assert (3 ≤ length path_two) as Hlen by (cbn; lia).
  pose proof int_solve_path_two as Hrun.
  pose proof path_three_not_cached as Hfresh.
  pose proof int_solve_path_three_next as Hnext.
  exact (conj Hlen (conj Hrun (conj Hfresh (conj Hnext
    (_solve_extension path_two 2%Z grid new_solver rays_two st1
       rays_three_next st2 Hlen Hrun Hfresh Hnext))))).
Defined.

Lemma int_solve_signed :
  _solve path_two signed_solver
  = Some (Raise TypeError, solver_after (_solve path_two signed_solver)).
Proof. vm_cast_no_check (eq_refl (_solve path_two signed_solver)). Qed.

Lemma signed_dtype_raises_witness :
  let st' := solver_after (_solve path_two signed_solver) in
  kind (dtype_indices signed_solver) = KindI ∧
  cached_result signed_solver = ∅ ∧
  _solve path_two signed_solver = Some (Raise TypeError, st') ∧
  (∃ e, Raise (A:=int_rays) TypeError = Raise e) ∧
  (distance_pairwise_contract → distance_cache_inv signed_solver →
   ∀ points1 speed points2,
     path_two = [Pts points1; Speed speed; Pts points2] →
     Raise (A:=int_rays) TypeError = Raise TypeError ∧
     cached_distance st' !! (points1, points2)
       = Some (distance_pairwise points1 points2) ∧
     (cached_distance signed_solver !! (points1, points2) = None →
      num_euc_distance st' = S (num_euc_distance signed_solver))).
Proof.
  intros st'.
  assert (kind (dtype_indices signed_solver) = KindI) as Hkind by reflexivity.
  assert (cached_result signed_solver = ∅) as Hempty by reflexivity.
  pose proof int_solve_signed as Hrun.
  exact (conj Hkind (conj Hempty (conj Hrun
    (signed_dtype_raises path_two signed_solver (Raise TypeError) st'
       Hkind Hempty Hrun)))).
Defined.

Lemma solve_no_clean_sound_witness :
  cache_inv (attributes solver_object_two_paths) ∧
  result_cache_constructed (attributes solver_object_two_paths) ∧
  res solver_object_two_paths = ∅ ∧
  ∃ out self',
    solve_no_clean solver_object_two_paths = Some (out, self') ∧
    paths self' = paths solver_object_two_paths ∧
    cache_inv (attributes self') ∧
    ∀ results, out = Ok results →
      results = res self' ∧
      (∀ path, path ∈ paths solver_object_two_paths →
         ∃ rays, results !! path = Some rays ∧
                 solves (dtype_indices (attributes solver_object_two_paths)) path
                        (times rays) ∧
                 fermat_path rays = path) ∧
      (∀ q, is_Some (results !! q) → q ∈ paths solver_object_two_paths).
Proof.
  pose proof new_solver_cache_inv as Hinv.
  pose proof new_solver_result_cache_constructed as Hcon.
  assert (res solver_object_two_paths = ∅) as Hres by reflexivity.
  exact (conj Hinv (conj Hcon (conj Hres
    (solve_no_clean_sound solver_object_two_paths Hinv Hcon Hres)))).
Defined.

Lemma int_solve_two_paths :
  solve solver_object_two_paths
  = Some (Ok (results_after (solve solver_object_two_paths)),
          object_after (solve solver_object_two_paths)).
Proof. vm_cast_no_check (eq_refl (solve solver_object_two_paths)). Qed.

Lemma solve_after_init_witness :
  let results := results_after (solve solver_object_two_paths) in
  let self' := object_after (solve solver_object_two_paths) in
  FermatSolver_init index_dtype 0 [path_three; path_two] None
    = Ok solver_object_two_paths ∧
  solve solver_object_two_paths = Some (Ok results, self') ∧
  results = res self' ∧
  (∀ path, path ∈ [path_three; path_two] →
     ∃ rays, results !! path = Some rays ∧
             solves (default index_dtype None) path (times rays) ∧
             fermat_path rays = path) ∧
  (∀ q, is_Some (results !! q) → q ∈ [path_three; path_two]) ∧
  cached_distance (attributes self') = ∅ ∧
  cached_result (attributes self') = ∅.
Proof.
  intros results self'.
  assert (FermatSolver_init index_dtype 0 [path_three; path_two] None
          = Ok solver_object_two_paths) as Hinit by reflexivity.
  pose proof int_solve_two_paths as Hrun.
  exact (conj Hinit (conj Hrun
    (solve_after_init index_dtype 0 [path_three; path_two] None
       solver_object_two_paths results self' Hinit Hrun))).
Defined.

Lemma int_undeclared_outgoing :
  (get_outgoing_angles rays_three interfaces_undeclared true).1 !! 1
  = Some (ItemPair None None).
Proof. vm_compute. reflexivity. Qed.

Lemma angles_no_convention_witness :
  let interface := MkInterface frontwall [(); (); ()] None None in
  let item := ItemPair None None in
  interfaces_undeclared !! 1 = Some interface ∧
  1 + 1 < length interfaces_undeclared ∧
  are_normals_on_out_rays_side interface = None ∧
  (get_outgoing_angles rays_three interfaces_undeclared true).1 !! 1 = Some item ∧
  item = yield_none true.
Proof.
  intros interface item.
  assert (interfaces_undeclared !! 1 = Some interface) as Hk by reflexivity.
  assert (1 + 1 < length interfaces_undeclared) as Hlt by (cbn; lia).
  assert (are_normals_on_out_rays_side interface = None) as Hout by reflexivity.
  pose proof int_undeclared_outgoing as Hitem.
  exact (conj Hk (conj Hlt (conj Hout (conj Hitem
    (proj1 (angles_no_convention rays_three interfaces_undeclared true 1
              interface item Hk) Hlt Hout Hitem))))).
Defined.

Lemma int_outgoing_distances :
  (get_outgoing_angles rays_three interfaces_three false).1 !! 1
  = Some (Item (Some (NDArray [2; 2] [21; 23; 23; 21]%Z))).
Proof. vm_compute. reflexivity. Qed.

Lemma angles_without_distances_witness :
  let interface := MkInterface frontwall [(); (); ()] (Some true) (Some false) in
  let next := MkInterface grid [(); ()] (Some true) (Some true) in
  let item := Item (Some (NDArray [2; 2] [21; 23; 23; 21]%Z)) in
  shape (iarr (indices rays_three)) = [3; 2; 2] ∧
  wf_array (iarr (indices rays_three)) ∧
  interfaces_three !! 1 = Some interface ∧
  interfaces_three !! (1 + 1) = Some next ∧
  are_normals_on_out_rays_side interface = Some false ∧
  (get_outgoing_angles rays_three interfaces_three false).1 !! 1 = Some item ∧
  ∃ distances,
    item = Item (Some distances) ∧ shape distances = [2; 2] ∧
    ∀ i j, i < 2 → j < 2 →
      ∃ leg, leg_spherical rays_three interface next 1 (1 + 1) i j = Some leg ∧
             getitem distances [i; j] = Some (r leg).
Proof.
  intros interface next item.
  assert (shape (iarr (indices rays_three)) = [3; 2; 2]) as Hsh by reflexivity.
  assert (wf_array (iarr (indices rays_three))) as Hwf by reflexivity.
  assert (interfaces_three !! 1 = Some interface) as Hk by reflexivity.
  assert (interfaces_three !! (1 + 1) = Some next) as Hnext by reflexivity.
  assert (are_normals_on_out_rays_side interface = Some false) as Hflag
    by reflexivity.
  pose proof int_outgoing_distances as Hitem.
  exact (conj Hsh (conj Hwf (conj Hk (conj Hnext (conj Hflag (conj Hitem
    (proj1 (angles_without_distances rays_three interfaces_three 1 interface
              false item 3 2 2 Hsh Hwf Hk) next Hnext Hflag Hitem))))))).
Defined.

Lemma solve_two_gaps_returns_witness :
  find_minimum_times_contract (F:=Z) ∧
  distance_pairwise_contract (Points:=nat) (F:=Z) ∧
  distance_cache_inv new_solver ∧
  cached_result new_solver = ∅ ∧
  kind (dtype_indices new_solver) = KindU ∧
  ∃ res st',
    _solve [Pts probe; Speed 1%Z; Pts frontwall; Speed 2%Z; Pts grid] new_solver
      = Some (Ok res, st').
Proof.
  pose proof scan_find_minimum_times_meets_contract as Hfmt.
  pose proof int_distance_pairwise_meets_contract as Hdist.
  assert (distance_cache_inv new_solver) as Hinv by apply new_solver_cache_inv.
  assert (cached_result new_solver = ∅) as Hempty by reflexivity.
  assert (kind (dtype_indices new_solver) = KindU) as Hkind by reflexivity.
  exact (conj Hfmt (conj Hdist (conj Hinv (conj Hempty (conj Hkind
    (solve_two_gaps_returns probe 1%Z frontwall 2%Z grid new_solver
       Hfmt Hdist Hinv Hempty Hkind)))))).
Defined.

Lemma rays_three_indices_within :
  indices_within rays_three interfaces_three.
Proof.
  intros k interface layer Hk Hlayer.
  destruct k as [|[|[|k]]]; [| | |done];
    injection Hk as <-; vm_compute in Hlayer; injection Hlayer as <-;
    cbn [data]; repeat (apply Forall_cons; split; [by vm_compute|]);
    apply Forall_nil_2.
Qed.

Lemma angles_generators_complete_witness :
  shape (iarr (indices rays_three)) = [3; 2; 2] ∧
  length interfaces_three ≤ 3 ∧
  indices_within rays_three interfaces_three ∧
  0 < length interfaces_three ∧
  (get_outgoing_angles rays_three interfaces_three true).2 = None ∧
  length (get_outgoing_angles rays_three interfaces_three true).1
    = length interfaces_three ∧
  (get_incoming_angles rays_three interfaces_three true).2 = None ∧
  length (get_incoming_angles rays_three interfaces_three true).1
    = length interfaces_three.
Proof.
  assert (shape (iarr (indices rays_three)) = [3; 2; 2]) as Hsh by reflexivity.
  assert (length interfaces_three ≤ 3) as Hlen by (cbn; lia).
  pose proof rays_three_indices_within as Hin.
  assert (0 < length interfaces_three) as Hpos by (cbn; lia).
  exact (conj Hsh (conj Hlen (conj Hin (conj Hpos
    (angles_generators_complete rays_three interfaces_three true 3 2 2
       Hsh Hlen Hin Hpos))))).
Defined.
